(** * cityvibe: the chat front end and the reconciliation core

    The development has three parts.

    - [Web] embeds the TypeScript of the Next.js demo application: the
      server action [submitUserMessage] with its keyword dispatch and its
      mock MCP data sources, and the components [WalkList],
      [WeatherEventCarousel] and [EventCard] (favourite toggle).
    - [Chat] embeds the page around them: [handleSendMessage], the effect
      that stores the session, the handlers that clear, load and start a
      chat, toasts, quick filters, and the dialogs for preferences and
      login with the date labels of the sidebar.
    - [Core] embeds the event reconciliation pipeline and the hybrid
      search engine.  The Python packages that hold them
      ([cityvibe-etl], [mcp-server]) are not part of the sources at hand,
      so these definitions follow the written specification.

    Strings are held as their UTF-8 bytes.  [toLowerCase] follows the
    case mappings of the Unicode Character Database, [trim] strips the
    white space and line terminators of ECMAScript, and [length] and
    [substring] count UTF-16 code units.  Numbers that are clock
    readings are integers. *)

From Stdlib Require Import ZArith QArith Lia Bool Ascii Sorted Permutation.
From Stdlib Require Import DecimalString DecimalPos DecimalZ.
From stdpp Require Import gmap strings list.

Local Open Scope Z_scope.

(* ===================================================================== *)
(** * JavaScript string primitives used by the sources                   *)
(* ===================================================================== *)

Module JS.

(** ** Strings

    A JavaScript string is held as its UTF-8 bytes.  A lone surrogate,
    which [substring] can leave behind, is held in the three-byte form
    of its code unit. *)

Definition byteOf (c : ascii) : N := N_of_ascii c.

(** A continuation byte of a UTF-8 sequence. *)
Definition isContinuation (c : ascii) : bool :=
  ((128 <=? byteOf c) && (byteOf c <? 192))%N.

(** The code point at the head of a string that starts with the byte
    [a], followed by [r], and the number of bytes that hold it.  A byte
    that starts no well-formed sequence is kept, alone, as the number
    [1114112 + byte], above every code point, so that [fromCodePoints]
    gives it back. *)
Definition sequenceAt (a : ascii) (r : string) : N * nat :=
  let x := byteOf a in
  let stray := ((1114112 + x)%N, 1%nat) in
  if (x <? 128)%N then (x, 1%nat)
  else
    match r with
    | String b r2 =>
        if ((194 <=? x) && (x <? 224))%N then
          if isContinuation b
          then (((x - 192) * 64 + (byteOf b - 128))%N, 2%nat)
          else stray
        else
          match r2 with
          | String c r3 =>
              if ((224 <=? x) && (x <? 240))%N then
                let cp := (((x - 224) * 64 + (byteOf b - 128)) * 64
                           + (byteOf c - 128))%N in
                if isContinuation b && isContinuation c && (2048 <=? cp)%N
                then (cp, 3%nat) else stray
              else
                match r3 with
                | String d _ =>
                    let cp := ((((x - 240) * 64 + (byteOf b - 128)) * 64
                                + (byteOf c - 128)) * 64 + (byteOf d - 128))%N in
                    if ((240 <=? x) && (x <? 245))%N &&
                       isContinuation b && isContinuation c && isContinuation d &&
                       ((65536 <=? cp) && (cp <? 1114112))%N
                    then (cp, 4%nat) else stray
                | EmptyString => stray
                end
          | EmptyString => stray
          end
    | EmptyString => stray
    end.

(** The code points of a string. *)
Fixpoint codePoints (s : string) : list N :=
  match s with
  | EmptyString => []
  | String a r =>
      let '(cp, n) := sequenceAt a r in
      cp :: match n, r with
            | 4%nat, String _ (String _ (String _ r4)) => codePoints r4
            | 3%nat, String _ (String _ r3) => codePoints r3
            | 2%nat, String _ r2 => codePoints r2
            | _, _ => codePoints r
            end
  end.

(** The UTF-8 bytes of one code point. *)
Definition utf8 (cp : N) : string :=
  if (cp <? 128)%N then String (ascii_of_N cp) EmptyString
  else if (cp <? 2048)%N then
    String (ascii_of_N (192 + cp / 64))
      (String (ascii_of_N (128 + cp mod 64)) EmptyString)
  else if (cp <? 65536)%N then
    String (ascii_of_N (224 + cp / 4096))
      (String (ascii_of_N (128 + (cp / 64) mod 64))
         (String (ascii_of_N (128 + cp mod 64)) EmptyString))
  else if (cp <? 1114112)%N then
    String (ascii_of_N (240 + cp / 262144))
      (String (ascii_of_N (128 + (cp / 4096) mod 64))
         (String (ascii_of_N (128 + (cp / 64) mod 64))
            (String (ascii_of_N (128 + cp mod 64)) EmptyString)))
  else String (ascii_of_N (cp - 1114112)) EmptyString.

(** The string that holds the code points [l]. *)
Fixpoint fromCodePoints (l : list N) : string :=
  match l with
  | [] => EmptyString
  | cp :: l' => utf8 cp +:+ fromCodePoints l'
  end.

(** ** [toLowerCase] *)

(** The one-to-one lower-case mappings of the Unicode Character Database
    (version 14.0): a rule [(lo, hi, step, to)] sends the code point
    [lo + k * step], up to [hi], to [to + k * step]. *)
Definition lowerCaseRules : list (N * N * N * N) :=
  [ (65, 90, 1, 97); (192, 214, 1, 224); (216, 222, 1, 248);
    (256, 302, 2, 257); (306, 310, 2, 307); (313, 327, 2, 314);
    (330, 374, 2, 331); (376, 376, 1, 255); (377, 381, 2, 378);
    (385, 385, 1, 595); (386, 388, 2, 387); (390, 390, 1, 596);
    (391, 391, 1, 392); (393, 394, 1, 598); (395, 395, 1, 396);
    (398, 398, 1, 477); (399, 399, 1, 601); (400, 400, 1, 603);
    (401, 401, 1, 402); (403, 403, 1, 608); (404, 404, 1, 611);
    (406, 406, 1, 617); (407, 407, 1, 616); (408, 408, 1, 409);
    (412, 412, 1, 623); (413, 413, 1, 626); (415, 415, 1, 629);
    (416, 420, 2, 417); (422, 422, 1, 640); (423, 423, 1, 424);
    (425, 425, 1, 643); (428, 428, 1, 429); (430, 430, 1, 648);
    (431, 431, 1, 432); (433, 434, 1, 650); (435, 437, 2, 436);
    (439, 439, 1, 658); (440, 440, 1, 441); (444, 444, 1, 445);
    (452, 452, 1, 454); (453, 453, 1, 454); (455, 455, 1, 457);
    (456, 456, 1, 457); (458, 458, 1, 460); (459, 475, 2, 460);
    (478, 494, 2, 479); (497, 497, 1, 499); (498, 500, 2, 499);
    (502, 502, 1, 405); (503, 503, 1, 447); (504, 542, 2, 505);
    (544, 544, 1, 414); (546, 562, 2, 547); (570, 570, 1, 11365);
    (571, 571, 1, 572); (573, 573, 1, 410); (574, 574, 1, 11366);
    (577, 577, 1, 578); (579, 579, 1, 384); (580, 580, 1, 649);
    (581, 581, 1, 652); (582, 590, 2, 583); (880, 882, 2, 881);
    (886, 886, 1, 887); (895, 895, 1, 1011); (902, 902, 1, 940);
    (904, 906, 1, 941); (908, 908, 1, 972); (910, 911, 1, 973);
    (913, 929, 1, 945); (931, 939, 1, 963); (975, 975, 1, 983);
    (984, 1006, 2, 985); (1012, 1012, 1, 952); (1015, 1015, 1, 1016);
    (1017, 1017, 1, 1010); (1018, 1018, 1, 1019); (1021, 1023, 1, 891);
    (1024, 1039, 1, 1104); (1040, 1071, 1, 1072); (1120, 1152, 2, 1121);
    (1162, 1214, 2, 1163); (1216, 1216, 1, 1231); (1217, 1229, 2, 1218);
    (1232, 1326, 2, 1233); (1329, 1366, 1, 1377); (4256, 4293, 1, 11520);
    (4295, 4295, 1, 11559); (4301, 4301, 1, 11565); (5024, 5103, 1, 43888);
    (5104, 5109, 1, 5112); (7312, 7354, 1, 4304); (7357, 7359, 1, 4349);
    (7680, 7828, 2, 7681); (7838, 7838, 1, 223); (7840, 7934, 2, 7841);
    (7944, 7951, 1, 7936); (7960, 7965, 1, 7952); (7976, 7983, 1, 7968);
    (7992, 7999, 1, 7984); (8008, 8013, 1, 8000); (8025, 8031, 2, 8017);
    (8040, 8047, 1, 8032); (8072, 8079, 1, 8064); (8088, 8095, 1, 8080);
    (8104, 8111, 1, 8096); (8120, 8121, 1, 8112); (8122, 8123, 1, 8048);
    (8124, 8124, 1, 8115); (8136, 8139, 1, 8050); (8140, 8140, 1, 8131);
    (8152, 8153, 1, 8144); (8154, 8155, 1, 8054); (8168, 8169, 1, 8160);
    (8170, 8171, 1, 8058); (8172, 8172, 1, 8165); (8184, 8185, 1, 8056);
    (8186, 8187, 1, 8060); (8188, 8188, 1, 8179); (8486, 8486, 1, 969);
    (8490, 8490, 1, 107); (8491, 8491, 1, 229); (8498, 8498, 1, 8526);
    (8544, 8559, 1, 8560); (8579, 8579, 1, 8580); (9398, 9423, 1, 9424);
    (11264, 11311, 1, 11312); (11360, 11360, 1, 11361);
    (11362, 11362, 1, 619); (11363, 11363, 1, 7549); (11364, 11364, 1, 637);
    (11367, 11371, 2, 11368); (11373, 11373, 1, 593); (11374, 11374, 1, 625);
    (11375, 11375, 1, 592); (11376, 11376, 1, 594); (11378, 11378, 1, 11379);
    (11381, 11381, 1, 11382); (11390, 11391, 1, 575);
    (11392, 11490, 2, 11393); (11499, 11501, 2, 11500);
    (11506, 11506, 1, 11507); (42560, 42604, 2, 42561);
    (42624, 42650, 2, 42625); (42786, 42798, 2, 42787);
    (42802, 42862, 2, 42803); (42873, 42875, 2, 42874);
    (42877, 42877, 1, 7545); (42878, 42886, 2, 42879);
    (42891, 42891, 1, 42892); (42893, 42893, 1, 613);
    (42896, 42898, 2, 42897); (42902, 42920, 2, 42903);
    (42922, 42922, 1, 614); (42923, 42923, 1, 604); (42924, 42924, 1, 609);
    (42925, 42925, 1, 620); (42926, 42926, 1, 618); (42928, 42928, 1, 670);
    (42929, 42929, 1, 647); (42930, 42930, 1, 669); (42931, 42931, 1, 43859);
    (42932, 42946, 2, 42933); (42948, 42948, 1, 42900);
    (42949, 42949, 1, 642); (42950, 42950, 1, 7566);
    (42951, 42953, 2, 42952); (42960, 42960, 1, 42961);
    (42966, 42968, 2, 42967); (42997, 42997, 1, 42998);
    (65313, 65338, 1, 65345); (66560, 66599, 1, 66600);
    (66736, 66771, 1, 66776); (66928, 66938, 1, 66967);
    (66940, 66954, 1, 66979); (66956, 66962, 1, 66995);
    (66964, 66965, 1, 67003); (68736, 68786, 1, 68800);
    (71840, 71871, 1, 71872); (93760, 93791, 1, 93792);
    (125184, 125217, 1, 125218) ]%N.

(** The code points with the property Cased that are not Case_Ignorable,
    as inclusive ranges. *)
Definition casedRanges : list (N * N) :=
  [ (65, 90); (97, 122); (170, 170); (181, 181); (186, 186); (192, 214);
    (216, 246); (248, 442); (444, 447); (452, 659); (661, 687); (880, 883);
    (886, 887); (891, 893); (895, 895); (902, 902); (904, 906); (908, 908);
    (910, 929); (931, 1013); (1015, 1153); (1162, 1327); (1329, 1366);
    (1376, 1416); (4256, 4293); (4295, 4295); (4301, 4301); (4304, 4346);
    (4349, 4351); (5024, 5109); (5112, 5117); (7296, 7304); (7312, 7354);
    (7357, 7359); (7424, 7467); (7531, 7543); (7545, 7578); (7680, 7957);
    (7960, 7965); (7968, 8005); (8008, 8013); (8016, 8023); (8025, 8025);
    (8027, 8027); (8029, 8029); (8031, 8061); (8064, 8116); (8118, 8124);
    (8126, 8126); (8130, 8132); (8134, 8140); (8144, 8147); (8150, 8155);
    (8160, 8172); (8178, 8180); (8182, 8188); (8450, 8450); (8455, 8455);
    (8458, 8467); (8469, 8469); (8473, 8477); (8484, 8484); (8486, 8486);
    (8488, 8488); (8490, 8493); (8495, 8500); (8505, 8505); (8508, 8511);
    (8517, 8521); (8526, 8526); (8544, 8575); (8579, 8580); (9398, 9449);
    (11264, 11387); (11390, 11492); (11499, 11502); (11506, 11507);
    (11520, 11557); (11559, 11559); (11565, 11565); (42560, 42605);
    (42624, 42651); (42786, 42863); (42865, 42887); (42891, 42894);
    (42896, 42954); (42960, 42961); (42963, 42963); (42965, 42969);
    (42997, 42998); (43002, 43002); (43824, 43866); (43872, 43880);
    (43888, 43967); (64256, 64262); (64275, 64279); (65313, 65338);
    (65345, 65370); (66560, 66639); (66736, 66771); (66776, 66811);
    (66928, 66938); (66940, 66954); (66956, 66962); (66964, 66965);
    (66967, 66977); (66979, 66993); (66995, 67001); (67003, 67004);
    (68736, 68786); (68800, 68850); (71840, 71903); (93760, 93823);
    (119808, 119892); (119894, 119964); (119966, 119967); (119970, 119970);
    (119973, 119974); (119977, 119980); (119982, 119993); (119995, 119995);
    (119997, 120003); (120005, 120069); (120071, 120074); (120077, 120084);
    (120086, 120092); (120094, 120121); (120123, 120126); (120128, 120132);
    (120134, 120134); (120138, 120144); (120146, 120485); (120488, 120512);
    (120514, 120538); (120540, 120570); (120572, 120596); (120598, 120628);
    (120630, 120654); (120656, 120686); (120688, 120712); (120714, 120744);
    (120746, 120770); (120772, 120779); (122624, 122633); (122635, 122654);
    (125184, 125251); (127280, 127305); (127312, 127337);
    (127344, 127369) ]%N.

(** The code points with the property Case_Ignorable, as inclusive
    ranges. *)
Definition caseIgnorableRanges : list (N * N) :=
  [ (39, 39); (46, 46); (58, 58); (94, 94); (96, 96); (168, 168); (173, 173);
    (175, 175); (180, 180); (183, 184); (688, 879); (884, 885); (890, 890);
    (900, 901); (903, 903); (1155, 1161); (1369, 1369); (1375, 1375);
    (1425, 1469); (1471, 1471); (1473, 1474); (1476, 1477); (1479, 1479);
    (1524, 1524); (1536, 1541); (1552, 1562); (1564, 1564); (1600, 1600);
    (1611, 1631); (1648, 1648); (1750, 1757); (1759, 1768); (1770, 1773);
    (1807, 1807); (1809, 1809); (1840, 1866); (1958, 1968); (2027, 2037);
    (2042, 2042); (2045, 2045); (2070, 2093); (2137, 2139); (2184, 2184);
    (2192, 2193); (2200, 2207); (2249, 2306); (2362, 2362); (2364, 2364);
    (2369, 2376); (2381, 2381); (2385, 2391); (2402, 2403); (2417, 2417);
    (2433, 2433); (2492, 2492); (2497, 2500); (2509, 2509); (2530, 2531);
    (2558, 2558); (2561, 2562); (2620, 2620); (2625, 2626); (2631, 2632);
    (2635, 2637); (2641, 2641); (2672, 2673); (2677, 2677); (2689, 2690);
    (2748, 2748); (2753, 2757); (2759, 2760); (2765, 2765); (2786, 2787);
    (2810, 2815); (2817, 2817); (2876, 2876); (2879, 2879); (2881, 2884);
    (2893, 2893); (2901, 2902); (2914, 2915); (2946, 2946); (3008, 3008);
    (3021, 3021); (3072, 3072); (3076, 3076); (3132, 3132); (3134, 3136);
    (3142, 3144); (3146, 3149); (3157, 3158); (3170, 3171); (3201, 3201);
    (3260, 3260); (3263, 3263); (3270, 3270); (3276, 3277); (3298, 3299);
    (3328, 3329); (3387, 3388); (3393, 3396); (3405, 3405); (3426, 3427);
    (3457, 3457); (3530, 3530); (3538, 3540); (3542, 3542); (3633, 3633);
    (3636, 3642); (3654, 3662); (3761, 3761); (3764, 3772); (3782, 3782);
    (3784, 3789); (3864, 3865); (3893, 3893); (3895, 3895); (3897, 3897);
    (3953, 3966); (3968, 3972); (3974, 3975); (3981, 3991); (3993, 4028);
    (4038, 4038); (4141, 4144); (4146, 4151); (4153, 4154); (4157, 4158);
    (4184, 4185); (4190, 4192); (4209, 4212); (4226, 4226); (4229, 4230);
    (4237, 4237); (4253, 4253); (4348, 4348); (4957, 4959); (5906, 5908);
    (5938, 5939); (5970, 5971); (6002, 6003); (6068, 6069); (6071, 6077);
    (6086, 6086); (6089, 6099); (6103, 6103); (6109, 6109); (6155, 6159);
    (6211, 6211); (6277, 6278); (6313, 6313); (6432, 6434); (6439, 6440);
    (6450, 6450); (6457, 6459); (6679, 6680); (6683, 6683); (6742, 6742);
    (6744, 6750); (6752, 6752); (6754, 6754); (6757, 6764); (6771, 6780);
    (6783, 6783); (6823, 6823); (6832, 6862); (6912, 6915); (6964, 6964);
    (6966, 6970); (6972, 6972); (6978, 6978); (7019, 7027); (7040, 7041);
    (7074, 7077); (7080, 7081); (7083, 7085); (7142, 7142); (7144, 7145);
    (7149, 7149); (7151, 7153); (7212, 7219); (7222, 7223); (7288, 7293);
    (7376, 7378); (7380, 7392); (7394, 7400); (7405, 7405); (7412, 7412);
    (7416, 7417); (7468, 7530); (7544, 7544); (7579, 7679); (8125, 8125);
    (8127, 8129); (8141, 8143); (8157, 8159); (8173, 8175); (8189, 8190);
    (8203, 8207); (8216, 8217); (8228, 8228); (8231, 8231); (8234, 8238);
    (8288, 8292); (8294, 8303); (8305, 8305); (8319, 8319); (8336, 8348);
    (8400, 8432); (11388, 11389); (11503, 11505); (11631, 11631);
    (11647, 11647); (11744, 11775); (11823, 11823); (12293, 12293);
    (12330, 12333); (12337, 12341); (12347, 12347); (12441, 12446);
    (12540, 12542); (40981, 40981); (42232, 42237); (42508, 42508);
    (42607, 42610); (42612, 42621); (42623, 42623); (42652, 42655);
    (42736, 42737); (42752, 42785); (42864, 42864); (42888, 42890);
    (42994, 42996); (43000, 43001); (43010, 43010); (43014, 43014);
    (43019, 43019); (43045, 43046); (43052, 43052); (43204, 43205);
    (43232, 43249); (43263, 43263); (43302, 43309); (43335, 43345);
    (43392, 43394); (43443, 43443); (43446, 43449); (43452, 43453);
    (43471, 43471); (43493, 43494); (43561, 43566); (43569, 43570);
    (43573, 43574); (43587, 43587); (43596, 43596); (43632, 43632);
    (43644, 43644); (43696, 43696); (43698, 43700); (43703, 43704);
    (43710, 43711); (43713, 43713); (43741, 43741); (43756, 43757);
    (43763, 43764); (43766, 43766); (43867, 43871); (43881, 43883);
    (44005, 44005); (44008, 44008); (44013, 44013); (64286, 64286);
    (64434, 64450); (65024, 65039); (65043, 65043); (65056, 65071);
    (65106, 65106); (65109, 65109); (65279, 65279); (65287, 65287);
    (65294, 65294); (65306, 65306); (65342, 65342); (65344, 65344);
    (65392, 65392); (65438, 65439); (65507, 65507); (65529, 65531);
    (66045, 66045); (66272, 66272); (66422, 66426); (67456, 67461);
    (67463, 67504); (67506, 67514); (68097, 68099); (68101, 68102);
    (68108, 68111); (68152, 68154); (68159, 68159); (68325, 68326);
    (68900, 68903); (69291, 69292); (69446, 69456); (69506, 69509);
    (69633, 69633); (69688, 69702); (69744, 69744); (69747, 69748);
    (69759, 69761); (69811, 69814); (69817, 69818); (69821, 69821);
    (69826, 69826); (69837, 69837); (69888, 69890); (69927, 69931);
    (69933, 69940); (70003, 70003); (70016, 70017); (70070, 70078);
    (70089, 70092); (70095, 70095); (70191, 70193); (70196, 70196);
    (70198, 70199); (70206, 70206); (70367, 70367); (70371, 70378);
    (70400, 70401); (70459, 70460); (70464, 70464); (70502, 70508);
    (70512, 70516); (70712, 70719); (70722, 70724); (70726, 70726);
    (70750, 70750); (70835, 70840); (70842, 70842); (70847, 70848);
    (70850, 70851); (71090, 71093); (71100, 71101); (71103, 71104);
    (71132, 71133); (71219, 71226); (71229, 71229); (71231, 71232);
    (71339, 71339); (71341, 71341); (71344, 71349); (71351, 71351);
    (71453, 71455); (71458, 71461); (71463, 71467); (71727, 71735);
    (71737, 71738); (71995, 71996); (71998, 71998); (72003, 72003);
    (72148, 72151); (72154, 72155); (72160, 72160); (72193, 72202);
    (72243, 72248); (72251, 72254); (72263, 72263); (72273, 72278);
    (72281, 72283); (72330, 72342); (72344, 72345); (72752, 72758);
    (72760, 72765); (72767, 72767); (72850, 72871); (72874, 72880);
    (72882, 72883); (72885, 72886); (73009, 73014); (73018, 73018);
    (73020, 73021); (73023, 73029); (73031, 73031); (73104, 73105);
    (73109, 73109); (73111, 73111); (73459, 73460); (78896, 78904);
    (92912, 92916); (92976, 92982); (92992, 92995); (94031, 94031);
    (94095, 94111); (94176, 94177); (94179, 94180); (110576, 110579);
    (110581, 110587); (110589, 110590); (113821, 113822); (113824, 113827);
    (118528, 118573); (118576, 118598); (119143, 119145); (119155, 119170);
    (119173, 119179); (119210, 119213); (119362, 119364); (121344, 121398);
    (121403, 121452); (121461, 121461); (121476, 121476); (121499, 121503);
    (121505, 121519); (122880, 122886); (122888, 122904); (122907, 122913);
    (122915, 122916); (122918, 122922); (123184, 123197); (123566, 123566);
    (123628, 123631); (125136, 125142); (125252, 125259); (127995, 127999);
    (917505, 917505); (917536, 917631); (917760, 917999) ]%N.

(** Membership of a code point in a table of inclusive ranges. *)
Definition inRanges (ranges : list (N * N)) (cp : N) : bool :=
  existsb (fun r => (fst r <=? cp) && (cp <=? snd r))%N ranges.

(** The lower-case mapping of one code point where it is a single code
    point. *)
Definition simpleLower (cp : N) : N :=
  if (cp <? 128)%N then (if (65 <=? cp) && (cp <=? 90) then cp + 32 else cp)%N
  else
    match List.find (fun r => let '(lo, hi, step, _) := r in
                              (lo <=? cp) && (cp <=? hi) && ((cp - lo) mod step =? 0))%N
                    lowerCaseRules with
    | Some (lo, _, _, to) => (to + (cp - lo))%N
    | None => cp
    end.

(** Whether a cased letter comes next, case-ignorable code points
    skipped; applied to what follows a code point, and to what precedes
    it, nearest first. *)
Fixpoint casedLetterNext (l : list N) : bool :=
  match l with
  | [] => false
  | c :: l' =>
      if inRanges caseIgnorableRanges c then casedLetterNext l'
      else inRanges casedRanges c
  end.

(** The lower-case mapping along a string: [before] holds the code
    points already passed, nearest first.  Capital sigma becomes the
    final sigma after a cased letter when none follows, and capital I
    with dot above becomes i and a combining dot; every other code point
    has a one-to-one mapping. *)
Fixpoint lowerFrom (before l : list N) : list N :=
  match l with
  | [] => []
  | c :: l' =>
      (if (c =? 931)%N then
         [if casedLetterNext before && negb (casedLetterNext l') then 962%N else 963%N]
       else if (c =? 304)%N then [105%N; 775%N]
       else [simpleLower c])
      ++ lowerFrom (c :: before) l'
  end.

(** [s.toLowerCase()] *)
Definition toLowerCase (s : string) : string :=
  fromCodePoints (lowerFrom [] (codePoints s)).

(** [s.startsWith(p)] *)
Fixpoint startsWith (s p : string) {struct p} : bool :=
  match p, s with
  | EmptyString, _ => true
  | String _ _, EmptyString => false
  | String a p', String b s' => if Ascii.eqb a b then startsWith s' p' else false
  end.

(** [s.includes(sub)]: [sub] occurs in [s] at some offset. *)
Fixpoint includes (s sub : string) : bool :=
  if startsWith s sub then true
  else match s with
       | EmptyString => false
       | String _ s' => includes s' sub
       end.

(** [xs.includes(x)] on an array of strings. *)
Definition array_includes (xs : list string) (x : string) : bool :=
  existsb (String.eqb x) xs.

(** Truthiness of a string value: only the empty string is falsy. *)
Definition truthy (s : string) : bool :=
  match s with EmptyString => false | _ => true end.

(** ** [trim]

    The white space and line terminators that [trim] strips are the code
    points U+0009 to U+000D, U+0020, U+00A0, U+1680, U+2000 to U+200A,
    U+2028, U+2029, U+202F, U+205F, U+3000 and U+FEFF.  In UTF-8 they
    take one, two or three bytes. *)

Definition isWhiteSpace1 (a : ascii) : bool :=
  let x := byteOf a in ((9 <=? x) && (x <=? 13) || (x =? 32))%N.

Definition isWhiteSpace2 (a b : ascii) : bool :=
  ((byteOf a =? 194) && (byteOf b =? 160))%N.

Definition isWhiteSpace3 (a b c : ascii) : bool :=
  let x := byteOf a in
  let y := byteOf b in
  let z := byteOf c in
  ((x =? 225) && (y =? 154) && (z =? 128) ||
   (x =? 226) && (y =? 128) &&
     ((128 <=? z) && (z <=? 138) || (z =? 168) || (z =? 169) || (z =? 175)) ||
   (x =? 226) && (y =? 129) && (z =? 159) ||
   (x =? 227) && (y =? 128) && (z =? 128) ||
   (x =? 239) && (y =? 187) && (z =? 191))%N.

(** What follows the white space code point at the head of [s], if there
    is one. *)
Definition afterWhiteSpace (s : string) : option string :=
  match s with
  | String a r1 =>
      if isWhiteSpace1 a then Some r1
      else
        match r1 with
        | String b r2 =>
            if isWhiteSpace2 a b then Some r2
            else
              match r2 with
              | String c r3 => if isWhiteSpace3 a b c then Some r3 else None
              | EmptyString => None
              end
        | EmptyString => None
        end
  | EmptyString => None
  end.

(** [s.trimStart()] *)
Fixpoint trimStart (s : string) : string :=
  match s with
  | EmptyString => EmptyString
  | String a r1 =>
      if isWhiteSpace1 a then trimStart r1
      else
        match r1 with
        | String b r2 =>
            if isWhiteSpace2 a b then trimStart r2
            else
              match r2 with
              | String c r3 => if isWhiteSpace3 a b c then trimStart r3 else s
              | EmptyString => s
              end
        | EmptyString => s
        end
  end.

(** A string that holds white space only. *)
Definition blank (s : string) : bool := negb (truthy (trimStart s)).

(** [s.trimEnd()]: what is left of [s] when the white space it ends with
    is dropped. *)
Fixpoint trimEnd (s : string) : string :=
  match s with
  | EmptyString => EmptyString
  | String a r => if blank s then EmptyString else String a (trimEnd r)
  end.

(** [s.trim()] *)
Definition trim (s : string) : string := trimEnd (trimStart s).

(** ** [length] and [substring]

    Both count UTF-16 code units: a code point takes two of them when
    its UTF-8 sequence has four bytes, and one otherwise. *)

(** The code units of the code point whose UTF-8 sequence starts with
    the byte [a]; a continuation byte adds none. *)
Definition codeUnits (a : ascii) : nat :=
  if isContinuation a then 0 else if (240 <=? byteOf a)%N then 2 else 1.

(** [s.length] *)
Fixpoint length (s : string) : nat :=
  match s with
  | EmptyString => 0
  | String a r => codeUnits a + length r
  end.

(** The high surrogate of the code point whose four-byte sequence is [a]
    followed by the first bytes of [r], in the three-byte form. *)
Definition highSurrogate (a : ascii) (r : string) : string :=
  let '(y, z) := match r with
                 | String b (String c _) => (byteOf b, byteOf c)
                 | String b EmptyString => (byteOf b, 128%N)
                 | EmptyString => (128%N, 128%N)
                 end in
  let top := (((byteOf a - 240) * 64 + (y - 128)) * 4 + (z - 128) / 16)%N in
  let hi := (55296 + (top - 64))%N in
  String (ascii_of_N (224 + (hi / 4096) mod 16))
    (String (ascii_of_N (128 + (hi / 64) mod 64))
       (String (ascii_of_N (128 + hi mod 64)) EmptyString)).

(** [s.substring(0, n)]: the first [n] code units.  A cut between the
    two code units of a code point keeps its high surrogate. *)
Fixpoint substring0 (n : nat) (s : string) : string :=
  match s with
  | EmptyString => EmptyString
  | String a r =>
      if isContinuation a then String a (substring0 n r)
      else if (codeUnits a <=? n)%nat then String a (substring0 (n - codeUnits a) r)
      else if (n =? 1)%nat then highSurrogate a r
      else EmptyString
  end.

(** [n.toString()] for an integer [n]: decimal digits, with a minus sign
    for a negative number. *)
Definition numberToString (n : Z) : string :=
  NilZero.string_of_int (Z.to_int n).

(** The value of a digit or letter in a radix up to 16. *)
Definition digitValue (c : ascii) : option Z :=
  let n := nat_of_ascii c in
  if ((48 <=? n) && (n <=? 57))%nat then Some (Z.of_nat n - 48)
  else if ((97 <=? n) && (n <=? 102))%nat then Some (Z.of_nat n - 87)
  else if ((65 <=? n) && (n <=? 70))%nat then Some (Z.of_nat n - 55)
  else None.

(** The longest prefix of [s] made of digits of the radix, read as a
    number; [acc] is [None] as long as no digit was read. *)
Fixpoint parseDigits (radix : Z) (s : string) (acc : option Z) : option Z :=
  match s with
  | EmptyString => acc
  | String c s' =>
      match digitValue c with
      | Some d =>
          if d <? radix then parseDigits radix s' (Some (default 0 acc * radix + d))
          else acc
      | None => acc
      end
  end.

(** [s.substring(n)] where the first [n] code units are ASCII *)
Fixpoint substringFrom (n : nat) (s : string) : string :=
  match n, s with
  | S n', String _ s' => substringFrom n' s'
  | _, _ => s
  end.

(** [parseInt(s)] without a radix argument; [None] is [NaN].  Leading
    white space is skipped, then a sign is read and removed, then the
    prefix [0x] or [0X] selects radix 16.  The result is the exact
    integer, which is what the code gets for numbers of up to 15
    digits, clock readings among them. *)
Definition parseInt (s : string) : option Z :=
  let s1 := trimStart s in
  let sign := if startsWith s1 "-" then -1 else 1 in
  let s2 := if startsWith s1 "+" || startsWith s1 "-" then substringFrom 1 s1 else s1 in
  let hex := startsWith s2 "0x" || startsWith s2 "0X" in
  let radix := if hex then 16 else 10 in
  let s3 := if hex then substringFrom 2 s2 else s2 in
  Z.mul sign <$> parseDigits radix s3 None.

End JS.

(* ===================================================================== *)
(** * The chat front end (apps/web)                                      *)
(* ===================================================================== *)

Module Web.

(** ** Data carried by the cards *)

(** event-card.tsx, [EventData] *)
Record EventData := mkEventData {
  ev_id : string;
  ev_title : string;
  ev_image : string;
  ev_time : string;
  ev_location : string;
  ev_price : string;
  ev_category : string;
  ev_source : string;
  ev_description : option string
}.

Inductive Difficulty := Easy | Moderate | Challenging.

Record Route := mkRoute {
  route_name : string;
  route_waypoints : list string
}.

(** city-walk.tsx, [CityWalkData] *)
Record CityWalkData := mkCityWalkData {
  walk_id : string;
  walk_title : string;
  walk_description : string;
  walk_distance : string;
  walk_duration : string;
  walk_location : string;
  walk_route : Route;
  walk_difficulty : option Difficulty;
  walk_source : string
}.

(** weather-event-card.tsx, [WeatherType] and [WeatherEventData] *)
Inductive WeatherType := rain | sun | wind | snow | clouds | fog | storm | clear.

Record WeatherEventData := mkWeatherEventData {
  weather_id : string;
  weather_location : string;
  weatherType : WeatherType;
  temperature : string;
  condition : string;
  precipitation : option string;
  humidity : option string;
  windSpeed : option string
}.

(** ** Awaited calls

    An awaited promise either yields its value or throws.  A computation
    of the server action is a log of the MCP clients it has called so far
    together with the outcome. *)

Inductive Promise (A : Type) :=
| Fulfilled (a : A)
| Rejected.
Arguments Fulfilled {A} a.
Arguments Rejected {A}.

Definition Async (A : Type) : Type := list string * Promise A.

Definition ret {A} (a : A) : Async A := ([], Fulfilled a).

Definition bind {A B} (m : Async A) (k : A -> Async B) : Async B :=
  match m with
  | (log, Fulfilled a) => let '(log', r) := k a in (log ++ log', r)
  | (log, Rejected) => (log, Rejected)
  end.

Notation "'await' x <- m ; k" := (bind m (fun x => k))
  (at level 10, x name, m at level 100, k at level 200).

(** [try { body } catch (error) { handler }] around an awaited body. *)
Definition tryCatch {A} (body : Async A) (handler : A) : list string * A :=
  match body with
  | (log, Fulfilled a) => (log, a)
  | (log, Rejected) => (log, handler)
  end.

(** ** Mock MCP clients *)

Record MCPClient := mkMCPClient {
  client_name : string;
  client_delay : Z
}.

Definition MCP_CLIENTS : list (string * MCPClient) :=
  [ ("uitagenda-rotterdam", mkMCPClient "Uitagenda Rotterdam" 600);
    ("mcp-iamsterdam", mkMCPClient "I Amsterdam" 700);
    ("mcp-city-secrets", mkMCPClient "City Secrets" 500);
    ("mcp-ticketmaster", mkMCPClient "Ticketmaster" 800) ].

(** [MCP_CLIENTS[key]]; [None] is [undefined]. *)
Definition clientOf (key : string) : option MCPClient :=
  snd <$> List.find (fun entry => String.eqb (fst entry) key) MCP_CLIENTS.

(** [simulateMCPCall]: waits [client.delay] ms, then resolves with
    [data]; reading [delay] of an undefined client throws. *)
Definition simulateMCPCall {T} (client : option MCPClient) (data : T) : Async T :=
  match client with
  | Some c => ([client_name c], Fulfilled data)
  | None => ([], Rejected)
  end.

Definition unsplash (photo : string) : string :=
  "https://images.unsplash.com/photo-" +:+ photo +:+ "?q=80&w=1000".

Definition mockUitAgendaRotterdam_data : list EventData :=
  [ mkEventData "rot-1" "Techno Bunker Night" (unsplash "1574391884720-2e45549d7733")
      "Tonight, 23:00" "Perron, Rotterdam" "€15.00" "Clubbing" "uitagenda-rotterdam"
      (Some "Underground techno night featuring local and international DJs. Dark, industrial vibes.");
    mkEventData "rot-2" "Jazz at Bird" (unsplash "1511192336575-5a79af67a629")
      "Tonight, 20:30" "Bird, Rotterdam" "Free" "Live Music" "uitagenda-rotterdam"
      (Some "Intimate jazz session with local musicians. Cozy atmosphere, great cocktails.");
    mkEventData "rot-3" "Theater Rotterdam: Modern Dance" (unsplash "1508700115892-45ecd05ae2ad")
      "Tonight, 20:00" "Theater Rotterdam" "€25.00" "Theater" "uitagenda-rotterdam"
      (Some "Contemporary dance performance exploring urban movement and rhythm.") ].

Definition mockUitAgendaRotterdam : Async (list EventData) :=
  simulateMCPCall (clientOf "uitagenda-rotterdam") mockUitAgendaRotterdam_data.

Definition mockIAmsterdam_data : list EventData :=
  [ mkEventData "ams-1" "Rijksmuseum Late Night" (unsplash "1554907984-15263bfd63bd")
      "Tonight, 19:00 - 22:00" "Museumplein, Amsterdam" "€22.50" "Culture" "mcp-iamsterdam"
      (Some "Extended evening hours at the Rijksmuseum. Special guided tours and live music in the galleries.");
    mkEventData "ams-2" "Canal Light Tour" (unsplash "1588733103629-b77afeaf847d")
      "Starts every 30 mins" "Central Station" "€18.00" "Sightseeing" "mcp-iamsterdam"
      (Some "Evening canal cruise with illuminated bridges and historic commentary. Romantic atmosphere.");
    mkEventData "ams-3" "Van Gogh Museum: Night Viewing" (unsplash "1578301978162-7aae4d755744")
      "Tonight, 19:00 - 21:00" "Museumplein, Amsterdam" "€20.00" "Culture" "mcp-iamsterdam"
      (Some "Special evening viewing with fewer crowds. Audio guide included.") ].

Definition mockIAmsterdam : Async (list EventData) :=
  simulateMCPCall (clientOf "mcp-iamsterdam") mockIAmsterdam_data.

Definition mockCitySecrets_data : list CityWalkData :=
  [ mkCityWalkData "secret-1" "Hidden Speakeasy Walk"
      "Discover Amsterdam's best-kept secret bars and hidden cocktail lounges in the historic Jordaan district."
      "2.5 km" "1.5 hours" "Jordaan District, Amsterdam"
      (mkRoute "Speakeasy Trail"
         [ "Start: Café de Reiger"; "Door 74 (Secret entrance)"; "Hiding in Plain Sight";
           "Tales & Spirits"; "End: Proeflokaal A. van Wees" ])
      (Some Easy) "mcp-city-secrets";
    mkCityWalkData "secret-2" "Rotterdam Street Art Discovery"
      "Explore the vibrant street art scene in Rotterdam's Witte de Withstraat and surrounding areas."
      "3.0 km" "2 hours" "Witte de Withstraat, Rotterdam"
      (mkRoute "Art Walk"
         [ "Start: Witte de Withstraat"; "Mural at WORM"; "Underground Gallery";
           "Hidden Courtyard Art"; "End: TENT Rotterdam" ])
      (Some Moderate) "mcp-city-secrets";
    mkCityWalkData "secret-3" "Romantic Canal Walk"
      "A peaceful evening stroll along Amsterdam's lesser-known canals, away from the crowds."
      "4.0 km" "1.5 hours" "Nine Streets, Amsterdam"
      (mkRoute "Romantic Route"
         [ "Start: Prinsengracht"; "Herengracht"; "Keizersgracht"; "Bloemgracht"; "End: Jordaan" ])
      (Some Easy) "mcp-city-secrets" ].

Definition mockCitySecrets : Async (list CityWalkData) :=
  simulateMCPCall (clientOf "mcp-city-secrets") mockCitySecrets_data.

Definition mockTicketmaster_data : list EventData :=
  [ mkEventData "tm-1" "Indie Rock Night" (unsplash "1470229722913-7c0e2dbbaf53")
      "Tonight, 20:00" "Paradiso, Amsterdam" "€35.00" "Concert" "mcp-ticketmaster"
      (Some "Live indie rock performance featuring emerging artists. Limited tickets available.");
    mkEventData "tm-2" "Electronic Music Festival" (unsplash "1470229722913-7c0e2dbbaf53")
      "Tonight, 22:00" "Maassilo, Rotterdam" "€45.00" "Concert" "mcp-ticketmaster"
      (Some "Major electronic music event with international DJs. Warehouse venue.") ].

(** The [location] argument is accepted and never read. *)
Definition mockTicketmaster (location : string) : Async (list EventData) :=
  simulateMCPCall (clientOf "mcp-ticketmaster") mockTicketmaster_data.

Definition mockWeatherEvents_data : list WeatherEventData :=
  [ mkWeatherEventData "weather-1" "Rotterdam, Netherlands" sun "24°C" "Sunny"
      (Some "10%") (Some "65%") (Some "12 km/h");
    mkWeatherEventData "weather-2" "Amsterdam, Netherlands" rain "15°C" "Light Rain"
      (Some "75%") (Some "85%") (Some "18 km/h");
    mkWeatherEventData "weather-3" "The Hague, Netherlands" wind "18°C" "Windy"
      (Some "20%") (Some "70%") (Some "26 km/h");
    mkWeatherEventData "weather-4" "Utrecht, Netherlands" snow "-2°C" "Snow"
      (Some "90%") (Some "95%") (Some "15 km/h");
    mkWeatherEventData "weather-5" "Eindhoven, Netherlands" clouds "19°C" "Cloudy"
      (Some "40%") (Some "75%") (Some "14 km/h");
    mkWeatherEventData "weather-6" "Groningen, Netherlands" fog "12°C" "Foggy"
      (Some "30%") (Some "90%") (Some "8 km/h");
    mkWeatherEventData "weather-7" "Maastricht, Netherlands" storm "16°C" "Thunderstorm"
      (Some "95%") (Some "88%") (Some "32 km/h");
    mkWeatherEventData "weather-8" "Haarlem, Netherlands" clear "22°C" "Clear"
      (Some "5%") (Some "60%") (Some "10 km/h") ].

Definition mockWeatherEvents : Async (list WeatherEventData) :=
  simulateMCPCall (Some (mkMCPClient "Weather MCP" 500)) mockWeatherEvents_data.

(** The five data sources the server action awaits.  [mocks] is what the
    repository wires in; the record lets a source reject. *)
Record MCP := mkMCP {
  uitAgendaRotterdam : Async (list EventData);
  iAmsterdam : Async (list EventData);
  citySecrets : Async (list CityWalkData);
  ticketmaster : string -> Async (list EventData);
  weatherEvents : Async (list WeatherEventData)
}.

Definition mocks : MCP :=
  mkMCP mockUitAgendaRotterdam mockIAmsterdam mockCitySecrets mockTicketmaster mockWeatherEvents.

(** ** actions.tsx: the server action *)

Inductive Role := user | assistant.

Record ServerMessage := mkServerMessage {
  role : Role;
  content : string
}.

(** [toolParams], an object that starts empty and may receive the keys
    [type], [city] and [location]. *)
Record ToolParams := mkToolParams {
  tp_type : option string;
  tp_city : option string;
  tp_location : option string
}.

Definition noParams : ToolParams := mkToolParams None None None.

Definition set_type (v : string) (p : ToolParams) : ToolParams :=
  mkToolParams (Some v) (tp_city p) (tp_location p).
Definition set_city (v : string) (p : ToolParams) : ToolParams :=
  mkToolParams (tp_type p) (Some v) (tp_location p).
Definition set_location (v : string) (p : ToolParams) : ToolParams :=
  mkToolParams (tp_type p) (tp_city p) (Some v).

(** The first condition of the chain: one of the weather keywords occurs. *)
Definition weatherKeywords : list string :=
  [ "weather"; "rain"; "sun"; "snow"; "wind"; "storm"; "cloud"; "fog"; "clear" ].

Definition secretsKeywords : list string := [ "walk"; "secret"; "hidden" ].

Definition ticketKeywords : list string := [ "concert"; "ticketmaster"; "tickets" ].

Definition mentionsAny (lowerInput : string) (keywords : list string) : bool :=
  existsb (JS.includes lowerInput) keywords.

(** The [if / else if] chain that picks [toolToCall] and fills
    [toolParams], as a function of [lowerInput]. *)
Definition detectTool (lowerInput : string) : string * ToolParams :=
  if JS.includes lowerInput "weather" ||
     JS.includes lowerInput "rain" ||
     JS.includes lowerInput "sun" ||
     JS.includes lowerInput "snow" ||
     JS.includes lowerInput "wind" ||
     JS.includes lowerInput "storm" ||
     JS.includes lowerInput "cloud" ||
     JS.includes lowerInput "fog" ||
     JS.includes lowerInput "clear"
  then ("get_weather_events", noParams)
  else if JS.includes lowerInput "rotterdam" then
    ("get_rotterdam_events",
     if JS.includes lowerInput "concert" || JS.includes lowerInput "music"
     then set_type "music" noParams else noParams)
  else if JS.includes lowerInput "amsterdam" then
    ("get_amsterdam_events",
     if JS.includes lowerInput "museum" || JS.includes lowerInput "culture"
     then set_type "culture" noParams else noParams)
  else if JS.includes lowerInput "walk" ||
          JS.includes lowerInput "secret" ||
          JS.includes lowerInput "hidden"
  then
    let p1 := if JS.includes lowerInput "amsterdam"
              then set_city "amsterdam" noParams else noParams in
    let p2 := if JS.includes lowerInput "rotterdam"
              then set_city "rotterdam" p1 else p1 in
    ("get_city_secrets", p2)
  else if JS.includes lowerInput "concert" ||
          JS.includes lowerInput "ticketmaster" ||
          JS.includes lowerInput "tickets"
  then
    ("get_ticketmaster_events",
     if JS.includes lowerInput "amsterdam" then set_location "Amsterdam" noParams
     else if JS.includes lowerInput "rotterdam" then set_location "Rotterdam" noParams
     else set_location "Amsterdam" noParams)
  else ("default_chat", noParams).

(** The component mounted under the heading of a tool response. *)
Inductive Component :=
| WeatherEventCarouselOf (events : list WeatherEventData)
| EventCarouselOf (events : list EventData)
| WalkListOf (walks : list CityWalkData).

(** [responseUI] *)
Inductive ReactNode :=
| ToolResponse (heading : string) (child : Component)
| HelpResponse
| ErrorResponse.

(** [toolParams.city ? ... : ...]: a key that is absent or holds the empty
    string is falsy. *)
Definition truthyParam (v : option string) : option string :=
  match v with
  | Some s => if JS.truthy s then Some s else None
  | None => None
  end.

(** How JSX prints [{toolParams.location}]: nothing when undefined. *)
Definition renderParam (v : option string) : string := default EmptyString v.

(** The body of the [try] block: the [switch] over [toolToCall]. *)
Definition dispatch (mcp : MCP) (toolToCall : string) (toolParams : ToolParams)
  : Async ReactNode :=
  if String.eqb toolToCall "get_weather_events" then
    await weatherEvents <- weatherEvents mcp;
    ret (ToolResponse "Here are some weather-appropriate activities:"
           (WeatherEventCarouselOf weatherEvents))
  else if String.eqb toolToCall "get_rotterdam_events" then
    await events <- uitAgendaRotterdam mcp;
    ret (ToolResponse "I found some great vibes in Rotterdam for you:"
           (EventCarouselOf events))
  else if String.eqb toolToCall "get_amsterdam_events" then
    await events <- iAmsterdam mcp;
    ret (ToolResponse "Here is what's happening in Amsterdam tonight:"
           (EventCarouselOf events))
  else if String.eqb toolToCall "get_city_secrets" then
    await walks <- citySecrets mcp;
    let filteredWalks :=
      match truthyParam (tp_city toolParams) with
      | Some city =>
          List.filter (fun w => JS.includes (JS.toLowerCase (walk_location w)) city) walks
      | None => walks
      end in
    ret (ToolResponse "Looking for something hidden? Check these out:"
           (WalkListOf filteredWalks))
  else if String.eqb toolToCall "get_ticketmaster_events" then
    await events <- ticketmaster mcp (default "Amsterdam" (truthyParam (tp_location toolParams)));
    ret (ToolResponse
           ("Concert tickets available in " +:+ renderParam (tp_location toolParams) +:+ ":")
           (EventCarouselOf events))
  else ret HelpResponse.

(** The test the city-secrets case applies to a stored location; the
    facts on location filters are stated with it. *)
Definition locatedIn (requested stored : string) : bool :=
  JS.includes (JS.toLowerCase stored) (JS.toLowerCase requested).

Record ClientMessage := mkClientMessage {
  cm_id : Z;
  display : ReactNode
}.

(** What one run of the action leaves behind: the AI state, the MCP
    clients that were called, and the returned message. *)
Record ActionResult := mkActionResult {
  aiState : list ServerMessage;
  called : list string;
  returned : ClientMessage
}.

(** [submitUserMessage(input)], run against the data sources [mcp], from
    the AI state [st], with [now] the reading of [Date.now()]. *)
Definition submitUserMessageWith (mcp : MCP) (now : Z) (st : list ServerMessage)
    (input : string) : ActionResult :=
  let st1 := st ++ [mkServerMessage user input] in
  let lowerInput := JS.toLowerCase input in
  let '(toolToCall, toolParams) := detectTool lowerInput in
  let '(log, responseUI) := tryCatch (dispatch mcp toolToCall toolParams) ErrorResponse in
  let st2 := st1 ++ [mkServerMessage assistant ("Displaying UI for " +:+ toolToCall)] in
  mkActionResult st2 log (mkClientMessage now responseUI).

Definition submitUserMessage : Z -> list ServerMessage -> string -> ActionResult :=
  submitUserMessageWith mocks.

(** ** walk-list.tsx *)

Inductive WalkListView :=
| NoWalksFound (message : string)
| WalkCards (walks : list CityWalkData).

Definition WalkList (walks : list CityWalkData) : WalkListView :=
  if (length walks =? 0)%nat
  then NoWalksFound "No walks found. Try a different search!"
  else WalkCards walks.

(** ** weather-event-card.tsx: the carousel *)

Definition demoEvents : list WeatherEventData :=
  [ mkWeatherEventData "1" "Groningen, Netherlands" fog "12°" "Foggy"
      (Some "30%") (Some "90%") (Some "8 km/h");
    mkWeatherEventData "2" "Rotterdam" wind "14°" "Windy"
      None (Some "65%") (Some "32 km/h");
    mkWeatherEventData "3" "Amsterdam" rain "11°" "Heavy Rain"
      (Some "100%") None (Some "12 km/h") ].

(** Which list the carousel maps over. *)
Inductive DisplaySource := PassedEvents | DemoFallback.

(** [const displayEvents = events.length > 0 ? events : demoEvents] *)
Definition displayEvents (events : list WeatherEventData)
  : DisplaySource * list WeatherEventData :=
  if (0 <? length events)%nat then (PassedEvents, events) else (DemoFallback, demoEvents).

(** [WeatherEventCarousel]: [None] is the [null] of the early return,
    otherwise the source of the cards and the cards, one per event. *)
Definition WeatherEventCarousel (events : list WeatherEventData)
  : option (DisplaySource * list WeatherEventData) :=
  if (length events =? 0)%nat then None
  else Some (displayEvents events).

(** ** event-card.tsx: the favourite toggle

    [localStorage] holds under "cityvibe-favorites" the JSON text of an
    array of ids; [None] is a key that was never written.  The component
    writes with [JSON.stringify] and reads with [JSON.parse], so the
    stored text is kept here as the array it encodes. *)

Definition LocalStorage : Type := option (list string).

(** [JSON.parse(localStorage.getItem("cityvibe-favorites") || "[]")] *)
Definition readFavorites (ls : LocalStorage) : list string := default [] ls.

(** The mount effect: [setIsFavorite(favorites.includes(event.id))]. *)
Definition loadFavorite (event_id : string) (ls : LocalStorage) : bool :=
  JS.array_includes (readFavorites ls) event_id.

(** [handleFavorite], on the component state [isFavorite] and the store. *)
Definition handleFavorite (event_id : string) (isFavorite : bool) (ls : LocalStorage)
  : bool * LocalStorage :=
  let favorites := readFavorites ls in
  if isFavorite then
    let newFavorites := List.filter (fun id => negb (String.eqb id event_id)) favorites in
    (false, Some newFavorites)
  else
    (true, Some (favorites ++ [event_id])).

(** A page with several mounted cards over one [localStorage].  Each card
    keeps its own [isFavorite]; [useState(false)] followed by the mount
    effect is one [Mount] step. *)
Record Card := mkCard {
  card_event : string;
  isFavorite : bool
}.

Record Page := mkPage {
  storage : LocalStorage;
  cards : list Card
}.

Inductive PageAction :=
| Mount (event_id : string)
| ClickFavorite (card : nat).

Definition initialPage : Page := mkPage None [].

Definition pageStep (p : Page) (a : PageAction) : Page :=
  match a with
  | Mount event_id =>
      mkPage (storage p) (cards p ++ [mkCard event_id (loadFavorite event_id (storage p))])
  | ClickFavorite i =>
      match cards p !! i with
      | Some c =>
          let '(fav, ls) := handleFavorite (card_event c) (isFavorite c) (storage p) in
          mkPage ls (<[i := mkCard (card_event c) fav]> (cards p))
      | None => p
      end
  end.

Definition runPage (p : Page) (actions : list PageAction) : Page :=
  fold_left pageStep actions p.

(** ** Scenarios used by the facts below *)

(** What a run of the action leaves behind when it picked [tool], called
    the clients [log] and shows [node]: the AI state with the user
    message and the assistant note appended, and the message with the
    clock reading as id. *)
Definition resultOf (now : Z) (st : list ServerMessage) (input tool : string)
    (log : list string) (node : ReactNode) : ActionResult :=
  mkActionResult
    (st ++ [ mkServerMessage user input;
             mkServerMessage assistant ("Displaying UI for " +:+ tool) ])
    log (mkClientMessage now node).

(** The repository's sources, with Ticketmaster throwing on every call. *)
Definition ticketmasterDown : MCP :=
  mkMCP mockUitAgendaRotterdam mockIAmsterdam mockCitySecrets
        (fun _ => (["Ticketmaster"], Rejected)) mockWeatherEvents.

End Web.

(* ===================================================================== *)
(** * The chat page and its dialogs (apps/web)                         *)
(* ===================================================================== *)

Module Chat.
Import Web.

(** ** page.tsx: the chat page

    The page keeps the UI state [messages] and its own component state;
    the server action keeps the AI state.  A message id is the decimal
    text of a reading of [Date.now()]. *)

(** What a message of the UI state displays: the bubble the page builds
    around the user's text, or the node the server action returned. *)
Inductive Display :=
| UserBubble (content : string)
| ServerNode (node : ReactNode).

Record UIMessage := mkUIMessage {
  ui_id : string;
  ui_role : Role;
  ui_content : option string;
  ui_display : Display
}.

(** toast.tsx, [Toast] *)
Inductive ToastType := ToastSuccess | ToastInfo | ToastError.

Record Toast := mkToast {
  toast_id : string;
  toast_message : string;
  toast_type : option ToastType;
  toast_duration : option Z
}.

(** The component state of [CityVibePage] that the handlers below read
    or write. *)
Record ChatPage := mkChatPage {
  inputValue : string;
  messages : list UIMessage;
  isLoading : bool;
  toasts : list Toast;
  activeFilters : list string;
  currentSessionId : option string
}.

(** [showToast(message, type = "success")], as the update of [toasts]. *)
Definition showToast (now : Z) (message : string) (type : option ToastType)
    (prev : list Toast) : list Toast :=
  prev ++ [mkToast (JS.numberToString now) message (Some (default ToastSuccess type)) None].

(** [removeToast(id)] *)
Definition removeToast (id : string) (prev : list Toast) : list Toast :=
  List.filter (fun t => negb (String.eqb (toast_id t) id)) prev.


(** [handleSendMessage(content)] up to its [await]: the page after
    [setIsLoading(true)], [setInputValue("")] and the [setMessages] that
    appends the user message; [clientNow] is the clock reading taken for
    the id of that message. *)
Definition sendStart (clientNow : Z) (content : string) (p : ChatPage) : ChatPage :=
  let messageId := JS.numberToString clientNow in
  let userMessage := mkUIMessage messageId user (Some content) (UserBubble content) in
  mkChatPage EmptyString (messages p ++ [userMessage]) true
    (toasts p) (activeFilters p) (currentSessionId p).

(** [handleSendMessage(content)] from the point where the awaited server
    action has returned [response]: the [setMessages] that appends the
    answer to the messages of that moment, and [setIsLoading(false)]. *)
Definition sendFinish (response : ClientMessage) (p : ChatPage) : ChatPage :=
  let assistantMessage :=
    mkUIMessage (JS.numberToString (cm_id response)) assistant None
      (ServerNode (display response)) in
  mkChatPage (inputValue p) (messages p ++ [assistantMessage]) false
    (toasts p) (activeFilters p) (currentSessionId p).

(** [handleSendMessage(content)], run to its end with no other handler
    running before the server action has answered: [clientNow] is the
    clock reading the page takes for the user message, [serverNow] the
    one the server action takes for its answer.  Sends that overlap are
    runs of [pageEvent] below. *)
Definition handleSendMessage (mcp : MCP) (clientNow serverNow : Z) (content : string)
    (w : ChatPage * list ServerMessage) : ChatPage * list ServerMessage :=
  if negb (JS.truthy (JS.trim content)) then w
  else
    let started := sendStart clientNow content (fst w) in
    let r := submitUserMessageWith mcp serverNow (snd w) content in
    (sendFinish (returned r) started, aiState r).

(** The two moments at which a send touches the page: the call of
    [handleSendMessage], and the return of the server action it awaits.
    The input field is disabled while a send is running, the
    quick-filter buttons are not, so a second send can start before the
    first is answered. *)
Inductive SendEvent :=
| Started (clientNow : Z) (content : string)
| Answered (response : ClientMessage).

Definition pageEvent (p : ChatPage) (e : SendEvent) : ChatPage :=
  match e with
  | Started clientNow content =>
      if negb (JS.truthy (JS.trim content)) then p else sendStart clientNow content p
  | Answered response => sendFinish response p
  end.

(** The title the page gives a session: the content of the first user
    message, cut after 50 UTF-16 code units. *)
Definition sessionTitle (messages : list UIMessage) : string :=
  match List.find (fun m => match ui_role m with user => true | assistant => false end)
          messages with
  | Some firstUserMessage =>
      let title :=
        match ui_content firstUserMessage with
        | Some c => if JS.truthy c then c else "New Chat"
        | None => "New Chat"
        end in
      if (50 <? JS.length title)%nat then JS.substring0 50 title +:+ "..."
      else title
  | None => "New Chat"
  end.

(** [ChatSession] of lib/storage, with the fields the page fills in;
    [session_timestamp] is [None] where [parseInt] gave [NaN]. *)
Record ChatSession := mkChatSession {
  session_id : string;
  session_title : string;
  session_timestamp : option Z;
  session_messages : list UIMessage
}.

(** The calls the page makes into lib/storage, which is not among the
    sources at hand: a handler returns the calls it made, in order. *)
Inductive StorageCall :=
| SaveChatSession (session : ChatSession)
| SetCurrentSession (session : option ChatSession).

(** The effect that runs when [messages] or [currentSessionId] changed:
    the page after [setCurrentSessionId], and the call made. *)
Definition saveSessionEffect (now : Z) (p : ChatPage) : ChatPage * list StorageCall :=
  if (0 <? length (messages p))%nat then
    let sessionId :=
      match currentSessionId p with
      | Some id => if JS.truthy id then id else JS.numberToString now
      | None => JS.numberToString now
      end in
    (mkChatPage (inputValue p) (messages p) (isLoading p) (toasts p) (activeFilters p)
       (Some sessionId),
     [SetCurrentSession
        (Some (mkChatSession sessionId (sessionTitle (messages p)) (JS.parseInt sessionId)
                 (messages p)))])
  else (p, []).

(** The block that opens [handleClearChat], [handleLoadSession] and
    [handleNewChat]: save the running session, if there is one. *)
Definition saveRunningSession (p : ChatPage) : list StorageCall :=
  match currentSessionId p with
  | Some id =>
      if (0 <? length (messages p))%nat && JS.truthy id
      then [SaveChatSession
              (mkChatSession id (sessionTitle (messages p)) (JS.parseInt id) (messages p))]
      else []
  | None => []
  end.

(** [handleClearChat] *)
Definition handleClearChat (now : Z) (p : ChatPage) : ChatPage * list StorageCall :=
  (mkChatPage (inputValue p) [] (isLoading p)
     (showToast now "Chat cleared" (Some ToastInfo) (toasts p)) [] None,
   saveRunningSession p ++ [SetCurrentSession None]).

(** [handleLoadSession(session)] *)
Definition handleLoadSession (now : Z) (session : ChatSession) (p : ChatPage)
  : ChatPage * list StorageCall :=
  (mkChatPage (inputValue p) (session_messages session) (isLoading p)
     (showToast now "Chat session loaded" (Some ToastSuccess) (toasts p))
     (activeFilters p) (Some (session_id session)),
   saveRunningSession p ++ [SetCurrentSession (Some session)]).

(** [handleNewChat] *)
Definition handleNewChat (now : Z) (p : ChatPage) : ChatPage * list StorageCall :=
  (mkChatPage (inputValue p) [] (isLoading p)
     (showToast now "New chat started" (Some ToastInfo) (toasts p)) [] None,
   saveRunningSession p ++ [SetCurrentSession None]).

(** ** page.tsx: suggestions and quick filters *)

Record Shortcut := mkShortcut {
  label : string;
  query : string
}.

Definition suggestions : list Shortcut :=
  [ mkShortcut "Techno in Rotterdam?" "What's happening in Rotterdam tonight?";
    mkShortcut "Art in Amsterdam" "Show me culture in Amsterdam";
    mkShortcut "Hidden Gems" "Show me walks in Amsterdam";
    mkShortcut "Concerts Tonight" "Concerts in Amsterdam" ].

Definition quickFilters : list Shortcut :=
  [ mkShortcut "Free" "free events";
    mkShortcut "Tonight" "events tonight";
    mkShortcut "Music" "music events";
    mkShortcut "Culture" "culture events";
    mkShortcut "Food" "food events" ].

(** A suggestion button sends [s.query || s.label]. *)
Definition suggestionText (s : Shortcut) : string :=
  if JS.truthy (query s) then query s else label s.

(** The update a quick-filter button applies to [activeFilters]. *)
Definition toggleFilter (filterLabel : string) (prev : list string) : list string :=
  if JS.array_includes prev filterLabel
  then List.filter (fun f => negb (String.eqb f filterLabel)) prev
  else prev ++ [filterLabel].

(** The [onClick] of a quick-filter button. *)
Definition clickQuickFilter (mcp : MCP) (clientNow serverNow : Z) (f : Shortcut)
    (w : ChatPage * list ServerMessage) : ChatPage * list ServerMessage :=
  let w' := handleSendMessage mcp clientNow serverNow (query f) w in
  (mkChatPage (inputValue (fst w')) (messages (fst w')) (isLoading (fst w'))
     (toasts (fst w'))
     (toggleFilter (label f) (activeFilters (fst w')))
     (currentSessionId (fst w')),
   snd w').

(** ** preferences-dialog.tsx *)

Record Notifications := mkNotifications {
  enabled : bool;
  email : bool;
  push : bool
}.

(** [Preferences] of lib/storage, with the fields the dialog reads. *)
Record Preferences := mkPreferences {
  defaultCity : string;
  favoriteCategories : list string;
  notifications : Notifications
}.

(** [toggleCategory(category)], as the update of [prefs]. *)
Definition toggleCategory (category : string) (prev : Preferences) : Preferences :=
  mkPreferences (defaultCity prev)
    (if JS.array_includes (favoriteCategories prev) category
     then List.filter (fun c => negb (String.eqb c category)) (favoriteCategories prev)
     else favoriteCategories prev ++ [category])
    (notifications prev).

(** ** login-dialog.tsx *)



(** ** chat-sidebar.tsx and chat-history.tsx: [formatDate]

    The branch [formatDate] takes and what it prints there; the wording
    of a time of day or of a calendar date is left to the locale. *)
Inductive DateLabel :=
| TodayAt (date : Z)
| YesterdayAt (date : Z)
| DaysAgo (days : Z)
| OnDate (date : option Z).

(** [formatDate(timestamp)] at the clock reading [now]; a timestamp that
    is [NaN] fails every comparison and reaches the last branch. *)
Definition formatDate (now : Z) (timestamp : option Z) : DateLabel :=
  match timestamp with
  | Some date =>
      let diff := now - date in
      let days := diff / (1000 * 60 * 60 * 24) in
      if days =? 0 then TodayAt date
      else if days =? 1 then YesterdayAt date
      else if days <? 7 then DaysAgo days
      else OnDate (Some date)
  | None => OnDate None
  end.

(** ** Notions used by the facts below *)

(** One call of [handleSendMessage]: the two clock readings and the text. *)
Record Send := mkSend {
  send_client : Z;
  send_server : Z;
  send_content : string
}.

Definition sendAll (mcp : MCP) (sends : list Send) (w : ChatPage * list ServerMessage)
  : ChatPage * list ServerMessage :=
  fold_left (fun w s => handleSendMessage mcp (send_client s) (send_server s) (send_content s) w)
    sends w.

(** What a send that is not blank adds to the UI state and to the AI state. *)
Definition uiOf (mcp : MCP) (s : Send) : list UIMessage :=
  [ mkUIMessage (JS.numberToString (send_client s)) user (Some (send_content s))
      (UserBubble (send_content s));
    mkUIMessage (JS.numberToString (send_server s)) assistant None
      (ServerNode (display (returned (submitUserMessageWith mcp 0 [] (send_content s))))) ].

Definition aiOf (s : Send) : list ServerMessage :=
  [ mkServerMessage user (send_content s);
    mkServerMessage assistant
      ("Displaying UI for " +:+ fst (detectTool (JS.toLowerCase (send_content s)))) ].

Definition heard (sends : list Send) : list Send :=
  List.filter (fun s => negb (JS.blank (send_content s))) sends.

(** The entry a send event adds to the messages of the page. *)
Definition entryOf (e : SendEvent) : list UIMessage :=
  match e with
  | Started clientNow content =>
      if JS.blank content then []
      else [ mkUIMessage (JS.numberToString clientNow) user (Some content)
               (UserBubble content) ]
  | Answered response =>
      [ mkUIMessage (JS.numberToString (cm_id response)) assistant None
          (ServerNode (display response)) ]
  end.

(** The first text that was sent and is not blank. *)
Definition firstText (events : list SendEvent) : option string :=
  head (omap (fun e => match e with
                       | Started _ content =>
                           if JS.blank content then None else Some content
                       | Answered _ => None
                       end) events).

(** Every mounted card shows what the store holds for its event. *)
Definition in_sync (p : Page) : Prop :=
  List.Forall (fun c => isFavorite c = loadFavorite (card_event c) (storage p)) (cards p).

(** The actions mount no event that is already shown. *)
Fixpoint mounts_once (shown : list string) (actions : list PageAction) : Prop :=
  match actions with
  | [] => True
  | Mount e :: rest => ~ In e shown /\ mounts_once (shown ++ [e]) rest
  | ClickFavorite _ :: rest => mounts_once shown rest
  end.

End Chat.

(* ===================================================================== *)
(** * The reconciliation core                                            *)
(* ===================================================================== *)

(** The packages [cityvibe-etl] and [mcp-server] are described by the
    specification and the architecture notes; their code is not among the
    sources.  Every definition of this module is therefore modelled from
    the specification, section by section.  Values the specification
    leaves to configuration are fields of [Config]; [default_config]
    takes the values it gives as examples. *)

Module Core.

(** ** Text helpers of the Normalizer and the Signature Hasher *)

(** Modelled from the spec: the Normalizer (cityvibe-etl), not in the
    sources; "trim and collapse whitespace in text fields" (4.1). *)
Definition collapse (s : string) : string :=
  String.concat " " (String.words s).

(** Modelled from the spec: the Signature Hasher (cityvibe-etl), not in
    the sources; the ASCII punctuation marks that "punctuation stripped"
    (4.3) removes. *)
Definition is_punctuation (c : ascii) : bool :=
  let n := nat_of_ascii c in
  ((33 <=? n) && (n <=? 47) || (58 <=? n) && (n <=? 64) ||
   (91 <=? n) && (n <=? 96) || (123 <=? n) && (n <=? 126))%nat.

(** Modelled from the spec: the Signature Hasher (cityvibe-etl), not in
    the sources; "punctuation stripped" (4.3). *)
Fixpoint strip_punctuation (s : string) : string :=
  match s with
  | EmptyString => EmptyString
  | String c s' =>
      if is_punctuation c then strip_punctuation s' else String c (strip_punctuation s')
  end.

(** Modelled from the spec: the Signature Hasher (cityvibe-etl), not in
    the sources; the fuzzy key material, a "normalized title string
    (lowercase, punctuation stripped, stopwords removed)" (4.3). *)
Definition fuzzy_title (stopwords : list string) (title : string) : string :=
  String.concat " "
    (List.filter (fun w => negb (JS.array_includes stopwords w))
       (String.words (strip_punctuation (JS.toLowerCase title)))).

(** Modelled from the spec: the Deduplicator
    (cityvibe-etl/deduplicator.py), not in the sources; one row of the
    edit-distance table of the fuzzy match (4.4), computed from the row
    above it. *)
Fixpoint lev_row (c : ascii) (t : list ascii) (diag : nat) (above : list nat) (left : nat)
  : list nat :=
  match t, above with
  | tj :: t', up :: above' =>
      let cost := if Ascii.eqb c tj then 0%nat else 1%nat in
      let v := Nat.min (Nat.min (up + 1) (left + 1)) (diag + cost) in
      v :: lev_row c t' up above' v
  | _, _ => []
  end.

(** Modelled from the spec: the Deduplicator
    (cityvibe-etl/deduplicator.py), not in the sources; the next row of
    the edit-distance table, for one more character of the first string.
    *)
Definition lev_next (t : list ascii) (row : list nat) (c : ascii) : list nat :=
  match row with
  | d :: above => (d + 1)%nat :: lev_row c t d above (d + 1)
  | [] => []
  end.

(** Modelled from the spec: the Deduplicator
    (cityvibe-etl/deduplicator.py), not in the sources; the string edit
    distance of the fuzzy match (4.4, "e.g. Levenshtein"). *)
Definition levenshtein (s t : string) : nat :=
  let t' := String.list_ascii_of_string t in
  List.last (fold_left (lev_next t') (String.list_ascii_of_string s) (seq 0 (S (length t')))) 0%nat.

(** Modelled from the spec: the Deduplicator
    (cityvibe-etl/deduplicator.py), not in the sources; the "normalized
    string-edit-distance similarity between titles (e.g. Levenshtein
    ratio)" (4.4): one minus the distance over the longer length. *)
Definition similarity (s t : string) : Q :=
  let m := Nat.max (String.length s) (String.length t) in
  match m with
  | O => 1%Q
  | S _ => (Z.of_nat (m - levenshtein s t) # Pos.of_nat m)%Q
  end.

(** ** Parsing numbers and instants *)

(** Modelled from the spec: the Normalizer (cityvibe-etl), not in the
    sources; a decimal digit, for the numeric fields it coerces (4.1). *)
Definition is_digit (c : ascii) : bool :=
  match Ascii.is_nat c with Some _ => true | None => false end.

(** Modelled from the spec: the Normalizer (cityvibe-etl), not in the
    sources; a run of decimal digits. *)
Fixpoint all_digits (s : string) : bool :=
  match s with
  | EmptyString => true
  | String c s' => is_digit c && all_digits s'
  end.

(** Modelled from the spec: the Normalizer (cityvibe-etl), not in the
    sources; the leading digits of a numeral and what follows them. *)
Fixpoint parse_digits (s : string) (acc : Z) : Z * string :=
  match s with
  | EmptyString => (acc, EmptyString)
  | String c s' =>
      match Ascii.is_nat c with
      | Some d => parse_digits s' (acc * 10 + Z.of_nat d)
      | None => (acc, s)
      end
  end.

(** Modelled from the spec: the Normalizer (cityvibe-etl), not in the
    sources; the fraction digits of a numeral, cut or padded to [scale]
    places. *)
Fixpoint parse_fraction (scale : nat) (s : string) (acc : Z) : option Z :=
  match scale with
  | O => if all_digits s then Some acc else None
  | S k =>
      match s with
      | EmptyString => parse_fraction k EmptyString (acc * 10)
      | String c s' =>
          match Ascii.is_nat c with
          | Some d => parse_fraction k s' (acc * 10 + Z.of_nat d)
          | None => None
          end
      end
  end.

(** Modelled from the spec: the Normalizer (cityvibe-etl), not in the
    sources; an unsigned decimal numeral. *)
Definition parse_unsigned (scale : nat) (s : string) : option Z :=
  match s with
  | EmptyString => None
  | String c _ =>
      if is_digit c then
        let '(whole, rest) := parse_digits s 0 in
        match rest with
        | EmptyString => parse_fraction scale EmptyString whole
        | String "."%char frac => parse_fraction scale frac whole
        | _ => None
        end
      else None
  end.

(** Modelled from the spec: the Normalizer (cityvibe-etl), not in the
    sources; a decimal numeral read as an integer number of units of
    [10^-scale], for the decimal columns of the event: [parse_decimal 2
    "0.85" = Some 85]. *)
Definition parse_decimal (scale : nat) (s : string) : option Z :=
  match s with
  | String "-"%char body => Z.opp <$> parse_unsigned scale body
  | _ => parse_unsigned scale s
  end.

(** Modelled from the spec: the Normalizer (cityvibe-etl), not in the
    sources; exactly [n] digits at the head of a timestamp. *)
Fixpoint take_number (n : nat) (s : string) (acc : Z) : option (Z * string) :=
  match n with
  | O => Some (acc, s)
  | S k =>
      match s with
      | String c s' =>
          match Ascii.is_nat c with
          | Some d => take_number k s' (acc * 10 + Z.of_nat d)
          | None => None
          end
      | EmptyString => None
      end
  end.

(** Modelled from the spec: the Normalizer (cityvibe-etl), not in the
    sources; one expected separator of a timestamp. *)
Definition expect (c : ascii) (s : string) : option string :=
  match s with
  | String c' s' => if Ascii.eqb c c' then Some s' else None
  | EmptyString => None
  end.

(** Modelled from the spec: the Normalizer (cityvibe-etl), not in the
    sources; days from 1970-01-01 to a date of the proleptic Gregorian
    calendar, for "timezone-aware instants" (4.1). *)
Definition days_from_civil (y m d : Z) : Z :=
  let y' := if m <=? 2 then y - 1 else y in
  let era := y' / 400 in
  let yoe := y' - era * 400 in
  let mp := (m + 9) mod 12 in
  let doy := (153 * mp + 2) / 5 + d - 1 in
  let doe := yoe * 365 + yoe / 4 - yoe / 100 + doy in
  era * 146097 + doe - 719468.

(** Modelled from the spec: a "timezone-aware instant" (3), held as the
    number of seconds since 1970-01-01T00:00:00Z. *)
Abbreviation Instant := Z.

(** Modelled from the spec: the Normalizer (cityvibe-etl), not in the
    sources; the time parser of [default_config]. It reads UTC timestamps
    of the form YYYY-MM-DDTHH:MMZ or YYYY-MM-DDTHH:MM:SSZ, the form of the
    example scenario (8); anything else is unparsable. *)
Definition parse_utc (s : string) : option Instant :=
  '(y, s) ← take_number 4 s 0;
  s ← expect "-" s;
  '(mo, s) ← take_number 2 s 0;
  s ← expect "-" s;
  '(d, s) ← take_number 2 s 0;
  s ← expect "T" s;
  '(h, s) ← take_number 2 s 0;
  s ← expect ":" s;
  '(mi, s) ← take_number 2 s 0;
  '(sec, s) ← match expect ":" s with
               | Some s' => take_number 2 s' 0
               | None => Some (0, s)
               end;
  s ← expect "Z" s;
  if String.eqb s EmptyString &&
     (1 <=? mo) && (mo <=? 12) && (1 <=? d) && (d <=? 31) &&
     (h <=? 23) && (mi <=? 59) && (sec <=? 59)
  then Some (((days_from_civil y mo d * 24 + h) * 60 + mi) * 60 + sec)
  else None.

(** ** Data model (section 3) *)

(** Modelled from the spec: the Event Store (cityvibe-core), not in the
    sources; "event type (enum: concert, theater, museum, other)" (3). *)
Inductive EventType := concert | theater | museum | other.

(** Modelled from the spec: the Event Store (cityvibe-core), not in the
    sources; the "opaque unique id" of an event (3), a sequence number
    here. *)
Abbreviation EventId := N.

(** Modelled from the spec: the Signature Hasher (cityvibe-etl), not in
    the sources; the value of a signature hash. *)
Abbreviation Hash := N.

(** Modelled from the spec: the records a source adapter yields, not in
    the sources; "RawRecord: an untyped key→value map ... may be missing
    any field" (3). *)
Abbreviation RawRecord := (gmap string string).

(** Modelled from the spec: the Event Store (cityvibe-core), not in the
    sources; the scalar fields of a CanonicalEvent (3): provenance,
    descriptive, temporal, spatial, commercial and quality groups. Decimal
    columns are integers in the unit of the column: confidence and prices
    in hundredths, coordinates in 10^-8 degrees. *)
Record Scalars := mkScalars {
  source : string;
  source_id : option string;
  source_url : option string;
  title : string;
  description : option string;
  event_type : EventType;
  start_time : Instant;
  end_time : option Instant;
  recurrence : option string;
  venue_id : option string;
  location_name : option string;
  address : option string;
  latitude : option Z;
  longitude : option Z;
  price_min : option Z;
  price_max : option Z;
  currency : string;
  ticket_url : option string;
  confidence : Z;
  verified : bool
}.

(** Modelled from the spec: the Normalizer (cityvibe-etl), not in the
    sources; the "partially-filled CanonicalEvent draft" it hands on
    (4.1). *)
Record Draft := mkDraft {
  d_fields : Scalars;
  d_tags : gset string;
  d_raw : RawRecord
}.

(** Modelled from the spec: the Event Store (cityvibe-core), not in the
    sources; CanonicalEvent, "the unit of truth" (3). *)
Record Event := mkEvent {
  ev_id : EventId;
  fields : Scalars;
  tags : gset string;
  raw_history : list RawRecord;
  created_at : Instant;
  updated_at : Instant;
  expires_at : option Instant;
  embedding : option (list Z)
}.

(** Modelled from the spec: the Event Store (cityvibe-core), not in the
    sources; the canonical record set with its DedupeSignature rows,
    "(event id, signature hash) pairs" (3), and the next free event id. *)
Record Store := mkStore {
  events : list Event;
  signatures : list (EventId * Hash);
  next_id : EventId
}.

(** Modelled from the spec: the Event Store (cityvibe-core), not in the
    sources; the store before any batch. *)
Definition empty_store : Store := mkStore [] [] 0%N.

(** Modelled from the spec: the configuration of cityvibe-etl, not in the
    sources; the "named tunables" (9) and the source-dependent parsers and
    tables of the pipeline. *)
Record Config := mkConfig {
  parse_time : string -> string -> option Instant;
  parse_price : string -> option (option Z * option Z * option string);
  category_table : string -> list (string * EventType);
  default_currency : string;
  default_confidence : Z;
  stopwords : list string;
  past_horizon : Z;
  future_horizon : Z;
  title_max_length : nat;
  fuzzy_threshold : Q;
  fuzzy_window : Z;
  geo_radius : Z;
  geo_distance : Z * Z -> Z * Z -> Z;
  history_bound : nat;
  hash : string * Z * string -> Hash
}.

(** ** 4.1 Normalizer *)

(** Modelled from the spec: the Normalizer (cityvibe-etl), not in the
    sources; "NormalizationError when title is empty or start time is
    unparsable" (4.1). *)
Inductive NormalizationError := EmptyTitle | UnparsableStart.

(** Modelled from the spec: the Normalizer (cityvibe-etl), not in the
    sources; its output, "a partially-filled CanonicalEvent draft, or a
    normalization failure" (4.1). *)
Inductive Normalized :=
| NormOk (d : Draft)
| NormError (e : NormalizationError).

(** Modelled from the spec: the Normalizer (cityvibe-etl), not in the
    sources; a text field of the raw record, trimmed and collapsed (4.1);
    blank counts as absent. *)
Definition text_field (raw : RawRecord) (key : string) : option string :=
  match raw !! key with
  | Some v => let v' := collapse v in if String.eqb v' EmptyString then None else Some v'
  | None => None
  end.

(** Modelled from the spec: the Normalizer (cityvibe-etl), not in the
    sources; "map source-specific category vocabulary to the fixed
    event-type enum via a per-source lookup table (unmapped values fall to
    other)" (4.1). *)
Definition lookup_category (table : list (string * EventType)) (word : string) : EventType :=
  match List.find (fun p => String.eqb (fst p) word) table with
  | Some p => snd p
  | None => other
  end.

(** Modelled from the spec: the Normalizer (cityvibe-etl), not in the
    sources; the entries of a comma-separated tag list. *)
Fixpoint split_commas (s : string) (cur : string) : list string :=
  match s with
  | EmptyString => [String.rev cur]
  | String c s' =>
      if Ascii.eqb c ","%char then String.rev cur :: split_commas s' EmptyString
      else split_commas s' (String c cur)
  end.

(** Modelled from the spec: the Normalizer (cityvibe-etl), not in the
    sources; "tags (set of strings, order-insensitive)" (3) from the raw
    key tags. *)
Definition parse_tags (raw : RawRecord) : gset string :=
  match raw !! "tags" with
  | Some v =>
      list_to_set
        (List.filter (fun t => negb (String.eqb t EmptyString))
           (List.map (fun t => JS.toLowerCase (collapse t)) (split_commas v EmptyString)))
  | None => ∅
  end.

(** Modelled from the spec: the Normalizer (cityvibe-etl), not in the
    sources. It "fails with NormalizationError when title is empty or
    start time is unparsable — these are the only two fields required to
    proceed" (4.1). The raw keys title, start and venue are those of the
    example scenario (8); the other keys are named after the field they
    fill. *)
Definition normalize (cfg : Config) (src : string) (raw : RawRecord) : Normalized :=
  match text_field raw "title" with
  | None => NormError EmptyTitle
  | Some ttl =>
      match raw !! "start" ≫= parse_time cfg src with
      | None => NormError UnparsableStart
      | Some start =>
          let price := raw !! "price" ≫= parse_price cfg in
          let sc :=
            {| source := src;
               source_id := text_field raw "id";
               source_url := text_field raw "url";
               title := ttl;
               description := text_field raw "description";
               event_type :=
                 match text_field raw "category" with
                 | Some c => lookup_category (category_table cfg src) (JS.toLowerCase c)
                 | None => other
                 end;
               start_time := start;
               end_time := raw !! "end" ≫= parse_time cfg src;
               recurrence := text_field raw "recurrence";
               venue_id := text_field raw "venue";
               location_name := text_field raw "location";
               address := text_field raw "address";
               latitude := raw !! "latitude" ≫= parse_decimal 8;
               longitude := raw !! "longitude" ≫= parse_decimal 8;
               price_min := price ≫= (fun p => fst (fst p));
               price_max := price ≫= (fun p => snd (fst p));
               currency := default (default_currency cfg) (price ≫= snd);
               ticket_url := text_field raw "ticket_url";
               confidence :=
                 default (default_confidence cfg) (raw !! "confidence" ≫= parse_decimal 2);
               verified := false |} in
          NormOk (mkDraft sc (parse_tags raw) raw)
      end
  end.

(** ** 4.2 Validator *)

(** Modelled from the spec: the Validator (cityvibe-etl/validator.py), not
    in the sources; one constructor for each rule of 4.2. *)
Inductive Violation :=
| StartTooOld
| StartTooFarAhead
| EndBeforeStart
| CoordinatesIncomplete
| CoordinatesOutOfRange
| PriceRangeInverted
| TitleLength.

(** Modelled from the spec: the Validator (cityvibe-etl/validator.py), not
    in the sources; the violation a failed rule reports. *)
Definition check (ok : bool) (v : Violation) : list Violation :=
  if ok then [] else [v].

(** Modelled from the spec: the Validator (cityvibe-etl/validator.py), not
    in the sources; "accept, or a list of violations" (4.2). *)
Definition validate (cfg : Config) (now : Instant) (d : Draft) : list Violation :=
  let f := d_fields d in
  check (now - past_horizon cfg <=? start_time f) StartTooOld ++
  check (start_time f <=? now + future_horizon cfg) StartTooFarAhead ++
  check (match end_time f with Some e => start_time f <=? e | None => true end)
        EndBeforeStart ++
  check (match latitude f, longitude f with
         | Some _, Some _ | None, None => true
         | _, _ => false
         end) CoordinatesIncomplete ++
  check (match latitude f with
         | Some la => (-9000000000 <=? la) && (la <=? 9000000000)
         | None => true
         end &&
         match longitude f with
         | Some lo => (-18000000000 <=? lo) && (lo <=? 18000000000)
         | None => true
         end) CoordinatesOutOfRange ++
  check (match price_min f, price_max f with
         | Some lo, Some hi => lo <=? hi
         | _, _ => true
         end) PriceRangeInverted ++
  check ((1 <=? String.length (title f))%nat &&
         (String.length (title f) <=? title_max_length cfg)%nat) TitleLength.

(** ** 4.3 Signature Hasher *)

(** Modelled from the spec: the Signature Hasher (cityvibe-etl), not in
    the sources; what the exact key hashes, "(normalized lowercase title,
    start time truncated to the minute, venue id or normalized location
    name)" (4.3). *)
Definition exact_key_material (f : Scalars) : string * Z * string :=
  (JS.toLowerCase (title f),
   start_time f / 60,
   match venue_id f with
   | Some v => v
   | None => JS.toLowerCase (default EmptyString (location_name f))
   end).

(** Modelled from the spec: the Signature Hasher (cityvibe-etl), not in
    the sources; the exact key, "a deterministic hash" of that material
    (4.3). *)
Definition exact_key (cfg : Config) (d : Draft) : Hash :=
  hash cfg (exact_key_material (d_fields d)).

(** ** 4.4 Deduplicator *)

(** Modelled from the spec: the Deduplicator
    (cityvibe-etl/deduplicator.py), not in the sources; the event a
    signature hash is attached to, the first such row of the table. *)
Definition find_signature (sigs : list (EventId * Hash)) (k : Hash) : option EventId :=
  fst <$> List.find (fun p => N.eqb (snd p) k) sigs.

(** Modelled from the spec: the Deduplicator
    (cityvibe-etl/deduplicator.py), not in the sources; step 1, "look up
    the exact key among existing signatures ... globally" (4.4). *)
Definition match_exact (S : Store) (k : Hash) : option EventId :=
  find_signature (signatures S) k.

(** Modelled from the spec: the Deduplicator
    (cityvibe-etl/deduplicator.py), not in the sources; whether any
    location is present for an event (4.4). *)
Definition has_location (f : Scalars) : bool :=
  match venue_id f, location_name f, latitude f, longitude f with
  | None, None, None, None => false
  | _, _, _, _ => true
  end.

(** Modelled from the spec: the Deduplicator
    (cityvibe-etl/deduplicator.py), not in the sources; latitude and
    longitude when both are present (3). *)
Definition coordinates (f : Scalars) : option (Z * Z) :=
  match latitude f, longitude f with
  | Some la, Some lo => Some (la, lo)
  | _, _ => None
  end.

(** Modelled from the spec: the Deduplicator
    (cityvibe-etl/deduplicator.py), not in the sources; "location overlap
    (same venue id, or geographic distance below a small radius, e.g. 200
    m, or no location present for either)" (4.4). *)
Definition location_overlap (cfg : Config) (a b : Scalars) : bool :=
  match venue_id a, venue_id b with
  | Some x, Some y => String.eqb x y
  | _, _ => false
  end ||
  match coordinates a, coordinates b with
  | Some p, Some q => geo_distance cfg p q <? geo_radius cfg
  | _, _ => false
  end ||
  negb (has_location a) && negb (has_location b).

(** Modelled from the spec: the Deduplicator
    (cityvibe-etl/deduplicator.py), not in the sources; the similarity of
    a stored event to a draft when the event is a fuzzy candidate for it:
    start within the tolerance window, titles similar enough, locations
    overlapping (4.4). *)
Definition fuzzy_score (cfg : Config) (d : Scalars) (e : Event) : option Q :=
  if (Z.abs (start_time (fields e) - start_time d) <=? fuzzy_window cfg) &&
     location_overlap cfg (fields e) d
  then
    let s := similarity (fuzzy_title (stopwords cfg) (title (fields e)))
                        (fuzzy_title (stopwords cfg) (title d)) in
    if Qle_bool (fuzzy_threshold cfg) s then Some s else None
  else None.

(** Modelled from the spec: the Deduplicator
    (cityvibe-etl/deduplicator.py), not in the sources; "highest
    similarity; ties broken by most-recently-updated" (4.4); among equals
    the event found first is kept. *)
Definition better (s : Q) (e : Event) (s0 : Q) (e0 : Event) : bool :=
  negb (Qle_bool s s0) || (Qle_bool s0 s && (updated_at e0 <? updated_at e)).

(** Modelled from the spec: the Deduplicator
    (cityvibe-etl/deduplicator.py), not in the sources; the best fuzzy
    candidate so far, after one more stored event is looked at. *)
Definition pick_best (cfg : Config) (d : Scalars) (best : option (Q * Event)) (e : Event)
  : option (Q * Event) :=
  match fuzzy_score cfg d e with
  | None => best
  | Some s =>
      match best with
      | None => Some (s, e)
      | Some (s0, e0) => if better s e s0 e0 then Some (s, e) else best
      end
  end.

(** Modelled from the spec: the Deduplicator
    (cityvibe-etl/deduplicator.py), not in the sources; step 2, the fuzzy
    match (4.4). *)
Definition match_fuzzy (cfg : Config) (S : Store) (d : Draft) : option EventId :=
  (fun best => ev_id (snd best)) <$> fold_left (pick_best cfg (d_fields d)) (events S) None.

(** Modelled from the spec: the Deduplicator
    (cityvibe-etl/deduplicator.py), not in the sources; the "bounded
    history, e.g. last N" (4.4): the last [n] entries of a list. *)
Definition last_n {A} (n : nat) (l : list A) : list A :=
  skipn (length l - n) l.

(** Modelled from the spec: the Event Store (cityvibe-core), not in the
    sources; the "(source, source-native id) pair" of an event or of a
    draft (3), when the source gave an id. *)
Definition native_pair (f : Scalars) : option (string * string) :=
  (fun id => (source f, id)) <$> source_id f.

(** Modelled from the spec: the Deduplicator
    (cityvibe-etl/deduplicator.py), not in the sources; the scalar
    fields of a stored event overwritten by those of a draft.
    "Updates overwrite in place" (3): the event stays the one of its
    (source, source-native id) pair, every other scalar field is taken
    from the draft. *)
Definition overwrite (stored incoming : Scalars) : Scalars :=
  {| source := source stored;
     source_id := source_id stored;
     source_url := source_url incoming;
     title := title incoming;
     description := description incoming;
     event_type := event_type incoming;
     start_time := start_time incoming;
     end_time := end_time incoming;
     recurrence := recurrence incoming;
     venue_id := venue_id incoming;
     location_name := location_name incoming;
     address := address incoming;
     latitude := latitude incoming;
     longitude := longitude incoming;
     price_min := price_min incoming;
     price_max := price_max incoming;
     currency := currency incoming;
     ticket_url := ticket_url incoming;
     confidence := confidence incoming;
     verified := verified incoming |}.

(** Modelled from the spec: the Deduplicator
    (cityvibe-etl/deduplicator.py), not in the sources; the update
    semantics (4.4). "scalar fields are overwritten only if the incoming
    draft's confidence score ≥ the stored event's confidence score ...;
    tags are unioned; raw_data/provenance snapshot is appended/rotated
    (bounded history, e.g. last N); updated_at is bumped". *)
Definition absorb (cfg : Config) (now : Instant) (d : Draft) (e : Event) : Event :=
  {| ev_id := ev_id e;
     fields := if confidence (fields e) <=? confidence (d_fields d)
               then overwrite (fields e) (d_fields d) else fields e;
     tags := tags e ∪ d_tags d;
     raw_history := last_n (history_bound cfg) (raw_history e ++ [d_raw d]);
     created_at := created_at e;
     updated_at := now;
     expires_at := expires_at e;
     embedding := embedding e |}.

(** Modelled from the spec: the Deduplicator
    (cityvibe-etl/deduplicator.py), not in the sources; the event created
    for a draft that matches nothing (4.4, step 3). *)
Definition new_event (now : Instant) (id : EventId) (d : Draft) : Event :=
  {| ev_id := id;
     fields := d_fields d;
     tags := d_tags d;
     raw_history := [d_raw d];
     created_at := now;
     updated_at := now;
     expires_at := None;
     embedding := None |}.

(** Modelled from the spec: the Event Store (cityvibe-core), not in the
    sources; equality of two signature rows. *)
Definition same_signature (a b : EventId * Hash) : bool :=
  N.eqb (fst a) (fst b) && N.eqb (snd a) (snd b).

(** Modelled from the spec: the Event Store (cityvibe-core), not in the
    sources; "a new signature record is always inserted (exact key of this
    draft) even on update" (4.4), into a table whose rows are unique pairs
    (3). *)
Definition add_signature (row : EventId * Hash) (sigs : list (EventId * Hash))
  : list (EventId * Hash) :=
  if existsb (same_signature row) sigs then sigs else sigs ++ [row].

(** Modelled from the spec: the Deduplicator
    (cityvibe-etl/deduplicator.py), not in the sources; the store after a
    draft is merged into the event [id]. *)
Definition merge_into (cfg : Config) (now : Instant) (id : EventId) (d : Draft) (S : Store)
  : Store :=
  {| events := List.map (fun e => if N.eqb (ev_id e) id then absorb cfg now d e else e)
                        (events S);
     signatures := add_signature (id, exact_key cfg d) (signatures S);
     next_id := next_id S |}.

(** Modelled from the spec: the Deduplicator
    (cityvibe-etl/deduplicator.py), not in the sources; the store after a
    draft is stored as a new event. *)
Definition insert_new (cfg : Config) (now : Instant) (d : Draft) (S : Store) : Store :=
  {| events := events S ++ [new_event now (next_id S) d];
     signatures := add_signature (next_id S, exact_key cfg d) (signatures S);
     next_id := N.succ (next_id S) |}.

(** Modelled from the spec: the Deduplicator
    (cityvibe-etl/deduplicator.py), not in the sources; what it decides
    for a draft, "{new, update-existing, duplicate-discard}" (4.4). *)
Inductive Decision :=
| New
| UpdateExisting (id : EventId)
| DuplicateDiscard.

(** Modelled from the spec: the Event Store (cityvibe-core), not in the
    sources; the event that holds the (source, source-native id) pair of
    a draft, if the draft has a pair and an event holds it.  "For a
    given (source, source-native id) pair there is at most one
    CanonicalEvent" (3). *)
Definition match_native (S : Store) (d : Draft) : option EventId :=
  p ← native_pair (d_fields d);
  ev_id <$> List.find (fun e => bool_decide (native_pair (fields e) = Some p)) (events S).

(** Modelled from the spec: the Deduplicator
    (cityvibe-etl/deduplicator.py), not in the sources; its decision, "in
    order": exact match, fuzzy match, otherwise new (4.4).  A draft that
    matches nothing and whose (source, source-native id) pair is held by
    an event cannot be stored as a new event, by the invariant of
    section 3: it is an update of that event, "updates overwrite in
    place, never duplicate".  No step of the algorithm ends in
    duplicate-discard. *)
Definition decide_draft (cfg : Config) (S : Store) (d : Draft) : Decision :=
  match match_exact S (exact_key cfg d) with
  | Some id => UpdateExisting id
  | None =>
      match match_fuzzy cfg S d with
      | Some id => UpdateExisting id
      | None =>
          match match_native S d with
          | Some id => UpdateExisting id
          | None => New
          end
      end
  end.

(** Modelled from the spec: the Deduplicator
    (cityvibe-etl/deduplicator.py), not in the sources; the store after
    the decision is carried out. *)
Definition apply_draft (cfg : Config) (now : Instant) (S : Store) (d : Draft) : Store :=
  match decide_draft cfg S d with
  | UpdateExisting id => merge_into cfg now id d S
  | New => insert_new cfg now d S
  | DuplicateDiscard => S
  end.

(** ** The pipeline: processBatch, getEvent, deletion *)

(** Modelled from the spec: the pipeline
    (cityvibe-etl/event_processor.py), not in the sources; what happened
    to one raw record (7). *)
Inductive Outcome :=
| Created (id : EventId)
| Updated (id : EventId)
| Discarded (violations : list Violation)
| Errored (e : NormalizationError).

(** Modelled from the spec: the pipeline
    (cityvibe-etl/event_processor.py), not in the sources; one record
    through "Normalizer → Validator → Deduplicator" (2). Enrichment "runs
    asynchronously after persistence" (5) and is not part of the batch. *)
Definition process_record (cfg : Config) (now : Instant) (src : string)
    (S : Store) (raw : RawRecord) : Store * Outcome :=
  match normalize cfg src raw with
  | NormError e => (S, Errored e)
  | NormOk d =>
      match validate cfg now d with
      | [] =>
          (apply_draft cfg now S d,
           match decide_draft cfg S d with
           | New => Created (next_id S)
           | UpdateExisting id => Updated id
           | DuplicateDiscard => Discarded []
           end)
      | v :: vs => (S, Discarded (v :: vs))
      end
  end.

(** Modelled from the spec: the pipeline
    (cityvibe-etl/event_processor.py), not in the sources; the "{created,
    updated, discarded, errors} job summary" (6). *)
Record Summary := mkSummary {
  created : nat;
  updated : nat;
  discarded : nat;
  errors : nat
}.

(** Modelled from the spec: the pipeline
    (cityvibe-etl/event_processor.py), not in the sources; the summary
    after one more outcome. *)
Definition count (o : Outcome) (s : Summary) : Summary :=
  match o with
  | Created _ => mkSummary (S (created s)) (updated s) (discarded s) (errors s)
  | Updated _ => mkSummary (created s) (S (updated s)) (discarded s) (errors s)
  | Discarded _ => mkSummary (created s) (updated s) (S (discarded s)) (errors s)
  | Errored _ => mkSummary (created s) (updated s) (discarded s) (S (errors s))
  end.

(** Modelled from the spec: the pipeline
    (cityvibe-etl/event_processor.py), not in the sources; the store and
    the summary after one more record of the batch. *)
Definition batch_step (cfg : Config) (now : Instant) (src : string)
    (acc : Store * Summary) (raw : RawRecord) : Store * Summary :=
  let '(S', o) := process_record cfg now src (fst acc) raw in
  (S', count o (snd acc)).

(** Modelled from the spec: the pipeline
    (cityvibe-etl/event_processor.py), not in the sources;
    "processBatch(sourceId, rawRecords) -> {created, updated, discarded,
    errors} job summary" (6), the records of the batch taken in order. *)
Definition processBatch (cfg : Config) (now : Instant) (src : string)
    (raws : list RawRecord) (S : Store) : Store * Summary :=
  fold_left (batch_step cfg now src) raws (S, mkSummary 0 0 0 0).

(** Modelled from the spec: the Event Store (cityvibe-core), not in the
    sources; "getEvent(id) -> CanonicalEvent | not-found" (6). *)
Definition getEvent (S : Store) (id : EventId) : option Event :=
  List.find (fun e => N.eqb (ev_id e) id) (events S).

(** Modelled from the spec: the Event Store (cityvibe-core), not in the
    sources; logical deletion, which "cascades to its signatures" (3). *)
Definition delete_event (id : EventId) (S : Store) : Store :=
  {| events := List.filter (fun e => negb (N.eqb (ev_id e) id)) (events S);
     signatures := List.filter (fun p => negb (N.eqb (fst p) id)) (signatures S);
     next_id := next_id S |}.

(** Modelled from the spec: the Event Store (cityvibe-core), not in the
    sources; the states of the canonical record set: the empty store, and
    what batches and deletions make of a reachable one. *)
Inductive reachable : Store -> Prop :=
| reach_empty : reachable empty_store
| reach_batch cfg now src raws S :
    reachable S -> reachable (fst (processBatch cfg now src raws S))
| reach_delete id S :
    reachable S -> reachable (delete_event id S).

(** ** Notions used to state and prove the facts *)

(** The drafts of a batch that pass the Normalizer and the Validator. *)
Definition accept (cfg : Config) (now : Instant) (src : string) (raw : RawRecord)
  : option Draft :=
  match normalize cfg src raw with
  | NormOk d => match validate cfg now d with [] => Some d | _ => None end
  | NormError _ => None
  end.

Definition accepted (cfg : Config) (now : Instant) (src : string) (raws : list RawRecord)
  : list Draft :=
  omap (accept cfg now src) raws.

Definition ingest (cfg : Config) (now : Instant) (ds : list Draft) (S : Store) : Store :=
  fold_left (apply_draft cfg now) ds S.

(** Everything of an event but [updated_at] and the provenance history. *)
Definition stable_part (e : Event)
  : EventId * Scalars * gset string * Instant * option Instant * option (list Z) :=
  (ev_id e, fields e, tags e, created_at e, expires_at e, embedding e).

(** Each exact key is attached to at most one event. *)
Definition keys_unique (sigs : list (EventId * Hash)) : Prop :=
  forall i j h, In (i, h) sigs -> In (j, h) sigs -> i = j.

Record wf_store (S : Store) : Prop := mk_wf {
  wf_ids : List.NoDup (List.map ev_id (events S));
  wf_fresh : forall e, In e (events S) -> (ev_id e < next_id S)%N;
  wf_owner : forall i h, In (i, h) (signatures S) -> exists e, In e (events S) /\ ev_id e = i;
  wf_keys : keys_unique (signatures S);
  wf_rows : List.NoDup (signatures S)
}.


(** The scalar block after a draft has been merged. *)
Definition settle (f : Scalars) (d : Draft) : Scalars :=
  if confidence f <=? confidence (d_fields d) then overwrite f (d_fields d) else f.

(** The drafts of [ds] whose exact key is attached to event [id]. *)
Definition aimed (cfg : Config) (sigs : list (EventId * Hash)) (id : EventId)
    (ds : list Draft) : list Draft :=
  List.filter
    (fun d => match find_signature sigs (exact_key cfg d) with
              | Some j => N.eqb j id
              | None => false
              end) ds.

(** An event with scalars [f] and tags [t] has taken in the drafts [ds]:
    none is more confident than [f] or carries a tag outside [t], and
    merging them again in the same order gives [f] back. *)
Definition settled (f : Scalars) (t : gset string) (ds : list Draft) : Prop :=
  List.Forall (fun d => confidence (d_fields d) <= confidence f /\ d_tags d ⊆ t) ds /\
  fold_left settle ds f = f.

(** What a pass over drafts whose keys are all attached does to one
    event: it merges, in order, the drafts aimed at it. *)
Definition replay (cfg : Config) (now : Instant) (sigs : list (EventId * Hash))
    (ds : list Draft) (e : Event) : Event :=
  fold_left (fun e d => absorb cfg now d e) (aimed cfg sigs (ev_id e) ds) e.

(** The store has taken in the drafts [ds]: the key of each is attached
    to some event, and each event has settled the drafts aimed at it. *)
Definition absorbed (cfg : Config) (S : Store) (ds : list Draft) : Prop :=
  (forall d, In d ds -> exists i, find_signature (signatures S) (exact_key cfg d) = Some i) /\
  (forall e, In e (events S) ->
     settled (fields e) (tags e) (aimed cfg (signatures S) (ev_id e) ds)).

(** ** The example values of the specification *)

(** Modelled from the spec: the geospatial query of the relational store,
    not in the sources; the distance in metres of two points, on a flat
    grid of 111.32 km per degree. *)
Definition flat_distance (p q : Z * Z) : Z :=
  (Z.abs (fst p - fst q) + Z.abs (snd p - snd q)) * 111320 / 100000000.

(** Modelled from the spec: the Normalizer (cityvibe-etl), not in the
    sources; the price coercion of [default_config]: a plain amount, or
    the word free. *)
Definition plain_price (s : string) : option (option Z * option Z * option string) :=
  match parse_decimal 2 (collapse s) with
  | Some p => Some (Some p, Some p, None)
  | None =>
      if String.eqb (JS.toLowerCase (collapse s)) "free"
      then Some (Some 0, Some 0, None) else None
  end.

(** Modelled from the spec: the Signature Hasher (cityvibe-etl), not in
    the sources; the stopwords of [default_config]. *)
Definition common_stopwords : list string :=
  [ "a"; "an"; "and"; "at"; "by"; "for"; "in"; "of"; "on"; "the"; "to"; "with" ].

(** Modelled from the spec: the configuration of cityvibe-etl, not in the
    sources. Threshold 0.85, window of three hours, radius of 200 m, stale
    horizon of one day and titles of 1 to 500 characters are the examples
    the specification gives; the other values are choices of this
    development.  The specification does not list the stopwords. *)
Definition config_with_stopwords (words : list string) : Config :=
  {| parse_time := fun _ => parse_utc;
     parse_price := plain_price;
     category_table := fun _ =>
       [ ("concert", concert); ("live music", concert); ("theater", theater);
         ("theatre", theater); ("museum", museum); ("culture", museum) ];
     default_currency := "EUR";
     default_confidence := 50;
     stopwords := words;
     past_horizon := 86400;
     future_horizon := 63072000;
     title_max_length := 500;
     fuzzy_threshold := 85 # 100;
     fuzzy_window := 10800;
     geo_radius := 200;
     geo_distance := flat_distance;
     history_bound := 5;
     hash := fun k => Npos (encode k) |}.

(** Modelled from the spec: the configuration of cityvibe-etl, not in the
    sources; the example values with the stopwords of this development. *)
Definition default_config : Config := config_with_stopwords common_stopwords.

(** The two raw records of the example scenario, and a pair that shares
    a source-native id. *)
Definition jazz_at_bird : RawRecord :=
  list_to_map [ ("title", "Jazz at Bird"); ("start", "2024-06-01T20:30Z"); ("venue", "Bird") ].

Definition jazz_at_sign_bird : RawRecord :=
  list_to_map [ ("title", "Jazz @ Bird"); ("start", "2024-06-01T20:32Z"); ("venue", "Bird") ].

Definition listing_rot2 : RawRecord :=
  list_to_map [ ("id", "rot-2"); ("title", "Jazz at Bird");
                ("start", "2024-06-01T20:30Z"); ("venue", "Bird") ].

Definition relisted_rot2 : RawRecord :=
  list_to_map [ ("id", "rot-2"); ("title", "Techno Bunker Night");
                ("start", "2024-06-08T23:00Z"); ("venue", "Perron") ].


(** A listing 730 days and 30 seconds after noon of 2024-06-01. *)
Definition far_ahead : RawRecord :=
  list_to_map [ ("title", "Jazz at Bird"); ("start", "2026-06-01T12:00:30Z"); ("venue", "Bird") ].

(** Noon of 2024-06-01, UTC. *)
Definition june_first_noon : Instant := 1717243200.

(** The store after the listing rot-2 and the listing that reuses its
    id. *)
Definition rot2_store : Store :=
  fst (processBatch default_config june_first_noon "uitagenda-rotterdam"
         [listing_rot2; relisted_rot2] empty_store).

(** The store after the example scenario. *)
Definition jazz_store : Store :=
  fst (processBatch default_config june_first_noon "uitagenda-rotterdam"
         [jazz_at_bird; jazz_at_sign_bird] empty_store).

(** ** 4.6 Hybrid Search Engine *)

(** Modelled from the spec: the Hybrid Search Engine (mcp-server), not in
    the sources; the "optional structured filters (city, date range, event
    type, max price ...)" (4.6). *)
Record Filters := mkFilters {
  in_city : option string;
  starts_from : option Instant;
  starts_until : option Instant;
  of_type : option EventType;
  max_price : option Z
}.

(** Modelled from the spec: the Hybrid Search Engine (mcp-server), not in
    the sources; the collaborators of a query (6). [None] is the answer of
    a collaborator that is unavailable or timed out. The sub-searches
    apply the structured filters themselves and return (event id, score)
    pairs, best first. *)
Record Collaborators := mkCollaborators {
  embed : string -> option (list Z);
  lexical_search : string -> Filters -> nat -> list (EventId * Q);
  vector_search : list Z -> Filters -> nat -> option (list (EventId * Q))
}.

(** Modelled from the spec: the Hybrid Search Engine (mcp-server), not in
    the sources; the tunables of the merge, "default weights configurable,
    e.g. 0.5/0.5" (4.6). [normalise scores s] brings the raw score [s] of
    a result list with raw scores [scores] to the common scale. *)
Record SearchConfig := mkSearchConfig {
  weight_lexical : Q;
  weight_vector : Q;
  k_text : nat;
  k_vector : nat;
  normalise : list Q -> Q -> Q
}.

(** Modelled from the spec: the Hybrid Search Engine (mcp-server), not in
    the sources; one entry of the ranked event list, with its combined
    score. *)
Record Hit := mkHit {
  hit_event : Event;
  hit_score : Q
}.

(** Modelled from the spec: the Hybrid Search Engine (mcp-server), not in
    the sources; "ranked event list (+degraded-mode flag)" (6). *)
Record SearchResult := mkSearchResult {
  hits : list Hit;
  degraded : bool
}.

(** Modelled from the spec: the Hybrid Search Engine (mcp-server), not in
    the sources; a result list with its scores normalised (4.6, step 4).
    *)
Definition normalised (sc : SearchConfig) (l : list (EventId * Q)) : list (EventId * Q) :=
  List.map (fun p => (fst p, normalise sc (List.map snd l) (snd p))) l.

(** Modelled from the spec: the Hybrid Search Engine (mcp-server), not in
    the sources; the score of an event in a result list, if it is listed.
    *)
Definition score_of (l : list (EventId * Q)) (id : EventId) : option Q :=
  snd <$> List.find (fun p => N.eqb (fst p) id) l.

(** Modelled from the spec: the Hybrid Search Engine (mcp-server), not in
    the sources; "combined score = weighted sum of normalized lexical rank
    score and normalized vector similarity ...; events in only one list
    are scored on that one signal only" (4.6, step 4). *)
Definition combined (sc : SearchConfig) (lex vec : list (EventId * Q)) (id : EventId) : Q :=
  (weight_lexical sc * default 0 (score_of lex id) +
   weight_vector sc * default 0 (score_of vec id))%Q.

(** Modelled from the spec: the Hybrid Search Engine (mcp-server), not in
    the sources; step 5, the filters "not pushed down to the sub-searches
    (e.g. price)". *)
Definition final_pass (fl : Filters) (e : Event) : bool :=
  match max_price fl, price_min (fields e) with
  | Some most, Some p => p <=? most
  | _, _ => true
  end.

(** Modelled from the spec: the Hybrid Search Engine (mcp-server), not in
    the sources; the order of step 6: higher combined score first, the
    smaller event id first among equal scores. *)
Definition ranks_before (a b : Hit) : bool :=
  match Qcompare (hit_score b) (hit_score a) with
  | Lt => true
  | Eq => N.leb (ev_id (hit_event a)) (ev_id (hit_event b))
  | Gt => false
  end.

(** The order of the result list, as a proposition. *)
Definition listed_before (a b : Hit) : Prop :=
  (hit_score b < hit_score a)%Q \/
  ((hit_score a == hit_score b)%Q /\ (ev_id (hit_event a) <= ev_id (hit_event b))%N).

(** Modelled from the spec: the Hybrid Search Engine (mcp-server), not in
    the sources; a hit put at its place in a ranked list. *)
Fixpoint insert_hit (h : Hit) (l : list Hit) : list Hit :=
  match l with
  | [] => [h]
  | x :: l' => if ranks_before h x then h :: l else x :: insert_hit h l'
  end.

(** Modelled from the spec: the Hybrid Search Engine (mcp-server), not in
    the sources; the candidates in the order of step 6. *)
Definition rank (l : list Hit) : list Hit := fold_right insert_hit [] l.

(** Modelled from the spec: the Hybrid Search Engine (mcp-server), not in
    the sources; steps 1 to 3: the two result lists of a query,
    normalised, and whether the vector signal is missing ("skipped if the
    collaborator is unavailable — degrade to lexical-only"). *)
Definition sub_searches (sc : SearchConfig) (co : Collaborators) (query : string)
    (fl : Filters) : list (EventId * Q) * list (EventId * Q) * bool :=
  let lex := firstn (k_text sc) (lexical_search co query fl (k_text sc)) in
  let vec := embed co query ≫= (fun v => vector_search co v fl (k_vector sc)) in
  (normalised sc lex,
   normalised sc (firstn (k_vector sc) (default [] vec)),
   match vec with Some _ => false | None => true end).

(** Modelled from the spec: the Hybrid Search Engine (mcp-server), not in
    the sources; steps 4 and 5, "union candidates by event id", score
    them, and keep those that pass the final filters. *)
Definition candidates (sc : SearchConfig) (co : Collaborators) (S : Store)
    (query : string) (fl : Filters) : list Hit :=
  let '(lex, vec, _) := sub_searches sc co query fl in
  omap (fun id =>
          e ← getEvent S id;
          if final_pass fl e then Some (mkHit e (combined sc lex vec id)) else None)
       (nodup N.eq_dec (List.map fst lex ++ List.map fst vec)).

(** Modelled from the spec: the Hybrid Search Engine (mcp-server), not in
    the sources; "search(query, filters, limit) -> ranked event list
    (+degraded-mode flag)" (6), step 6: "Return the top N by combined
    score, stable-sorted by event id on ties". *)
Definition search (sc : SearchConfig) (co : Collaborators) (S : Store)
    (query : string) (fl : Filters) (limit : nat) : SearchResult :=
  {| hits := firstn limit (rank (candidates sc co S query fl));
     degraded := snd (sub_searches sc co query fl) |}.

Definition no_filters : Filters := mkFilters None None None None None.

(** Modelled from the spec: the Hybrid Search Engine (mcp-server), not in
    the sources; the best raw score of a result list, for the
    normalisation of [default_search_config]. *)
Definition best_score (scores : list Q) : Q :=
  fold_right (fun s m => if Qle_bool m s then s else m) 0%Q scores.

(** Modelled from the spec: the Hybrid Search Engine (mcp-server), not in
    the sources; the normalisation of [default_search_config]: scores
    divided by the best score of their list. *)
Definition by_best (scores : list Q) (s : Q) : Q :=
  if Qle_bool (best_score scores) 0 then 0%Q else (s / best_score scores)%Q.

(** Modelled from the spec: the Hybrid Search Engine (mcp-server), not in
    the sources; weights 0.5/0.5, the example of 4.6, and result lists of
    up to 50 entries. *)
Definition default_search_config : SearchConfig :=
  mkSearchConfig (1 # 2) (1 # 2) 50 50 by_best.

(** Collaborators for the store after the example scenario and a second
    store with three events: a text index that finds events 2, 0 and 1,
    and a vector index that finds 1 and 0 or is down. *)
Definition three_events : Store :=
  fst (processBatch default_config june_first_noon "uitagenda-rotterdam"
         [ jazz_at_bird; relisted_rot2;
           list_to_map [ ("title", "Modern Dance"); ("start", "2024-06-01T20:00Z");
                         ("venue", "Theater Rotterdam") ] ]
         empty_store).

Definition toy_index (vector_up : bool) : Collaborators :=
  mkCollaborators
    (fun _ => Some [1; 0; 0])
    (fun _ _ _ => [ (2%N, 4%Q); (0%N, 2%Q); (1%N, 2%Q) ])
    (fun _ _ _ => if vector_up then Some [ (1%N, 1 # 2); (0%N, 1 # 2) ]%Q else None).

End Core.

(* ===================================================================== *)
(** * Facts                                                              *)
(* ===================================================================== *)


(** ** What [includes] computes *)

Lemma startsWith_spec (s p : string) :
  JS.startsWith s p = true <-> exists r, s = p +:+ r.
Proof.
  revert s; induction p as [|a p IH]; intros s; simpl.
  - split; [intros _; by exists s | done].
  - destruct s as [|b s]; simpl.
    + split; [done | intros [r Hr]; discriminate].
    + destruct (Ascii.eqb a b) eqn:E.
      * apply Ascii.eqb_eq in E as ->. rewrite IH.
        split; intros [r Hr]; exists r; [by rewrite Hr | by injection Hr].
      * apply Ascii.eqb_neq in E.
        split; [done | intros [r Hr]; injection Hr; congruence].
Qed.

Lemma includes_spec (s sub : string) :
  JS.includes s sub = true <-> exists l r, s = l +:+ sub +:+ r.
Proof.
  induction s as [|c s IH]; simpl.
  - destruct (JS.startsWith EmptyString sub) eqn:E.
    + apply startsWith_spec in E as [r Hr]. split; [|done].
      intros _. by exists EmptyString, r.
    + split; [done|]. intros [l [r H]].
      destruct l; [|discriminate]. simpl in H.
      assert (JS.startsWith EmptyString sub = true) by (apply startsWith_spec; eauto).
      congruence.
  - destruct (JS.startsWith (String c s) sub) eqn:E.
    + apply startsWith_spec in E as [r Hr]. split; [|done].
      intros _. by exists EmptyString, r.
    + rewrite IH. split.
      * intros [l [r H]]. exists (String c l), r. simpl. by rewrite H.
      * intros [l [r H]]. destruct l as [|c' l]; simpl in H.
        -- assert (JS.startsWith (String c s) sub = true)
             by (apply startsWith_spec; eauto).
           congruence.
        -- injection H as _ H. eauto.
Qed.

Lemma includes_empty (s : string) : JS.includes s EmptyString = true.
Proof. by destruct s. Qed.

(* ===================================================================== *)
(** * The server action                                                  *)
(* ===================================================================== *)

Section ServerAction.
Import Web.

Lemma weather_chain (l : string) :
  JS.includes l "weather" || JS.includes l "rain" || JS.includes l "sun" ||
  JS.includes l "snow" || JS.includes l "wind" || JS.includes l "storm" ||
  JS.includes l "cloud" || JS.includes l "fog" || JS.includes l "clear"
  = mentionsAny l weatherKeywords.
Proof. unfold mentionsAny; simpl. by rewrite orb_false_r, !orb_assoc. Qed.

Lemma secrets_chain (l : string) :
  JS.includes l "walk" || JS.includes l "secret" || JS.includes l "hidden"
  = mentionsAny l secretsKeywords.
Proof. unfold mentionsAny; simpl. by rewrite orb_false_r, !orb_assoc. Qed.

Lemma ticket_chain (l : string) :
  JS.includes l "concert" || JS.includes l "ticketmaster" || JS.includes l "tickets"
  = mentionsAny l ticketKeywords.
Proof. unfold mentionsAny; simpl. by rewrite orb_false_r, !orb_assoc. Qed.

Lemma mentionsAny_true (l : string) (ks : list string) (k : string) :
  In k ks -> JS.includes l k = true -> mentionsAny l ks = true.
Proof. intros Hin Hk. apply existsb_exists. eauto. Qed.

(** The tool chosen for a lowercased input, branch by branch. *)
Lemma detectTool_tool (l : string) :
  fst (detectTool l) =
    if mentionsAny l weatherKeywords then "get_weather_events"
    else if JS.includes l "rotterdam" then "get_rotterdam_events"
    else if JS.includes l "amsterdam" then "get_amsterdam_events"
    else if mentionsAny l secretsKeywords then "get_city_secrets"
    else if mentionsAny l ticketKeywords then "get_ticketmaster_events"
    else "default_chat".
Proof.
  unfold detectTool.
  rewrite weather_chain, secrets_chain, ticket_chain.
  destruct (mentionsAny l weatherKeywords); [done|].
  destruct (JS.includes l "rotterdam"); [done|].
  destruct (JS.includes l "amsterdam"); [done|].
  destruct (mentionsAny l secretsKeywords); [done|].
  by destruct (mentionsAny l ticketKeywords).
Qed.

(** The city-secrets branch is entered only when neither city name
    occurs, so its two assignments to [toolParams.city] never run. *)
Lemma city_filter_never_set (l : string) : tp_city (snd (detectTool l)) = None.
Proof.
  unfold detectTool.
  repeat match goal with
         | |- context [if ?b then _ else _] => destruct b eqn:?; simpl; try done
         end; congruence.
Qed.

(** For the same reason the Ticketmaster branch always asks for
    "Amsterdam". *)
Lemma ticketmaster_location_fixed (l : string) :
  fst (detectTool l) = "get_ticketmaster_events" ->
  tp_location (snd (detectTool l)) = Some "Amsterdam".
Proof.
  unfold detectTool.
  repeat match goal with
         | |- context [if ?b then _ else _] => destruct b eqn:?; simpl; try done
         end.
Qed.

(** The action always returns: the user message and the assistant note
    are appended to the AI state whatever the data source did. *)
Lemma submit_aiState (mcp : MCP) (now : Z) (st : list ServerMessage) (input : string) :
  aiState (submitUserMessageWith mcp now st input) =
    st ++ [ mkServerMessage user input;
            mkServerMessage assistant
              ("Displaying UI for " +:+ fst (detectTool (JS.toLowerCase input))) ].
Proof.
  unfold submitUserMessageWith.
  destruct (detectTool (JS.toLowerCase input)) as [tool params].
  destruct (tryCatch _ _) as [log ui]. simpl. by rewrite <- app_assoc.
Qed.

Lemma submit_display (mcp : MCP) (now : Z) (st : list ServerMessage) (input : string) :
  (called (submitUserMessageWith mcp now st input),
   display (returned (submitUserMessageWith mcp now st input))) =
  tryCatch (dispatch mcp (fst (detectTool (JS.toLowerCase input)))
                         (snd (detectTool (JS.toLowerCase input)))) ErrorResponse.
Proof.
  unfold submitUserMessageWith.
  destruct (detectTool (JS.toLowerCase input)) as [tool params]. simpl.
  by destruct (tryCatch _ _) as [log ui].
Qed.

(** The city-secrets case keeps only walks located in the requested city. *)
Lemma city_secrets_filter_sound (mcp : MCP) (params : ToolParams) (city heading : string)
    (log : list string) (ws : list CityWalkData) :
  truthyParam (tp_city params) = Some city ->
  dispatch mcp "get_city_secrets" params = (log, Fulfilled (ToolResponse heading (WalkListOf ws))) ->
  Forall (fun w => JS.includes (JS.toLowerCase (walk_location w)) city = true) ws.
Proof.
  intros Hcity. unfold dispatch; simpl. rewrite Hcity.
  destruct (citySecrets mcp) as [log0 [walks|]]; simpl; [|done].
  intros [= _ _ <-]. apply Forall_forall. intros w Hw.
  apply list_elem_of_In, filter_In in Hw. tauto.
Qed.

(** In the fixtures of the three event sources no two events share a
    (source, id) pair. *)
Lemma fixtures_distinct_ids :
  List.NoDup
    (List.map (fun e => (ev_source e, ev_id e))
       (mockUitAgendaRotterdam_data ++ mockIAmsterdam_data ++ mockTicketmaster_data)).
Proof.
  apply NoDup_ListNoDup. by apply (bool_decide_unpack _).
Qed.

(** The Ticketmaster mock answers every location with the same two events. *)
Lemma mockTicketmaster_constant (location : string) :
  mockTicketmaster location = (["Ticketmaster"], Fulfilled mockTicketmaster_data).
Proof. reflexivity. Qed.

(** C1, at the failing input.  The request "concert" is dispatched to
    Ticketmaster with location "Amsterdam"; the carousel shown under the
    heading "Concert tickets available in Amsterdam:" contains the event
    tm-2, whose stored location "Maassilo, Rotterdam" is not in Amsterdam. *)
Theorem ticketmaster_result_outside_location :
  let r := submitUserMessage 0 [] "concert" in
  snd (detectTool (JS.toLowerCase "concert")) = set_location "Amsterdam" noParams /\
  display (returned r) =
    ToolResponse "Concert tickets available in Amsterdam:"
      (EventCarouselOf mockTicketmaster_data) /\
  exists e, In e mockTicketmaster_data /\
            ev_id e = "tm-2" /\
            ev_location e = "Maassilo, Rotterdam" /\
            locatedIn "Amsterdam" (ev_location e) = false.
Proof.
  split; [reflexivity|]. split; [reflexivity|].
  exists (mkEventData "tm-2" "Electronic Music Festival" (unsplash "1470229722913-7c0e2dbbaf53")
      "Tonight, 22:00" "Maassilo, Rotterdam" "€45.00" "Concert" "mcp-ticketmaster"
      (Some "Major electronic music event with international DJs. Warehouse venue.")).
  split; [right; left; reflexivity|]. by vm_compute.
Qed.

Lemma bind_rejected {A B} (m : Async A) (k : A -> Async B) :
  (forall a, snd (k a) <> Rejected) ->
  (snd (bind m k) = Rejected <-> snd m = Rejected).
Proof.
  intros Hk. destruct m as [log [a|]]; simpl; [|done].
  specialize (Hk a). destruct (k a) as [log' r]. simpl in *. split; [done|]. done.
Qed.

(** The body of the [try] block throws exactly when the one data source
    it awaits throws. *)
Lemma dispatch_rejected (mcp : MCP) (tool : string) (params : ToolParams) :
  snd (dispatch mcp tool params) = Rejected <->
  (tool = "get_weather_events" /\ snd (weatherEvents mcp) = Rejected) \/
  (tool = "get_rotterdam_events" /\ snd (uitAgendaRotterdam mcp) = Rejected) \/
  (tool = "get_amsterdam_events" /\ snd (iAmsterdam mcp) = Rejected) \/
  (tool = "get_city_secrets" /\ snd (citySecrets mcp) = Rejected) \/
  (tool = "get_ticketmaster_events" /\
   snd (ticketmaster mcp (default "Amsterdam" (truthyParam (tp_location params)))) = Rejected).
Proof.
  unfold dispatch.
  destruct (String.eqb_spec tool "get_weather_events") as [->|N1].
  { rewrite bind_rejected; [|done]. split; [by left|]. intros [[_ H]|[[? _]|[[? _]|[[? _]|[? _]]]]]; done. }
  destruct (String.eqb_spec tool "get_rotterdam_events") as [->|N2].
  { rewrite bind_rejected; [|done]. split; [right; by left|]. intros [[? _]|[[_ H]|[[? _]|[[? _]|[? _]]]]]; done. }
  destruct (String.eqb_spec tool "get_amsterdam_events") as [->|N3].
  { rewrite bind_rejected; [|done]. split; [right; right; by left|]. intros [[? _]|[[? _]|[[_ H]|[[? _]|[? _]]]]]; done. }
  destruct (String.eqb_spec tool "get_city_secrets") as [->|N4].
  { rewrite bind_rejected; [|done]. split; [right; right; right; by left|]. intros [[? _]|[[? _]|[[? _]|[[_ H]|[? _]]]]]; done. }
  destruct (String.eqb_spec tool "get_ticketmaster_events") as [->|N5].
  { rewrite bind_rejected; [|done]. split; [by repeat right|]. intros [[? _]|[[? _]|[[? _]|[[? _]|[_ H]]]]]; done. }
  simpl. split; [done|]. intros [[? _]|[[? _]|[[? _]|[[? _]|[? _]]]]]; done.
Qed.

(** C2 as stated fails: with the Ticketmaster source throwing, the request
    "concert" is answered with the error paragraph; no partial result and
    no degraded-mode flag are produced. *)
Lemma outage_yields_error_response :
  display (returned (submitUserMessageWith ticketmasterDown 0 [] "concert")) = ErrorResponse.
Proof. reflexivity. Qed.

(** C2, amended.  When the data source called for the detected tool
    throws, [submitUserMessage] still returns: the exception is caught,
    the display is the error paragraph, and the AI state is completed with
    the user message and the assistant note. *)
Theorem outage_is_caught (mcp : MCP) (now : Z) (st : list ServerMessage) (input : string) :
  snd (dispatch mcp (fst (detectTool (JS.toLowerCase input)))
                    (snd (detectTool (JS.toLowerCase input)))) = Rejected ->
  let r := submitUserMessageWith mcp now st input in
  display (returned r) = ErrorResponse /\
  cm_id (returned r) = now /\
  aiState r = st ++ [ mkServerMessage user input;
                      mkServerMessage assistant
                        ("Displaying UI for " +:+ fst (detectTool (JS.toLowerCase input))) ].
Proof.
  intros Hrej r. subst r. split; [|split].
  - pose proof (submit_display mcp now st input) as H.
    destruct (dispatch _ _ _) as [log [ui|]]; simpl in *; [done|].
    by injection H.
  - unfold submitUserMessageWith.
    destruct (detectTool _) as [tool params]. by destruct (tryCatch _ _).
  - apply submit_aiState.
Qed.

Lemma outage_is_caught_witness :
  display (returned (submitUserMessageWith ticketmasterDown 0 [] "concert")) = ErrorResponse /\
  cm_id (returned (submitUserMessageWith ticketmasterDown 0 [] "concert")) = 0 /\
  aiState (submitUserMessageWith ticketmasterDown 0 [] "concert") =
    [] ++ [ mkServerMessage user "concert";
            mkServerMessage assistant
              ("Displaying UI for " +:+ fst (detectTool (JS.toLowerCase "concert"))) ].
Proof. apply (outage_is_caught ticketmasterDown 0 [] "concert"). reflexivity. Defined.

(** The city-secrets case of the [switch], had [toolParams.city] been
    set to a city that matches the location of no walk: the filtered
    list is empty and [WalkList] renders its notice.  By
    [city_filter_never_set] no input reaches the case that way. *)
Lemma city_secrets_case_on_a_set_filter (mcp : MCP) (params : ToolParams)
    (city : string) (log : list string) (walks : list CityWalkData) :
  citySecrets mcp = (log, Fulfilled walks) ->
  truthyParam (tp_city params) = Some city ->
  Forall (fun w => JS.includes (JS.toLowerCase (walk_location w)) city = false) walks ->
  tryCatch (dispatch mcp "get_city_secrets" params) ErrorResponse =
    (log, ToolResponse "Looking for something hidden? Check these out:" (WalkListOf [])) /\
  WalkList [] = NoWalksFound "No walks found. Try a different search!".
Proof.
  intros Hsrc Hcity Hnone. split; [|reflexivity].
  assert (List.filter (fun w => JS.includes (JS.toLowerCase (walk_location w)) city) walks
          = []) as Hempty.
  { clear Hsrc. induction Hnone as [|w ws Hw _ IH]; simpl; [done|]. by rewrite Hw. }
  unfold dispatch; simpl. rewrite Hsrc, Hcity. simpl. by rewrite app_nil_r, Hempty.
Qed.

End ServerAction.

(* ===================================================================== *)
(** * Components                                                         *)
(* ===================================================================== *)

Section Components.
Import Web.

(** C10.  The carousel shows exactly the events it was given: for the
    empty array it returns null at the early return, and whenever the
    choice of [displayEvents] is reached the passed events are taken, so
    the demo fallback, chosen by [displayEvents] only for an empty array,
    is never what the carousel renders. *)
Theorem carousel_never_shows_demo (events : list WeatherEventData) :
  (events = [] -> WeatherEventCarousel events = None) /\
  (events <> [] -> WeatherEventCarousel events = Some (PassedEvents, events)) /\
  (forall shown, WeatherEventCarousel events <> Some (DemoFallback, shown)) /\
  (fst (displayEvents events) = DemoFallback <-> events = []).
Proof.
  destruct events as [|e events]; repeat split; done.
Qed.

Lemma carousel_never_shows_demo_witness :
  WeatherEventCarousel [] = None /\
  WeatherEventCarousel mockWeatherEvents_data = Some (PassedEvents, mockWeatherEvents_data).
Proof.
  split.
  - by apply (carousel_never_shows_demo []).
  - by apply (carousel_never_shows_demo mockWeatherEvents_data).
Defined.

Lemma array_includes_In (xs : list string) (x : string) :
  JS.array_includes xs x = true <-> In x xs.
Proof.
  unfold JS.array_includes. rewrite existsb_exists. split.
  - intros [y [Hy E]]. by apply String.eqb_eq in E as ->.
  - intros H. exists x. split; [done | apply String.eqb_refl].
Qed.

Lemma In_remove_id (favorites : list string) (event_id x : string) :
  In x (List.filter (fun id => negb (String.eqb id event_id)) favorites) <->
  In x favorites /\ x <> event_id.
Proof.
  rewrite filter_In, negb_true_iff, String.eqb_neq. tauto.
Qed.

(** C9 as stated fails.  Two cards of the event rot-1 are mounted while
    the list is empty; the first is clicked, which stores ["rot-1"].  The
    second card still holds [isFavorite = false]: clicking it twice
    pushes a second copy and then filters both away, so rot-1, stored
    exactly once before the two clicks, is no longer stored after them. *)
Lemma favorite_toggle_twice_stale_card :
  let p := runPage initialPage [Mount "rot-1"; Mount "rot-1"; ClickFavorite 0] in
  let q := runPage p [ClickFavorite 1; ClickFavorite 1] in
  cards p = [mkCard "rot-1" true; mkCard "rot-1" false] /\
  readFavorites (storage p) = ["rot-1"] /\
  (count_occ String.string_dec (readFavorites (storage p)) "rot-1" <= 1)%nat /\
  snd (handleFavorite "rot-1" false (storage p)) = Some ["rot-1"; "rot-1"] /\
  readFavorites (storage q) = [] /\
  ~ (forall x, In x (readFavorites (storage q)) <-> In x (readFavorites (storage p))).
Proof.
  repeat split; try reflexivity.
  intros H. destruct (proj2 (H "rot-1")). by left.
Qed.

(** C9, amended.  When the card's [isFavorite] agrees with the stored
    list, as the mount effect leaves it, two successive toggles of an id
    stored at most once bring [isFavorite] back and leave the stored
    list with the same members. *)
Theorem favorite_toggle_twice_in_sync (event_id : string) (isFav : bool) (ls : LocalStorage) :
  (count_occ String.string_dec (readFavorites ls) event_id <= 1)%nat ->
  isFav = loadFavorite event_id ls ->
  let once := handleFavorite event_id isFav ls in
  let twice := handleFavorite event_id (fst once) (snd once) in
  fst twice = isFav /\
  forall x, In x (readFavorites (snd twice)) <-> In x (readFavorites ls).
Proof.
  intros _ Hsync once twice. subst once twice.
  unfold handleFavorite, loadFavorite in *.
  destruct isFav; simpl.
  - split; [done|]. intros x. symmetry in Hsync. apply array_includes_In in Hsync.
    rewrite in_app_iff, In_remove_id. simpl.
    destruct (String.string_dec x event_id) as [->|Hne]; [tauto|].
    split; [intros [[? _]|[?|[]]]; [done|congruence] | tauto].
  - split; [done|]. intros x.
    assert (~ In event_id (readFavorites ls)) as Hnot.
    { intros Hin. apply array_includes_In in Hin. congruence. }
    rewrite In_remove_id, in_app_iff. simpl.
    split; [intros [[?|[?|[]]] Hne]; [done|congruence] |].
    intros Hin. split; [tauto|]. intros ->. done.
Qed.

Lemma favorite_toggle_twice_in_sync_witness :
  fst (handleFavorite "rot-1" (fst (handleFavorite "rot-1" true (Some ["ams-1"; "rot-1"])))
         (snd (handleFavorite "rot-1" true (Some ["ams-1"; "rot-1"])))) = true /\
  forall x,
    In x (readFavorites
            (snd (handleFavorite "rot-1"
                    (fst (handleFavorite "rot-1" true (Some ["ams-1"; "rot-1"])))
                    (snd (handleFavorite "rot-1" true (Some ["ams-1"; "rot-1"]))))))
    <-> In x (readFavorites (Some ["ams-1"; "rot-1"])).
Proof.
  apply (favorite_toggle_twice_in_sync "rot-1" true (Some ["ams-1"; "rot-1"])).
  - vm_compute. lia.
  - reflexivity.
Defined.

End Components.

(* ===================================================================== *)
(** * The signature table                                                *)
(* ===================================================================== *)

Section Reconciliation.
Import Core.

Example parse_utc_examples :
  parse_utc "2024-06-01T20:30Z" = Some 1717273800 /\
  parse_utc "2024-06-01T20:32Z" = Some 1717273920 /\
  parse_utc "1970-01-02T00:00:00Z" = Some 86400 /\
  parse_utc "tonight, 20:30" = None.
Proof. by vm_compute. Qed.

Example levenshtein_examples :
  levenshtein "kitten" "sitting" = 3%nat /\
  levenshtein "flaw" "lawn" = 2%nat /\
  levenshtein EmptyString "bird" = 4%nat /\
  levenshtein "jazz at bird" "jazz bird" = 3%nat.
Proof. by vm_compute. Qed.

(** With "at" among the stopwords the two titles of the example scenario
    have the same fuzzy key material; compared as they are written they
    would stay under the threshold of 0.85. *)
Example jazz_titles_similarity :
  fuzzy_title common_stopwords "Jazz at Bird" = "jazz bird" /\
  fuzzy_title common_stopwords "Jazz @ Bird" = "jazz bird" /\
  similarity "jazz bird" "jazz bird" = (9 # 9)%Q /\
  Qle_bool (85 # 100) (similarity "jazz at bird" "jazz bird") = false.
Proof. by vm_compute. Qed.

Lemma find_signature_Some (sigs : list (EventId * Hash)) (k : Hash) (i : EventId) :
  find_signature sigs k = Some i -> In (i, k) sigs.
Proof.
  unfold find_signature. destruct (List.find _ sigs) as [[j h]|] eqn:E; [|done].
  intros [= <-]. apply find_some in E as [Hin Hk]. simpl in Hk.
  by apply N.eqb_eq in Hk as <-.
Qed.

Lemma find_signature_None (sigs : list (EventId * Hash)) (k : Hash) (i : EventId) :
  find_signature sigs k = None -> ~ In (i, k) sigs.
Proof.
  unfold find_signature. destruct (List.find _ sigs) as [p|] eqn:E; [done|].
  intros _ Hin. pose proof (find_none _ _ E _ Hin) as H. simpl in H.
  by rewrite N.eqb_refl in H.
Qed.

Lemma find_signature_In (sigs : list (EventId * Hash)) (k : Hash) (i : EventId) :
  In (i, k) sigs -> exists j, find_signature sigs k = Some j.
Proof.
  intros Hin. destruct (find_signature sigs k) as [j|] eqn:E; [eauto|].
  by destruct (find_signature_None _ _ i E).
Qed.

Lemma find_signature_snoc_old (sigs : list (EventId * Hash)) (row : EventId * Hash)
    (k : Hash) (i : EventId) :
  find_signature sigs k = Some i -> find_signature (sigs ++ [row]) k = Some i.
Proof.
  unfold find_signature. induction sigs as [|p sigs IH]; simpl; [done|].
  destruct (N.eqb (snd p) k); [done | apply IH].
Qed.

Lemma find_signature_snoc_new (sigs : list (EventId * Hash)) (k : Hash) (i : EventId) :
  find_signature sigs k = None -> find_signature (sigs ++ [(i, k)]) k = Some i.
Proof.
  unfold find_signature. induction sigs as [|p sigs IH]; simpl.
  - by rewrite N.eqb_refl.
  - destruct (N.eqb (snd p) k); [done | apply IH].
Qed.

Lemma same_signature_In (row : EventId * Hash) (sigs : list (EventId * Hash)) :
  existsb (same_signature row) sigs = true <-> In row sigs.
Proof.
  rewrite existsb_exists. unfold same_signature. split.
  - intros [[j h] [Hin E]]. destruct row as [i k]. simpl in E.
    apply andb_true_iff in E as [E1 E2].
    apply N.eqb_eq in E1, E2. by subst.
  - intros Hin. exists row. split; [done|]. by rewrite !N.eqb_refl.
Qed.

Lemma add_signature_present (row : EventId * Hash) (sigs : list (EventId * Hash)) :
  In row sigs -> add_signature row sigs = sigs.
Proof. intros H. unfold add_signature. apply same_signature_In in H. by rewrite H. Qed.

Lemma add_signature_absent (row : EventId * Hash) (sigs : list (EventId * Hash)) :
  ~ In row sigs -> add_signature row sigs = sigs ++ [row].
Proof.
  intros H. unfold add_signature.
  destruct (existsb _ sigs) eqn:E; [|done]. by apply same_signature_In in E.
Qed.

(** Attaching the key of a draft to the event chosen for it: either the
    key was found and the table is unchanged, or the key is new and one
    row is appended. *)
Lemma add_signature_cases (sigs : list (EventId * Hash)) (id : EventId) (k : Hash) :
  find_signature sigs k = Some id \/ find_signature sigs k = None ->
  (add_signature (id, k) sigs = sigs /\ find_signature sigs k = Some id) \/
  (add_signature (id, k) sigs = sigs ++ [(id, k)] /\ find_signature sigs k = None).
Proof.
  intros [H|H].
  - left. split; [|done]. by apply add_signature_present, find_signature_Some.
  - right. split; [|done]. by apply add_signature_absent, find_signature_None.
Qed.

Lemma find_signature_added (sigs : list (EventId * Hash)) (id : EventId) (k : Hash) :
  find_signature sigs k = Some id \/ find_signature sigs k = None ->
  find_signature (add_signature (id, k) sigs) k = Some id.
Proof.
  intros H. destruct (add_signature_cases sigs id k H) as [[-> ?]|[-> ?]]; [done|].
  by apply find_signature_snoc_new.
Qed.

Lemma find_signature_kept (sigs : list (EventId * Hash)) (row : EventId * Hash)
    (k : Hash) (i : EventId) :
  find_signature sigs k = Some i -> find_signature (add_signature row sigs) k = Some i.
Proof.
  intros H. unfold add_signature. destruct (existsb _ sigs); [done|].
  by apply find_signature_snoc_old.
Qed.

Lemma keys_unique_added (sigs : list (EventId * Hash)) (id : EventId) (k : Hash) :
  find_signature sigs k = Some id \/ find_signature sigs k = None ->
  keys_unique sigs -> keys_unique (add_signature (id, k) sigs).
Proof.
  intros H Hu. destruct (add_signature_cases sigs id k H) as [[-> _]|[-> Hnone]]; [done|].
  intros i j h Hi Hj. apply in_app_iff in Hi, Hj. simpl in Hi, Hj.
  destruct Hi as [Hi|[Hi|[]]], Hj as [Hj|[Hj|[]]]; simplify_eq.
  - eauto.
  - by destruct (find_signature_None _ _ i Hnone).
  - by destruct (find_signature_None _ _ j Hnone).
  - done.
Qed.

Lemma NoDup_added (row : EventId * Hash) (sigs : list (EventId * Hash)) :
  List.NoDup sigs -> List.NoDup (add_signature row sigs).
Proof.
  intros Hnd. unfold add_signature. destruct (existsb _ sigs) eqn:E; [done|].
  apply List.NoDup_app; [done | repeat constructor; by intros [] |].
  intros x Hx [<-|[]]. apply same_signature_In in Hx. congruence.
Qed.

Lemma In_added (row p : EventId * Hash) (sigs : list (EventId * Hash)) :
  In p (add_signature row sigs) -> In p sigs \/ p = row.
Proof.
  unfold add_signature. destruct (existsb _ sigs); [tauto|].
  rewrite in_app_iff. simpl. intuition.
Qed.


(* ===================================================================== *)
(** * Well-formed stores                                                 *)
(* ===================================================================== *)

Lemma absorb_id (cfg : Config) (now : Instant) (d : Draft) (e : Event) :
  ev_id (absorb cfg now d e) = ev_id e.
Proof. reflexivity. Qed.

Lemma merge_into_ids (cfg : Config) (now : Instant) (id : EventId) (d : Draft) (S : Store) :
  List.map ev_id (events (merge_into cfg now id d S)) = List.map ev_id (events S).
Proof.
  simpl. rewrite List.map_map. apply List.map_ext. intros e.
  by destruct (N.eqb (ev_id e) id).
Qed.

Lemma In_ids (S : Store) (id : EventId) :
  In id (List.map ev_id (events S)) <-> exists e, In e (events S) /\ ev_id e = id.
Proof.
  rewrite in_map_iff. split; intros [e H]; exists e; tauto.
Qed.

Lemma wf_empty : wf_store empty_store.
Proof.
  split; simpl.
  - constructor.
  - by intros e [].
  - by intros i h [].
  - by intros i j h [].
  - constructor.
Qed.

Lemma wf_merge_into (cfg : Config) (now : Instant) (id : EventId) (d : Draft) (S : Store) :
  wf_store S ->
  In id (List.map ev_id (events S)) ->
  match_exact S (exact_key cfg d) = Some id \/ match_exact S (exact_key cfg d) = None ->
  wf_store (merge_into cfg now id d S).
Proof.
  intros [Hids Hfresh Hown Hkeys Hrows] Hid Hk. split.
  - by rewrite merge_into_ids.
  - intros e' He'. simpl in He'. apply in_map_iff in He' as [e [<- He]].
    destruct (N.eqb (ev_id e) id); simpl; by apply Hfresh.
  - intros i h Hin. apply In_ids. rewrite merge_into_ids.
    simpl in Hin. apply In_added in Hin as [Hin|[= -> ->]]; [|done].
    apply In_ids. eauto.
  - by apply keys_unique_added.
  - by apply NoDup_added.
Qed.

Lemma wf_insert_new (cfg : Config) (now : Instant) (d : Draft) (S : Store) :
  wf_store S ->
  match_exact S (exact_key cfg d) = None ->
  wf_store (insert_new cfg now d S).
Proof.
  intros [Hids Hfresh Hown Hkeys Hrows] Hk. split; simpl.
  - rewrite List.map_app. simpl.
    apply List.NoDup_app; [done | repeat constructor; by intros [] |].
    intros i Hi [<-|[]]. apply in_map_iff in Hi as [e [Hi He]].
    apply Hfresh in He. lia.
  - intros e He. apply in_app_iff in He as [He|[<-|[]]]; simpl.
    + apply Hfresh in He. lia.
    + lia.
  - intros i h Hin. apply In_added in Hin as [Hin|[= -> ->]].
    + destruct (Hown _ _ Hin) as [e [He <-]]. exists e. split; [|done].
      apply in_app_iff. by left.
    + eexists. split; [apply in_app_iff; right; by left | done].
  - apply keys_unique_added; [by right | done].
  - by apply NoDup_added.
Qed.

Lemma wf_delete (id : EventId) (S : Store) :
  wf_store S -> wf_store (delete_event id S).
Proof.
  intros [Hids Hfresh Hown Hkeys Hrows]. split; simpl.
  - clear -Hids. induction (events S) as [|e es IH]; simpl; [constructor|].
    apply List.NoDup_cons_iff in Hids as [Hnot Hnd].
    destruct (negb _); simpl; [|by apply IH].
    constructor; [|by apply IH].
    intros Hin. apply Hnot. apply in_map_iff in Hin as [e' [Heq Hin]].
    apply filter_In in Hin as [Hin _]. apply in_map_iff. eauto.
  - intros e He. apply filter_In in He as [He _]. by apply Hfresh.
  - intros i h Hin. apply filter_In in Hin as [Hin Hne]. simpl in Hne.
    destruct (Hown _ _ Hin) as [e [He <-]]. exists e. split; [|done].
    apply filter_In. by split.
  - intros i j h Hi Hj. apply filter_In in Hi as [Hi _], Hj as [Hj _]. eauto.
  - by apply List.NoDup_filter.
Qed.

(** The fuzzy match only ever proposes an event of the store. *)
Lemma pick_best_in (cfg : Config) (d : Scalars) (es : list Event) (start : option (Q * Event))
    (s : Q) (e : Event) :
  fold_left (pick_best cfg d) es start = Some (s, e) ->
  In e es \/ start = Some (s, e).
Proof.
  revert start. induction es as [|e0 es IH]; simpl; intros start H; [by right|].
  apply IH in H as [H|H]; [left; by right|].
  unfold pick_best in H. destruct (fuzzy_score cfg d e0) as [s0|]; [|by right].
  destruct start as [[s1 e1]|].
  - destruct (better s0 e0 s1 e1); [|by right]. injection H as _ <-. left. by left.
  - injection H as _ <-. left. by left.
Qed.

Lemma match_fuzzy_in (cfg : Config) (S : Store) (d : Draft) (id : EventId) :
  match_fuzzy cfg S d = Some id -> In id (List.map ev_id (events S)).
Proof.
  unfold match_fuzzy.
  destruct (fold_left _ _ _) as [[s e]|] eqn:E; [|done]. intros [= <-].
  apply pick_best_in in E as [E|E]; [|done]. apply in_map_iff. eauto.
Qed.

(** The holder of a pair is an event of the store, and it holds the
    pair. *)
Lemma match_native_Some (S : Store) (d : Draft) (id : EventId) :
  match_native S d = Some id ->
  exists e p, In e (events S) /\ ev_id e = id /\
              native_pair (d_fields d) = Some p /\ native_pair (fields e) = Some p.
Proof.
  unfold match_native. destruct (native_pair (d_fields d)) as [p|]; [|done]. simpl.
  destruct (List.find _ (events S)) as [e|] eqn:F; [|done]. intros [= <-].
  apply find_some in F as [Hin Hp]. apply bool_decide_eq_true in Hp. eauto 7.
Qed.


Lemma match_native_in (S : Store) (d : Draft) (id : EventId) :
  match_native S d = Some id -> In id (List.map ev_id (events S)).
Proof.
  intros H. apply match_native_Some in H as (e & p & Hin & <- & _). apply in_map_iff. eauto.
Qed.

Lemma decide_update_cases (cfg : Config) (S : Store) (d : Draft) (id : EventId) :
  wf_store S ->
  decide_draft cfg S d = UpdateExisting id ->
  In id (List.map ev_id (events S)) /\
  (match_exact S (exact_key cfg d) = Some id \/ match_exact S (exact_key cfg d) = None).
Proof.
  intros Hwf. unfold decide_draft.
  destruct (match_exact S (exact_key cfg d)) as [i|] eqn:Ex.
  - intros [= ->]. split; [|by left].
    apply find_signature_Some in Ex. apply In_ids. by apply (wf_owner _ Hwf _ _ Ex).
  - destruct (match_fuzzy cfg S d) as [i|] eqn:Fz.
    + intros [= ->]. split; [|by right]. by apply match_fuzzy_in in Fz.
    + destruct (match_native S d) as [i|] eqn:Nt; [|done].
      intros [= ->]. split; [|by right]. by apply match_native_in in Nt.
Qed.

Lemma decide_new_cases (cfg : Config) (S : Store) (d : Draft) :
  decide_draft cfg S d = New ->
  match_exact S (exact_key cfg d) = None /\ match_native S d = None.
Proof.
  unfold decide_draft. destruct (match_exact S (exact_key cfg d)); [done|].
  destruct (match_fuzzy cfg S d); [done|]. by destruct (match_native S d).
Qed.

(** The algorithm of 4.4 never decides duplicate-discard. *)
Lemma decide_never_discards (cfg : Config) (S : Store) (d : Draft) :
  decide_draft cfg S d <> DuplicateDiscard.
Proof.
  unfold decide_draft. destruct (match_exact S (exact_key cfg d)); [done|].
  destruct (match_fuzzy cfg S d); [done|]. by destruct (match_native S d).
Qed.

Lemma wf_apply_draft (cfg : Config) (now : Instant) (S : Store) (d : Draft) :
  wf_store S -> wf_store (apply_draft cfg now S d).
Proof.
  intros Hwf. unfold apply_draft. destruct (decide_draft cfg S d) as [|id|] eqn:E.
  - apply wf_insert_new; [done | by apply decide_new_cases].
  - destruct (decide_update_cases cfg S d id Hwf E). by apply wf_merge_into.
  - done.
Qed.

Lemma wf_ingest (cfg : Config) (now : Instant) (ds : list Draft) (S : Store) :
  wf_store S -> wf_store (ingest cfg now ds S).
Proof.
  revert S. induction ds as [|d ds IH]; intros S Hwf; simpl; [done|].
  by apply IH, wf_apply_draft.
Qed.



(* ===================================================================== *)
(** * A batch as a sequence of accepted drafts                           *)
(* ===================================================================== *)

Lemma process_record_accepted (cfg : Config) (now : Instant) (src : string)
    (S : Store) (raw : RawRecord) (d : Draft) :
  accept cfg now src raw = Some d ->
  process_record cfg now src S raw =
    (apply_draft cfg now S d,
     match decide_draft cfg S d with
     | New => Created (next_id S)
     | UpdateExisting id => Updated id
     | DuplicateDiscard => Discarded []
     end).
Proof.
  unfold accept, process_record. destruct (normalize cfg src raw) as [d'|]; [|done].
  destruct (validate cfg now d'); [|done]. by intros [= ->].
Qed.

Lemma process_record_rejected (cfg : Config) (now : Instant) (src : string)
    (S : Store) (raw : RawRecord) :
  accept cfg now src raw = None ->
  fst (process_record cfg now src S raw) = S /\
  forall sm, created (count (snd (process_record cfg now src S raw)) sm) = created sm.
Proof.
  unfold accept, process_record. destruct (normalize cfg src raw) as [d'|]; [|done].
  by destruct (validate cfg now d').
Qed.

Lemma batch_store (cfg : Config) (now : Instant) (src : string)
    (raws : list RawRecord) (acc : Store * Summary) :
  fst (fold_left (batch_step cfg now src) raws acc) =
  ingest cfg now (accepted cfg now src raws) (fst acc).
Proof.
  revert acc. induction raws as [|raw raws IH]; intros acc; simpl; [done|].
  rewrite IH. unfold batch_step.
  destruct (accept cfg now src raw) as [d|] eqn:E.
  - rewrite (process_record_accepted _ _ _ _ _ _ E). done.
  - destruct (process_record_rejected cfg now src (fst acc) raw E) as [H _].
    destruct (process_record _ _ _ _ _). simpl in *. by subst.
Qed.

Lemma processBatch_store (cfg : Config) (now : Instant) (src : string)
    (raws : list RawRecord) (S : Store) :
  fst (processBatch cfg now src raws S) = ingest cfg now (accepted cfg now src raws) S.
Proof. apply batch_store. Qed.

Lemma match_exact_kept (cfg : Config) (now : Instant) (S : Store) (d : Draft)
    (k : Hash) (i : EventId) :
  match_exact S k = Some i -> match_exact (apply_draft cfg now S d) k = Some i.
Proof.
  unfold match_exact, apply_draft. intros H.
  destruct (decide_draft cfg S d); simpl; try done; by apply find_signature_kept.
Qed.

(** A pass in which every accepted draft finds its exact key creates
    nothing. *)
Lemma batch_creates_nothing (cfg : Config) (now : Instant) (src : string)
    (raws : list RawRecord) (acc : Store * Summary) :
  (forall d, In d (accepted cfg now src raws) ->
     exists i, match_exact (fst acc) (exact_key cfg d) = Some i) ->
  created (snd (fold_left (batch_step cfg now src) raws acc)) = created (snd acc).
Proof.
  revert acc. induction raws as [|raw raws IH]; intros acc Hcov; simpl; [done|].
  unfold accepted in Hcov. simpl in Hcov.
  destruct (accept cfg now src raw) as [d|] eqn:E.
  - rewrite IH.
    + unfold batch_step. rewrite (process_record_accepted _ _ _ _ _ _ E).
      destruct (Hcov d) as [i Hi]; [by left|]. unfold decide_draft. by rewrite Hi.
    + intros d' Hd'. destruct (Hcov d') as [i Hi]; [by right|]. exists i.
      unfold batch_step. rewrite (process_record_accepted _ _ _ _ _ _ E). simpl.
      by apply match_exact_kept.
  - destruct (process_record_rejected cfg now src (fst acc) raw E) as [H1 H2].
    rewrite IH.
    + unfold batch_step. specialize (H2 (snd acc)).
      by destruct (process_record _ _ _ _ _).
    + unfold batch_step. destruct (process_record _ _ _ _ _). simpl in *. by subst.
Qed.


(* ===================================================================== *)
(** * Merging the same drafts again                                      *)
(* ===================================================================== *)

Lemma settle_confidence (f : Scalars) (d : Draft) :
  confidence (settle f d) = Z.max (confidence f) (confidence (d_fields d)).
Proof.
  unfold settle. destruct (Z.leb_spec (confidence f) (confidence (d_fields d))); simpl; lia.
Qed.

Lemma overwrite_self (f : Scalars) : overwrite f f = f.
Proof. by destruct f. Qed.

(** What is overwritten depends on the stored block through its pair
    only. *)
Lemma overwrite_ext (f g incoming : Scalars) :
  source f = source g -> source_id f = source_id g ->
  overwrite f incoming = overwrite g incoming.
Proof. intros H1 H2. unfold overwrite. by rewrite H1, H2. Qed.

Lemma settle_pair (f : Scalars) (d : Draft) :
  source (settle f d) = source f /\ source_id (settle f d) = source_id f.
Proof. unfold settle. by destruct (confidence f <=? confidence (d_fields d)). Qed.

Lemma fold_settle_pair (ds : list Draft) (f : Scalars) :
  source (fold_left settle ds f) = source f /\
  source_id (fold_left settle ds f) = source_id f.
Proof.
  revert f. induction ds as [|d ds IH]; intros f; simpl; [done|].
  destruct (IH (settle f d)) as [-> ->]. apply settle_pair.
Qed.

Lemma fold_settle_confidence (ds : list Draft) (f : Scalars) :
  List.Forall (fun d => confidence (d_fields d) <= confidence f) ds ->
  confidence (fold_left settle ds f) = confidence f.
Proof.
  revert f. induction ds as [|d ds IH]; intros f H; simpl; [done|].
  apply List.Forall_cons_iff in H as [Hd Hds].
  rewrite IH; rewrite settle_confidence; [lia|].
  eapply List.Forall_impl; [|exact Hds]. simpl. lia.
Qed.

Lemma settled_nil (f : Scalars) (t : gset string) : settled f t [].
Proof. by split. Qed.

Lemma settled_new (d : Draft) : settled (d_fields d) (d_tags d) [d].
Proof.
  split.
  - repeat constructor; [lia | done].
  - simpl. unfold settle. by rewrite Z.leb_refl, overwrite_self.
Qed.

Lemma settled_snoc (f : Scalars) (t : gset string) (ds : list Draft) (d : Draft) :
  settled f t ds -> settled (settle f d) (t ∪ d_tags d) (ds ++ [d]).
Proof.
  intros [Hall Hfix]. split.
  - apply List.Forall_app. split.
    + eapply List.Forall_impl; [|exact Hall]. simpl. intros d' [Hc Ht].
      rewrite settle_confidence. split; [lia | set_solver].
    + repeat constructor; [rewrite settle_confidence; lia | set_solver].
  - rewrite fold_left_app. simpl.
    destruct (Z.leb_spec (confidence f) (confidence (d_fields d))) as [Hle|Hlt].
    + assert (settle f d = overwrite f (d_fields d)) as ->.
      { unfold settle. apply Z.leb_le in Hle. by rewrite Hle. }
      unfold settle at 1. rewrite fold_settle_confidence.
      * simpl. rewrite Z.leb_refl.
        destruct (fold_settle_pair ds (overwrite f (d_fields d))) as [Hs Hi].
        by apply overwrite_ext.
      * eapply List.Forall_impl; [|exact Hall]. simpl. lia.
    + assert (settle f d = f) as Hkeep.
      { unfold settle. apply Z.leb_gt in Hlt. by rewrite Hlt. }
      by rewrite Hkeep, Hfix.
Qed.

Lemma fold_absorb_fields (cfg : Config) (now : Instant) (ds : list Draft) (e : Event) :
  fields (fold_left (fun e d => absorb cfg now d e) ds e) = fold_left settle ds (fields e).
Proof. revert e. induction ds as [|d ds IH]; intros e; simpl; [done|]. by rewrite IH. Qed.

Lemma fold_absorb_tags (cfg : Config) (now : Instant) (ds : list Draft) (e : Event) :
  List.Forall (fun d => d_tags d ⊆ tags e) ds ->
  tags (fold_left (fun e d => absorb cfg now d e) ds e) = tags e.
Proof.
  revert e. induction ds as [|d ds IH]; intros e H; simpl; [done|].
  apply List.Forall_cons_iff in H as [Hd Hds].
  assert (tags (absorb cfg now d e) = tags e) as Heq
    by (simpl; rewrite (comm_L (∪)); by apply subseteq_union_1_L).
  rewrite IH; [done|]. by rewrite Heq.
Qed.

Lemma fold_absorb_rest (cfg : Config) (now : Instant) (ds : list Draft) (e : Event) :
  let e' := fold_left (fun e d => absorb cfg now d e) ds e in
  ev_id e' = ev_id e /\ created_at e' = created_at e /\
  expires_at e' = expires_at e /\ embedding e' = embedding e.
Proof.
  revert e. induction ds as [|d ds IH]; intros e; simpl; [done|].
  destruct (IH (absorb cfg now d e)) as (-> & -> & -> & ->). done.
Qed.

(** An event that has settled the drafts aimed at it keeps its stable
    part when they are merged once more. *)
Lemma settled_stable (cfg : Config) (now : Instant) (ds : list Draft) (e : Event) :
  settled (fields e) (tags e) ds ->
  stable_part (fold_left (fun e d => absorb cfg now d e) ds e) = stable_part e.
Proof.
  intros [Hall Hfix]. unfold stable_part.
  destruct (fold_absorb_rest cfg now ds e) as (-> & -> & -> & ->).
  rewrite fold_absorb_fields, Hfix, fold_absorb_tags; [done|].
  eapply List.Forall_impl; [|exact Hall]. simpl. tauto.
Qed.

Lemma aimed_app (cfg : Config) (sigs : list (EventId * Hash)) (id : EventId)
    (ds ds' : list Draft) :
  aimed cfg sigs id (ds ++ ds') = aimed cfg sigs id ds ++ aimed cfg sigs id ds'.
Proof. apply List.filter_app. Qed.

Lemma aimed_ext (cfg : Config) (sigs sigs' : list (EventId * Hash)) (id : EventId)
    (ds : list Draft) :
  (forall d, In d ds ->
     find_signature sigs' (exact_key cfg d) = find_signature sigs (exact_key cfg d)) ->
  aimed cfg sigs' id ds = aimed cfg sigs id ds.
Proof. intros H. apply List.filter_ext_in. intros d Hd. by rewrite H. Qed.

Lemma aimed_single (cfg : Config) (sigs : list (EventId * Hash)) (id j : EventId) (d : Draft) :
  find_signature sigs (exact_key cfg d) = Some j ->
  aimed cfg sigs id [d] = if N.eqb j id then [d] else [].
Proof. intros H. unfold aimed. simpl. by rewrite H. Qed.

(** A pass over drafts whose keys are all attached leaves the signature
    table alone and replays, on each event, the drafts aimed at it. *)
Lemma ingest_covered (cfg : Config) (now : Instant) (ds : list Draft) (S : Store) :
  (forall d, In d ds -> exists i, find_signature (signatures S) (exact_key cfg d) = Some i) ->
  ingest cfg now ds S =
    mkStore (List.map (replay cfg now (signatures S) ds) (events S))
            (signatures S) (next_id S).
Proof.
  revert S. induction ds as [|d ds IH]; intros S Hcov; simpl.
  - destruct S as [es sigs n]. simpl. f_equal.
    rewrite <- (List.map_id es) at 1. by apply List.map_ext.
  - destruct (Hcov d) as [i Hi]; [by left|].
    assert (apply_draft cfg now S d =
            mkStore (List.map (fun e => if N.eqb (ev_id e) i then absorb cfg now d e else e)
                       (events S))
                    (signatures S) (next_id S)) as Hstep.
    { unfold apply_draft, decide_draft, match_exact. rewrite Hi. unfold merge_into.
      f_equal. by apply add_signature_present, find_signature_Some. }
    rewrite Hstep, IH; simpl.
    + f_equal. rewrite List.map_map. apply List.map_ext. intros e.
      unfold replay. simpl. rewrite Hi, (N.eqb_sym i).
      destruct (N.eqb (ev_id e) i); by simpl.
    + intros d' Hd'. apply Hcov. by right.
Qed.

Lemma absorbed_nil (cfg : Config) (S : Store) : absorbed cfg S [].
Proof. split; [by intros d [] | intros e _; apply settled_nil]. Qed.

Lemma absorbed_step (cfg : Config) (now : Instant) (S : Store) (ds : list Draft) (d : Draft) :
  wf_store S -> absorbed cfg S ds -> absorbed cfg (apply_draft cfg now S d) (ds ++ [d]).
Proof.
  intros Hwf [Hcov Hset]. unfold apply_draft.
  destruct (decide_draft cfg S d) as [|id|] eqn:Hdec;
    [| |by destruct (decide_never_discards cfg S d)].
  - (* a new event *)
    apply decide_new_cases in Hdec as [Hdec _]. unfold match_exact in Hdec.
    assert (find_signature (signatures (insert_new cfg now d S)) (exact_key cfg d)
            = Some (next_id S)) as Hd.
    { simpl. apply find_signature_added. by right. }
    assert (forall d', In d' ds ->
              find_signature (signatures (insert_new cfg now d S)) (exact_key cfg d')
              = find_signature (signatures S) (exact_key cfg d')) as Hold.
    { intros d' Hd'. destruct (Hcov d' Hd') as [i Hi]. rewrite Hi.
      simpl. by apply find_signature_kept. }
    split.
    + intros d' Hd'. apply in_app_iff in Hd' as [Hd'|[<-|[]]]; [|eauto].
      rewrite (Hold d' Hd'). by apply Hcov.
    + intros e He. simpl in He. apply in_app_iff in He as [He|[<-|[]]].
      * rewrite aimed_app, (aimed_ext _ _ _ _ _ Hold), (aimed_single _ _ _ _ _ Hd).
        pose proof (wf_fresh _ Hwf e He) as Hlt.
        destruct (N.eqb_spec (next_id S) (ev_id e)) as [Heq|_]; [lia|].
        rewrite app_nil_r. by apply Hset.
      * simpl. rewrite aimed_app, (aimed_ext _ _ _ _ _ Hold), (aimed_single _ _ _ _ _ Hd).
        rewrite N.eqb_refl.
        assert (aimed cfg (signatures S) (next_id S) ds = []) as ->.
        { unfold aimed. clear -Hcov Hwf.
          induction ds as [|d' ds IH]; simpl; [done|].
          destruct (Hcov d') as [i Hi]; [by left|]. rewrite Hi.
          apply find_signature_Some in Hi.
          destruct (wf_owner _ Hwf _ _ Hi) as [e [He <-]].
          pose proof (wf_fresh _ Hwf e He).
          destruct (N.eqb_spec (ev_id e) (next_id S)); [lia|].
          apply IH. intros d'' Hd''. apply Hcov. by right. }
        apply settled_new.
  - (* merged into an existing event *)
    destruct (decide_update_cases cfg S d id Hwf Hdec) as [Hid Hk].
    unfold match_exact in Hk.
    assert (find_signature (signatures (merge_into cfg now id d S)) (exact_key cfg d)
            = Some id) as Hd.
    { simpl. by apply find_signature_added. }
    assert (forall d', In d' ds ->
              find_signature (signatures (merge_into cfg now id d S)) (exact_key cfg d')
              = find_signature (signatures S) (exact_key cfg d')) as Hold.
    { intros d' Hd'. destruct (Hcov d' Hd') as [i Hi]. rewrite Hi.
      simpl. by apply find_signature_kept. }
    split.
    + intros d' Hd'. apply in_app_iff in Hd' as [Hd'|[<-|[]]]; [|eauto].
      rewrite (Hold d' Hd'). by apply Hcov.
    + intros e' He'. simpl in He'. apply in_map_iff in He' as [e [<- He]].
      assert (ev_id (if N.eqb (ev_id e) id then absorb cfg now d e else e) = ev_id e)
        as -> by (by destruct (N.eqb (ev_id e) id)).
      rewrite aimed_app, (aimed_ext _ _ _ _ _ Hold), (aimed_single _ _ _ _ _ Hd).
      rewrite (N.eqb_sym id).
      destruct (N.eqb (ev_id e) id).
      * apply settled_snoc. by apply Hset.
      * rewrite app_nil_r. by apply Hset.
Qed.

Lemma absorbed_ingest (cfg : Config) (now : Instant) (ds seen : list Draft) (S : Store) :
  wf_store S -> absorbed cfg S seen -> absorbed cfg (ingest cfg now ds S) (seen ++ ds).
Proof.
  revert S seen. induction ds as [|d ds IH]; intros S seen Hwf Habs; simpl.
  - by rewrite app_nil_r.
  - replace (seen ++ d :: ds) with ((seen ++ [d]) ++ ds) by (by rewrite <- app_assoc).
    apply IH; [by apply wf_apply_draft | by apply absorbed_step].
Qed.


Lemma wf_reachable (S : Store) : reachable S -> wf_store S.
Proof.
  induction 1 as [|cfg now src raws S _ IH|id S _ IH].
  - apply wf_empty.
  - rewrite processBatch_store. by apply wf_ingest.
  - by apply wf_delete.
Qed.

Lemma getEvent_Some (S : Store) (id : EventId) :
  In id (List.map ev_id (events S)) -> exists e, getEvent S id = Some e.
Proof.
  intros Hin. apply In_ids in Hin as [e [He Hid]]. unfold getEvent.
  destruct (List.find _ (events S)) as [e'|] eqn:E; [eauto|].
  pose proof (find_none _ _ E e He) as H. simpl in H.
  apply N.eqb_neq in H. done.
Qed.

Lemma getEvent_merged (cfg : Config) (now : Instant) (id : EventId) (d : Draft)
    (S : Store) (e : Event) :
  getEvent S id = Some e ->
  getEvent (merge_into cfg now id d S) id = Some (absorb cfg now d e).
Proof.
  unfold getEvent. simpl. induction (events S) as [|x xs IH]; simpl; [done|].
  destruct (N.eqb (ev_id x) id) eqn:E; simpl.
  - rewrite E. by intros [= ->].
  - by rewrite E.
Qed.

(** C3 as stated fails.  The batch with the one record "Jazz at Bird" is
    processed at noon and again a minute later: the second pass finds
    the exact key, treats the record as an update, bumps [updated_at]
    and appends the snapshot to the provenance history. *)
Lemma reingest_bumps_bookkeeping :
  let first := processBatch default_config june_first_noon "uitagenda-rotterdam"
                 [jazz_at_bird] empty_store in
  let second := processBatch default_config (june_first_noon + 60) "uitagenda-rotterdam"
                  [jazz_at_bird] (fst first) in
  snd first = mkSummary 1 0 0 0 /\
  snd second = mkSummary 0 1 0 0 /\
  List.map updated_at (events (fst first)) = [1717243200] /\
  List.map updated_at (events (fst second)) = [1717243260] /\
  List.map (fun e => length (raw_history e)) (events (fst first)) = [1%nat] /\
  List.map (fun e => length (raw_history e)) (events (fst second)) = [2%nat] /\
  events (fst second) <> events (fst first).
Proof.
  repeat split; by vm_compute.
Qed.

(** A second way in which a re-run differs: a record beyond the future
    horizon is dropped on the first pass and accepted, as a new event, a
    minute later. *)
Lemma reingest_after_horizon_moves :
  let first := processBatch default_config june_first_noon "uitagenda-rotterdam"
                 [far_ahead] empty_store in
  let second := processBatch default_config (june_first_noon + 60) "uitagenda-rotterdam"
                  [far_ahead] (fst first) in
  snd first = mkSummary 0 0 1 0 /\ snd second = mkSummary 1 0 0 0.
Proof. by vm_compute. Qed.

(** C3, amended.  When the records of the batch get the same verdicts
    from the Normalizer and the Validator on both passes, the second
    pass creates no event, leaves the signature table as it was (and
    free of duplicate rows), and leaves the identity, scalar fields,
    tags, creation time, expiry and embedding of every event unchanged.
    Only [updated_at] and the provenance history move. *)
Theorem reingest_changes_bookkeeping_only (cfg : Config) (src : string)
    (now1 now2 : Instant) (batch : list RawRecord) (S0 : Store) :
  reachable S0 ->
  accepted cfg now2 src batch = accepted cfg now1 src batch ->
  let first := processBatch cfg now1 src batch S0 in
  let second := processBatch cfg now2 src batch (fst first) in
  created (snd second) = 0%nat /\
  signatures (fst second) = signatures (fst first) /\
  List.NoDup (signatures (fst second)) /\
  List.map stable_part (events (fst second)) = List.map stable_part (events (fst first)).
Proof.
  intros Hreach Hsame first second.
  pose proof (wf_reachable _ Hreach) as Hwf0.
  assert (fst first = ingest cfg now1 (accepted cfg now1 src batch) S0) as Hfirst
    by apply processBatch_store.
  assert (wf_store (fst first)) as Hwf1 by (rewrite Hfirst; by apply wf_ingest).
  assert (absorbed cfg (fst first) (accepted cfg now1 src batch)) as [Hcov Hset].
  { rewrite Hfirst. apply (absorbed_ingest cfg now1 _ [] S0 Hwf0), absorbed_nil. }
  assert (fst second =
            mkStore (List.map (replay cfg now2 (signatures (fst first))
                                 (accepted cfg now1 src batch)) (events (fst first)))
                    (signatures (fst first)) (next_id (fst first))) as Hsecond.
  { unfold second. rewrite processBatch_store, Hsame. by apply ingest_covered. }
  split; [|split; [|split]].
  - unfold second, processBatch.
    rewrite batch_creates_nothing; [done|]. rewrite Hsame. exact Hcov.
  - by rewrite Hsecond.
  - rewrite Hsecond. simpl. apply (wf_rows _ Hwf1).
  - rewrite Hsecond. simpl. rewrite List.map_map. apply List.map_ext_in.
    intros e He. unfold replay. apply settled_stable. by apply Hset.
Qed.

Lemma reingest_changes_bookkeeping_only_witness :
  let first := processBatch default_config june_first_noon "uitagenda-rotterdam"
                 [jazz_at_bird; jazz_at_sign_bird] empty_store in
  let second := processBatch default_config (june_first_noon + 60) "uitagenda-rotterdam"
                  [jazz_at_bird; jazz_at_sign_bird] (fst first) in
  created (snd second) = 0%nat /\
  signatures (fst second) = signatures (fst first) /\
  List.NoDup (signatures (fst second)) /\
  List.map stable_part (events (fst second)) = List.map stable_part (events (fst first)).
Proof.
  apply (reingest_changes_bookkeeping_only default_config "uitagenda-rotterdam"
           june_first_noon (june_first_noon + 60) [jazz_at_bird; jazz_at_sign_bird] empty_store).
  - apply reach_empty.
  - by vm_compute.
Defined.

Lemma omap_cons {A B} (f : A -> option B) (x : A) (l : list A) :
  omap f (x :: l) = match f x with Some y => y :: omap f l | None => omap f l end.
Proof. reflexivity. Qed.










Lemma getEvent_unique (S : Store) (id : EventId) (e e' : Event) :
  List.NoDup (List.map ev_id (events S)) ->
  getEvent S id = Some e -> In e' (events S) -> ev_id e' = id -> e' = e.
Proof.
  unfold getEvent. induction (events S) as [|a es IH]; simpl; [done|].
  intros Hnd Hfind Hin Hid. apply List.NoDup_cons_iff in Hnd as [Hnot Hnd].
  destruct (N.eqb_spec (ev_id a) id) as [Ha|Ha].
  - injection Hfind as <-. destruct Hin as [<-|Hin]; [done|].
    destruct Hnot. apply in_map_iff. exists e'. split; [congruence|done].
  - destruct Hin as [<-|Hin]; [done|]. by apply IH.
Qed.

(** In every reachable store each exact key is attached to at most one
    event and event ids are unique; a candidate that the Deduplicator
    matches with an event is merged into that event in place: the events
    keep their ids and none is added. *)
Lemma one_event_per_exact_key (S : Store) :
  reachable S ->
  keys_unique (signatures S) /\
  List.NoDup (List.map ev_id (events S)) /\
  forall cfg now d id,
    decide_draft cfg S d = UpdateExisting id ->
    List.map ev_id (events (apply_draft cfg now S d)) = List.map ev_id (events S) /\
    match_exact (apply_draft cfg now S d) (exact_key cfg d) = Some id /\
    exists e, getEvent S id = Some e /\
              getEvent (apply_draft cfg now S d) id = Some (absorb cfg now d e).
Proof.
  intros Hreach. pose proof (wf_reachable _ Hreach) as Hwf.
  split; [apply (wf_keys _ Hwf)|]. split; [apply (wf_ids _ Hwf)|].
  intros cfg now d id Hdec.
  destruct (decide_update_cases cfg S d id Hwf Hdec) as [Hid Hk].
  unfold apply_draft. rewrite Hdec. split; [apply merge_into_ids|]. split.
  - unfold match_exact. simpl. by apply find_signature_added.
  - destruct (getEvent_Some S id Hid) as [e He]. exists e. split; [done|].
    by apply getEvent_merged.
Qed.

(** The listing rot-2 and a listing that reuses the id rot-2 with
    another title, start and venue: neither the exact key nor the fuzzy
    match relates them, the pair does, and the second listing overwrites
    the one event in place. *)
Example relisting_overwrites_in_place :
  List.map (fun e => (ev_id e, native_pair (fields e), title (fields e),
                      length (raw_history e)))
    (events rot2_store) =
    [ (0%N, Some ("uitagenda-rotterdam", "rot-2"), "Techno Bunker Night", 2%nat) ] /\
  length (signatures rot2_store) = 2%nat /\
  snd (processBatch default_config june_first_noon "uitagenda-rotterdam"
         [listing_rot2; relisted_rot2] empty_store) = mkSummary 1 1 0 0.
Proof. repeat split; by vm_compute. Qed.










End Reconciliation.

(* ===================================================================== *)
(** * Ranking of the hybrid search                                       *)
(* ===================================================================== *)

Section Ranking.
Import Core.

Lemma ranks_before_spec (a b : Hit) :
  ranks_before a b = true <-> listed_before a b.
Proof.
  unfold ranks_before, listed_before.
  destruct (Qcompare_spec (hit_score b) (hit_score a)) as [Heq|Hlt|Hgt].
  - rewrite N.leb_le. split.
    + intros H. right. split; [by symmetry | done].
    + intros [H|[_ H]]; [|done]. rewrite Heq in H. by apply Qlt_irrefl in H.
  - split; [by left | done].
  - split; [done|]. intros [H|[H _]].
    + exfalso. apply (Qlt_irrefl (hit_score a)). by apply (Qlt_trans _ (hit_score b)).
    + rewrite H in Hgt. by apply Qlt_irrefl in Hgt.
Qed.

Lemma ranks_before_total (a b : Hit) :
  ranks_before a b = true \/ ranks_before b a = true.
Proof.
  rewrite !ranks_before_spec. unfold listed_before.
  destruct (Q_dec (hit_score a) (hit_score b)) as [[H|H]|H].
  - right. by left.
  - left. by left.
  - destruct (N.le_ge_cases (ev_id (hit_event a)) (ev_id (hit_event b))).
    + left. right. done.
    + right. right. split; [by symmetry | done].
Qed.

Lemma listed_before_trans (a b c : Hit) :
  listed_before a b -> listed_before b c -> listed_before a c.
Proof.
  unfold listed_before. intros [H1|[H1 I1]] [H2|[H2 I2]].
  - left. by apply (Qlt_trans _ (hit_score b)).
  - left. by rewrite <- H2.
  - left. by rewrite H1.
  - right. split; [by rewrite H1 | lia].
Qed.

Lemma insert_hit_perm (h : Hit) (l : list Hit) : Permutation (insert_hit h l) (h :: l).
Proof.
  induction l as [|x l IH]; simpl; [done|].
  destruct (ranks_before h x); [done|].
  rewrite IH. apply perm_swap.
Qed.

Lemma rank_perm (l : list Hit) : Permutation (rank l) l.
Proof.
  induction l as [|h l IH]; simpl; [done|].
  rewrite insert_hit_perm. by constructor.
Qed.

Lemma insert_hit_sorted (h : Hit) (l : list Hit) :
  StronglySorted listed_before l -> StronglySorted listed_before (insert_hit h l).
Proof.
  induction 1 as [|x l Hl IH Hx]; simpl.
  - repeat constructor.
  - destruct (ranks_before h x) eqn:E.
    + apply ranks_before_spec in E. constructor; [by constructor|].
      constructor; [done|].
      eapply List.Forall_impl; [|exact Hx]. intros y. by apply listed_before_trans.
    + constructor; [done|].
      assert (listed_before x h) as Hxh.
      { destruct (ranks_before_total h x) as [H|H]; [congruence|].
        by apply ranks_before_spec. }
      eapply Permutation_Forall; [symmetry; apply insert_hit_perm|].
      by constructor.
Qed.

Lemma rank_sorted (l : list Hit) : StronglySorted listed_before (rank l).
Proof.
  induction l as [|h l IH]; simpl; [constructor | by apply insert_hit_sorted].
Qed.

Lemma sorted_app (l1 l2 : list Hit) :
  StronglySorted listed_before (l1 ++ l2) ->
  StronglySorted listed_before l1 /\
  forall a b, In a l1 -> In b l2 -> listed_before a b.
Proof.
  induction l1 as [|x l1 IH]; simpl; intros H.
  - split; [constructor | by intros a b []].
  - apply StronglySorted_inv in H as [H Hx]. destruct (IH H) as [IH1 IH2].
    apply List.Forall_app in Hx as [Hx1 Hx2]. split; [by constructor|].
    intros a b [<-|Ha] Hb; [|by apply IH2].
    by apply (proj1 (List.Forall_forall _ _) Hx2).
Qed.

Lemma In_candidates (sc : SearchConfig) (co : Collaborators) (S : Store)
    (query : string) (fl : Filters) (c : Hit) :
  In c (candidates sc co S query fl) ->
  getEvent S (ev_id (hit_event c)) = Some (hit_event c) /\
  final_pass fl (hit_event c) = true /\
  hit_score c = combined sc (fst (fst (sub_searches sc co query fl)))
                            (snd (fst (sub_searches sc co query fl)))
                            (ev_id (hit_event c)).
Proof.
  unfold candidates. destruct (sub_searches sc co query fl) as [[lex vec] dg]. simpl.
  intros Hin. apply list_elem_of_In, list_elem_of_omap in Hin as [id [_ Hid]].
  destruct (getEvent S id) as [e|] eqn:E; simpl in Hid; [|done].
  destruct (final_pass fl e) eqn:F; [|done]. injection Hid as <-. simpl.
  assert (ev_id e = id) as Heq.
  { unfold getEvent in E. apply find_some in E as [_ E]. by apply N.eqb_eq in E. }
  rewrite Heq. done.
Qed.

Lemma hits_are_candidates (sc : SearchConfig) (co : Collaborators) (S : Store)
    (query : string) (fl : Filters) (limit : nat) (h : Hit) :
  In h (hits (search sc co S query fl limit)) -> In h (candidates sc co S query fl).
Proof.
  simpl. intros Hh. apply (Permutation_in _ (rank_perm _)).
  rewrite <- (firstn_skipn limit (rank _)). apply in_app_iff. by left.
Qed.

(** The score an event has in a normalised result list is the
    normalised score it has in the list. *)
Lemma score_of_normalised (sc : SearchConfig) (l : list (EventId * Q)) (id : EventId) :
  score_of (normalised sc l) id = normalise sc (List.map snd l) <$> score_of l id.
Proof.
  unfold score_of, normalised. generalize (normalise sc (List.map snd l)). intros f.
  induction l as [|p l IH]; simpl; [done|].
  destruct (N.eqb (fst p) id); [done|]. apply IH.
Qed.

Lemma normalised_ids (sc : SearchConfig) (l : list (EventId * Q)) :
  List.map fst (normalised sc l) = List.map fst l.
Proof. unfold normalised. rewrite List.map_map. by apply List.map_ext. Qed.

Lemma getEvent_id (S : Store) (id : EventId) (e : Event) :
  getEvent S id = Some e -> ev_id e = id.
Proof. unfold getEvent. intros H. apply find_some in H as [_ H]. by apply N.eqb_eq in H. Qed.

(** The candidates are exactly the stored events that a sub-search
    listed and that pass the final filters, each with its combined
    score. *)
Lemma candidates_spec (sc : SearchConfig) (co : Collaborators) (S : Store)
    (query : string) (fl : Filters) (c : Hit) :
  In c (candidates sc co S query fl) <->
  (In (ev_id (hit_event c)) (List.map fst (fst (fst (sub_searches sc co query fl)))) \/
   In (ev_id (hit_event c)) (List.map fst (snd (fst (sub_searches sc co query fl))))) /\
  getEvent S (ev_id (hit_event c)) = Some (hit_event c) /\
  final_pass fl (hit_event c) = true /\
  hit_score c = combined sc (fst (fst (sub_searches sc co query fl)))
                            (snd (fst (sub_searches sc co query fl)))
                            (ev_id (hit_event c)).
Proof.
  unfold candidates. destruct (sub_searches sc co query fl) as [[lex vec] dg]. simpl.
  rewrite <- list_elem_of_In, list_elem_of_omap. split.
  - intros (id & Hid & Hc). apply list_elem_of_In, nodup_In, in_app_iff in Hid.
    destruct (getEvent S id) as [e|] eqn:E; simpl in Hc; [|done].
    destruct (final_pass fl e) eqn:F; [|done]. injection Hc as <-. simpl.
    by rewrite (getEvent_id _ _ _ E).
  - intros (Hid & He & Hf & Hs). exists (ev_id (hit_event c)). split.
    + by apply list_elem_of_In, nodup_In, in_app_iff.
    + rewrite He. simpl. rewrite Hf. f_equal. destruct c as [e q]. simpl in *. by subst.
Qed.

(** No event is a candidate twice. *)
Lemma candidates_distinct (sc : SearchConfig) (co : Collaborators) (S : Store)
    (query : string) (fl : Filters) :
  List.NoDup (List.map (fun c => ev_id (hit_event c)) (candidates sc co S query fl)).
Proof.
  unfold candidates. destruct (sub_searches sc co query fl) as [[lex vec] dg].
  pose proof (NoDup_nodup N.eq_dec (List.map fst lex ++ List.map fst vec)) as Hnd.
  induction (nodup N.eq_dec (List.map fst lex ++ List.map fst vec)) as [|id ids IH];
    [constructor|].
  apply List.NoDup_cons_iff in Hnd as [Hnot Hnd]. rewrite omap_cons.
  destruct (getEvent S id) as [e|] eqn:E; simpl; [|by apply IH].
  destruct (final_pass fl e); [|by apply IH].
  simpl. constructor; [|by apply IH].
  rewrite (getEvent_id _ _ _ E). intros Hin. apply Hnot.
  apply in_map_iff in Hin as (c & Hc & Hin).
  apply list_elem_of_In, list_elem_of_omap in Hin as (id' & Hid' & Hc').
  destruct (getEvent S id') as [e'|] eqn:E'; simpl in Hc'; [|done].
  destruct (final_pass fl e'); [|done]. injection Hc' as <-. simpl in Hc.
  rewrite (getEvent_id _ _ _ E') in Hc. subst id'. by apply list_elem_of_In.
Qed.

Lemma NoDup_firstn {A} (n : nat) (l : list A) : List.NoDup l -> List.NoDup (firstn n l).
Proof.
  revert n; induction l as [|x l IH]; intros [|n] H; simpl; try constructor.
  - apply List.NoDup_cons_iff in H as [Hnot _]. intros Hin. apply Hnot.
    rewrite <- (firstn_skipn n l). apply in_app_iff. by left.
  - apply IH. by apply List.NoDup_cons_iff in H as [_ H].
Qed.

(** C5.  For every query and limit N: the candidates are the stored
    events that the lexical or the vector search listed and that pass
    the final filters, each once, scored with the weighted sum of its
    normalised lexical and vector scores, a signal that did not list the
    event counting zero.  The result list has min(N, number of
    candidates) entries; it is a selection of the candidates in which no
    event occurs twice; it is ordered by decreasing combined score and,
    among equal scores, by increasing event id; and every candidate left
    out is ranked after every entry returned. *)
Theorem search_returns_top_n (sc : SearchConfig) (co : Collaborators) (S : Store)
    (query : string) (fl : Filters) (limit : nat) :
  let r := search sc co S query fl limit in
  let pool := candidates sc co S query fl in
  let lex := firstn (k_text sc) (lexical_search co query fl (k_text sc)) in
  let vec := firstn (k_vector sc)
               (default [] (embed co query ≫=
                              (fun v => vector_search co v fl (k_vector sc)))) in
  let signal := fun (l : list (EventId * Q)) (id : EventId) =>
                  default 0%Q (normalise sc (List.map snd l) <$> score_of l id) in
  (forall c, In c pool <->
     (In (ev_id (hit_event c)) (List.map fst lex) \/
      In (ev_id (hit_event c)) (List.map fst vec)) /\
     getEvent S (ev_id (hit_event c)) = Some (hit_event c) /\
     final_pass fl (hit_event c) = true /\
     hit_score c = (weight_lexical sc * signal lex (ev_id (hit_event c)) +
                    weight_vector sc * signal vec (ev_id (hit_event c)))%Q) /\
  List.NoDup (List.map (fun c => ev_id (hit_event c)) pool) /\
  length (hits r) = Nat.min limit (length pool) /\
  (exists rest, Permutation (hits r ++ rest) pool) /\
  List.NoDup (List.map (fun c => ev_id (hit_event c)) (hits r)) /\
  StronglySorted
    (fun a b =>
       (hit_score b < hit_score a)%Q \/
       ((hit_score a == hit_score b)%Q /\ (ev_id (hit_event a) <= ev_id (hit_event b))%N))
    (hits r) /\
  (forall h c, In h (hits r) -> In c pool -> ~ In c (hits r) ->
     (hit_score c < hit_score h)%Q \/
     ((hit_score h == hit_score c)%Q /\ (ev_id (hit_event h) <= ev_id (hit_event c))%N)).
Proof.
  intros r pool lex vec signal. subst r. unfold search. simpl. fold pool.
  pose proof (rank_sorted pool) as Hsorted.
  rewrite <- (firstn_skipn limit (rank pool)) in Hsorted.
  apply sorted_app in Hsorted as [Hfirst Hrest].
  pose proof (candidates_distinct sc co S query fl) as Hdistinct. fold pool in Hdistinct.
  split; [|split; [done|split; [|split; [|split; [|split]]]]].
  - intros c. unfold pool. rewrite candidates_spec.
    unfold sub_searches. cbn [fst snd]. rewrite !normalised_ids.
    unfold combined. rewrite !score_of_normalised. done.
  - rewrite length_firstn. by rewrite (Permutation_length (rank_perm pool)).
  - exists (skipn limit (rank pool)). rewrite firstn_skipn. apply rank_perm.
  - rewrite <- List.firstn_map. apply NoDup_firstn.
    eapply Permutation_NoDup; [|exact Hdistinct].
    apply Permutation_map. symmetry. apply rank_perm.
  - exact Hfirst.
  - intros h c Hh Hc Hout. apply Hrest; [done|].
    apply (Permutation_in _ (Permutation_sym (rank_perm pool))) in Hc.
    rewrite <- (firstn_skipn limit (rank pool)) in Hc.
    apply in_app_iff in Hc as [Hc|Hc]; [by destruct Hout | done].
Qed.

(** The degraded-mode flag is raised exactly when the embedding or the
    vector search is unavailable; the candidates are then scored on the
    lexical signal alone. *)
Lemma search_degraded (sc : SearchConfig) (co : Collaborators) (S : Store)
    (query : string) (fl : Filters) (limit : nat) :
  embed co query ≫= (fun v => vector_search co v fl (k_vector sc)) = None ->
  degraded (search sc co S query fl limit) = true /\
  forall h, In h (hits (search sc co S query fl limit)) ->
    (hit_score h ==
       weight_lexical sc *
       default 0%Q (score_of (fst (fst (sub_searches sc co query fl)))
                             (ev_id (hit_event h))))%Q.
Proof.
  intros Hdown. split.
  - unfold search, sub_searches. simpl. by rewrite Hdown.
  - intros h Hh. apply hits_are_candidates, In_candidates in Hh as (_ & _ & ->).
    unfold combined, sub_searches. simpl. rewrite Hdown. simpl.
    rewrite firstn_nil. simpl. unfold score_of. simpl. ring.
Qed.

Example search_toy_index :
  List.map (fun h => (ev_id (hit_event h), hit_score h))
    (hits (search default_search_config (toy_index true) three_events "jazz" no_filters 2))
  = [ (0%N, 24 # 32); (1%N, 24 # 32) ]%Q /\
  search default_search_config (toy_index false) three_events "jazz" no_filters 1
  = mkSearchResult
      (firstn 1 (rank (candidates default_search_config (toy_index false) three_events
                         "jazz" no_filters)))
      true.
Proof. split; by vm_compute. Qed.

End Ranking.

(* ===================================================================== *)
(** * White space, lower case and decimal text                         *)
(* ===================================================================== *)

Section Primitives.

(** ** [trim] *)

Lemma trimStart_unfold (s : string) :
  JS.trimStart s =
    match JS.afterWhiteSpace s with Some r => JS.trimStart r | None => s end.
Proof.
  destruct s as [|a r1]; [done|]. unfold JS.afterWhiteSpace. simpl.
  destruct (JS.isWhiteSpace1 a); [done|]. destruct r1 as [|b r2]; [done|].
  destruct (JS.isWhiteSpace2 a b); [done|]. destruct r2 as [|c r3]; [done|].
  by destruct (JS.isWhiteSpace3 a b c).
Qed.

Lemma afterWhiteSpace_shorter (s r : string) :
  JS.afterWhiteSpace s = Some r -> (String.length r < String.length s)%nat.
Proof.
  destruct s as [|a [|b [|c t]]]; unfold JS.afterWhiteSpace;
    repeat case_match; intros [= <-]; simpl; lia.
Qed.



Lemma trimStart_idem (s : string) : JS.trimStart (JS.trimStart s) = JS.trimStart s.
Proof.
  remember (String.length s) as n eqn:Hn. revert s Hn.
  induction n as [n IH] using lt_wf_ind. intros s ->.
  rewrite (trimStart_unfold s). destruct (JS.afterWhiteSpace s) as [r|] eqn:E.
  - apply (IH _ (afterWhiteSpace_shorter _ _ E) r eq_refl).
  - rewrite trimStart_unfold. by rewrite E.
Qed.

Lemma blank_trimStart (s : string) : JS.blank s = true <-> JS.trimStart s = EmptyString.
Proof. unfold JS.blank. by destruct (JS.trimStart s). Qed.


Lemma trimEnd_blank (s : string) :
  JS.trimEnd s = EmptyString <-> JS.blank s = true.
Proof.
  destruct s as [|a r]; [done|]. cbn [JS.trimEnd].
  by destruct (JS.blank (String a r)).
Qed.


Lemma trim_empty_iff (s : string) :
  JS.truthy (JS.trim s) = false <-> JS.blank s = true.
Proof.
  unfold JS.trim.
  assert (JS.truthy (JS.trimEnd (JS.trimStart s)) = false <->
          JS.trimEnd (JS.trimStart s) = EmptyString) as ->
    by (by destruct (JS.trimEnd _)).
  rewrite trimEnd_blank, !blank_trimStart. by rewrite trimStart_idem.
Qed.




(** A string that starts with an ASCII character other than white space
    is left alone by [trimStart]. *)
Lemma trimStart_ascii (a : ascii) (r : string) :
  (JS.byteOf a <? 128)%N = true -> JS.isWhiteSpace1 a = false ->
  JS.trimStart (String a r) = String a r.
Proof.
  intros Ha Hw. rewrite trimStart_unfold.
  assert (JS.afterWhiteSpace (String a r) = None) as ->; [|done].
  apply N.ltb_lt in Ha.
  unfold JS.afterWhiteSpace, JS.isWhiteSpace2, JS.isWhiteSpace3. rewrite Hw.
  destruct r as [|b [|c r]]; try done.
  - destruct (N.eqb_spec (JS.byteOf a) 194); [lia|done].
  - destruct (N.eqb_spec (JS.byteOf a) 194); [lia|]. simpl.
    repeat match goal with
           | |- context [(JS.byteOf a =? ?k)%N] =>
               destruct (N.eqb_spec (JS.byteOf a) k); [lia|]
           end.
    done.
Qed.

(** ** [toLowerCase] *)




(** ** [length] and [substring] *)

Lemma length_append (a b : string) :
  JS.length (a +:+ b) = (JS.length a + JS.length b)%nat.
Proof. induction a as [|c a IH]; simpl; [done|]. rewrite IH. lia. Qed.

Lemma continuation_byte (x : N) : JS.isContinuation (ascii_of_N (128 + x mod 64)) = true.
Proof.
  unfold JS.isContinuation, JS.byteOf.
  pose proof (N.mod_lt x 64 ltac:(done)) as H.
  set (m := (x mod 64)%N) in *. clearbody m.
  rewrite N_ascii_embedding by lia.
  apply andb_true_iff. split; [apply N.leb_le | apply N.ltb_lt]; lia.
Qed.

Lemma three_byte_lead (x : N) : JS.codeUnits (ascii_of_N (224 + x mod 16)) = 1%nat.
Proof.
  unfold JS.codeUnits, JS.isContinuation, JS.byteOf.
  pose proof (N.mod_lt x 16 ltac:(done)) as H.
  set (m := (x mod 16)%N) in *. clearbody m.
  rewrite N_ascii_embedding by lia.
  destruct (N.ltb_spec (224 + m) 192); [lia|]. rewrite andb_false_r.
  destruct (N.leb_spec 240 (224 + m)); [lia|done].
Qed.

Lemma length_highSurrogate (a : ascii) (r : string) :
  JS.length (JS.highSurrogate a r) = 1%nat.
Proof.
  unfold JS.highSurrogate. destruct (match r with EmptyString => _ | _ => _ end) as [y z].
  cbv zeta. cbn [JS.length]. rewrite three_byte_lead.
  unfold JS.codeUnits. by rewrite !continuation_byte.
Qed.

Lemma codeUnits_cases (a : ascii) :
  (JS.isContinuation a = true /\ JS.codeUnits a = 0%nat) \/
  (JS.isContinuation a = false /\ (JS.codeUnits a = 1%nat \/ JS.codeUnits a = 2%nat)).
Proof.
  unfold JS.codeUnits. destruct (JS.isContinuation a); [by left|right].
  split; [done|]. destruct (240 <=? JS.byteOf a)%N; tauto.
Qed.

Lemma length_substring0 (n : nat) (s : string) :
  JS.length (JS.substring0 n s) = (n `min` JS.length s)%nat.
Proof.
  revert n; induction s as [|a r IH]; intros n; cbn [JS.substring0 JS.length]; [lia|].
  destruct (codeUnits_cases a) as [[-> Hu]|[-> Hu]].
  - cbn [JS.length]. rewrite IH, Hu. lia.
  - destruct (Nat.leb_spec (JS.codeUnits a) n) as [Hle|Hgt].
    + cbn [JS.length]. rewrite IH. lia.
    + destruct (Nat.eqb_spec n 1) as [->|Hne].
      * rewrite length_highSurrogate. lia.
      * simpl. lia.
Qed.

Lemma substring0_whole (n : nat) (s : string) :
  (JS.length s <= n)%nat -> JS.substring0 n s = s.
Proof.
  revert n; induction s as [|a r IH]; intros n H; cbn [JS.substring0 JS.length] in *; [done|].
  destruct (codeUnits_cases a) as [[-> Hu]|[-> Hu]].
  - rewrite IH; [done|lia].
  - destruct (Nat.leb_spec (JS.codeUnits a) n) as [Hle|Hgt]; [|lia].
    rewrite IH; [done|lia].
Qed.

Lemma substring0_append (n : nat) (x t : string) :
  (JS.length x <= n)%nat ->
  JS.substring0 n (x +:+ t) = x +:+ JS.substring0 (n - JS.length x) t.
Proof.
  revert n; induction x as [|a r IH]; intros n H; cbn [JS.length] in *.
  - simpl. by rewrite Nat.sub_0_r.
  - change (String a r +:+ t) with (String a (r +:+ t)). cbn [JS.substring0].
    destruct (codeUnits_cases a) as [[-> Hu]|[-> Hu]].
    + rewrite IH by lia. rewrite Hu. done.
    + destruct (Nat.leb_spec (JS.codeUnits a) n) as [Hle|Hgt]; [|lia].
      rewrite IH by lia.
      change (String a r +:+ ?y) with (String a (r +:+ y)).
      do 3 f_equal. lia.
Qed.

(** ** Examples *)

(** Lower case beyond ASCII: the Kelvin sign becomes k, capital I with
    dot above becomes i and a combining dot, capital sigma becomes the
    final sigma at the end of a word. *)
Example toLowerCase_examples :
  JS.toLowerCase "Sunday WALK in RoTTerdam" = "sunday walk in rotterdam" /\
  JS.toLowerCase (JS.fromCodePoints [87; 65; 76; 8490]%N) = "walk" /\
  JS.toLowerCase "ÉMILE@EXAMPLE.COM" = "émile@example.com" /\
  JS.codePoints (JS.toLowerCase (JS.fromCodePoints [304; 83]%N)) = [105; 775; 115]%N /\
  JS.codePoints (JS.toLowerCase (JS.fromCodePoints [927; 916; 927; 931; 32; 931; 913; 931]%N))
    = [959; 948; 959; 962; 32; 963; 945; 962]%N.
Proof. repeat split; by vm_compute. Qed.

(** White space beyond ASCII: a no-break space, an em space, a narrow
    no-break space and a byte order mark are trimmed; a zero width space
    is not white space. *)
Example trim_examples :
  JS.trim (JS.fromCodePoints [160; 8195; 72; 105; 32; 33; 8239; 65279; 10]%N) = "Hi !" /\
  JS.blank (JS.fromCodePoints [160]%N) = true /\
  JS.blank (JS.fromCodePoints [8203]%N) = false /\
  JS.trim "  free events " = "free events".
Proof. repeat split; by vm_compute. Qed.

(** Lengths are counted in UTF-16 code units, not in bytes, and a cut
    inside a surrogate pair keeps the high surrogate. *)
Example length_examples :
  JS.length "Café" = 4%nat /\ String.length "Café" = 5%nat /\
  JS.length (JS.fromCodePoints [128512]%N) = 2%nat /\
  JS.substring0 3 "Café au lait" = "Caf" /\
  JS.substring0 4 "Café au lait" = "Café" /\
  JS.codePoints (JS.substring0 2 (JS.fromCodePoints [97; 128512; 98]%N)) = [97; 55357]%N.
Proof. repeat split; by vm_compute. Qed.

(** ** [parseInt] after [toString] *)

Ltac read_digit :=
  cbn [NilEmpty.string_of_uint JS.parseDigits Pos.of_uint_acc Pos.of_uint];
  match goal with
  | |- context [JS.digitValue ?c] =>
      let v := eval vm_compute in (JS.digitValue c) in
      change (JS.digitValue c) with v
  end;
  cbv iota beta;
  match goal with
  | |- context [?a <? 10] => change (a <? 10) with true
  end;
  cbv iota.

Lemma parseDigits_of_uint_acc (d : Decimal.uint) (acc : positive) :
  JS.parseDigits 10 (NilEmpty.string_of_uint d) (Some (Z.pos acc)) =
  Some (Z.pos (Pos.of_uint_acc d acc)).
Proof.
  revert acc; induction d; intros acc; [done|..];
    read_digit; rewrite <- IHd; do 2 f_equal; simpl; lia.
Qed.

Lemma parseDigits_of_uint (d : Decimal.uint) (acc : option Z) :
  d <> Decimal.Nil -> default 0 acc = 0 ->
  JS.parseDigits 10 (NilEmpty.string_of_uint d) acc = Some (Z.of_uint d).
Proof.
  revert acc; induction d; intros acc Hd Hacc; [done|..];
    unfold Z.of_uint; read_digit; rewrite Hacc;
    try (change (0 * 10 + ?k) with k; simpl Z.of_N; apply parseDigits_of_uint_acc).
  destruct d; [done|..]; by apply IHd.
Qed.

Lemma digits_head (d : Decimal.uint) :
  let s := NilZero.string_of_uint d in
  JS.trimStart s = s /\
  JS.startsWith s "-" = false /\ JS.startsWith s "+" = false /\
  JS.startsWith s "0x" = false /\ JS.startsWith s "0X" = false.
Proof.
  intros s; subst s.
  destruct d; try destruct d; cbn [NilZero.string_of_uint NilEmpty.string_of_uint];
    (split; [by apply trimStart_ascii|]); repeat split; reflexivity.
Qed.

Lemma digits_NilZero (d : Decimal.uint) :
  JS.parseDigits 10 (NilZero.string_of_uint d) None = Some (Z.of_uint d).
Proof.
  destruct d; [done|..]; by apply parseDigits_of_uint.
Qed.

Lemma parseInt_numberToString (n : Z) : JS.parseInt (JS.numberToString n) = Some n.
Proof.
  unfold JS.numberToString.
  rewrite <- (DecimalZ.of_to n) at 2.
  destruct (Z.to_int n) as [d|d]; simpl NilZero.string_of_int; simpl Z.of_int;
    destruct (digits_head d) as (Ht & Hm & Hp & Hx & HX);
    pose proof (digits_NilZero d) as Hd; unfold JS.parseInt.
  - rewrite Ht, Hm, Hp. cbn [orb]. rewrite Hx, HX. simpl. rewrite Hd.
    cbn [fmap option_fmap option_map]. f_equal; lia.
  - rewrite (trimStart_ascii "-") by reflexivity.
    change (JS.startsWith (String "-" ?s) "-") with true.
    change (JS.startsWith (String "-" ?s) "+") with false.
    cbn [orb JS.substringFrom]. rewrite Hx, HX. simpl. rewrite Hd.
    cbn [fmap option_fmap option_map]. f_equal; lia.
Qed.

Lemma numberToString_inj (n m : Z) :
  JS.numberToString n = JS.numberToString m -> n = m.
Proof.
  intros H. apply (f_equal JS.parseInt) in H.
  rewrite !parseInt_numberToString in H. congruence.
Qed.

End Primitives.

(* ===================================================================== *)
(** * The server action, for every input                               *)
(* ===================================================================== *)

Section ActionAsAWhole.
Import Web.

(** [toolParams.location] is set in the Ticketmaster branch only. *)
Lemma location_unset_elsewhere (l : string) :
  fst (detectTool l) <> "get_ticketmaster_events" ->
  tp_location (snd (detectTool l)) = None.
Proof.
  unfold detectTool.
  repeat match goal with
         | |- context [if ?b then _ else _] => destruct b eqn:?; simpl; try done
         end.
Qed.

Lemma location_by_tool (l : string) :
  tp_location (snd (detectTool l)) =
    if String.eqb (fst (detectTool l)) "get_ticketmaster_events"
    then Some "Amsterdam" else None.
Proof.
  destruct (String.eqb_spec (fst (detectTool l)) "get_ticketmaster_events") as [E|E].
  - by apply ticketmaster_location_fixed.
  - by apply location_unset_elsewhere.
Qed.

(** The [switch] reads [toolParams.city] and [toolParams.location] and
    nothing else. *)
Lemma dispatch_reads (mcp : MCP) (tool : string) (p q : ToolParams) :
  tp_city p = tp_city q -> tp_location p = tp_location q ->
  dispatch mcp tool p = dispatch mcp tool q.
Proof. intros Hc Hl. unfold dispatch. by rewrite Hc, Hl. Qed.

Lemma dispatch_by_tool (mcp : MCP) (a b : string) :
  fst (detectTool a) = fst (detectTool b) ->
  dispatch mcp (fst (detectTool a)) (snd (detectTool a)) =
  dispatch mcp (fst (detectTool b)) (snd (detectTool b)).
Proof.
  intros H. rewrite H. apply dispatch_reads.
  - by rewrite !city_filter_never_set.
  - by rewrite !location_by_tool, H.
Qed.

(** The tool is one of the six names of the [switch]. *)
Lemma detectTool_names (l : string) :
  In (fst (detectTool l))
    [ "get_weather_events"; "get_rotterdam_events"; "get_amsterdam_events";
      "get_city_secrets"; "get_ticketmaster_events"; "default_chat" ].
Proof.
  rewrite detectTool_tool.
  repeat match goal with
         | |- context [if ?b then _ else _] => destruct b
         end; simpl; tauto.
Qed.

(** What the [switch] does with the parameters the chain can produce,
    case by case. *)
Lemma dispatch_detected (mcp : MCP) (l : string) :
  dispatch mcp (fst (detectTool l)) (snd (detectTool l)) =
  dispatch mcp (fst (detectTool l))
    (if String.eqb (fst (detectTool l)) "get_ticketmaster_events"
     then set_location "Amsterdam" noParams else noParams).
Proof.
  apply dispatch_reads.
  - rewrite city_filter_never_set. by destruct (String.eqb _ _).
  - rewrite location_by_tool. by destruct (String.eqb _ _).
Qed.

(** X1.  With the data sources the repository wires in, [submitUserMessage]
    never shows the error text: the [catch] branch is not reached for any
    input.  It shows the help text exactly when no keyword matched, and it
    calls one MCP client otherwise and none in that case. *)
Theorem mocks_always_answer (now : Z) (st : list ServerMessage) (input : string) :
  let r := submitUserMessage now st input in
  let tool := fst (detectTool (JS.toLowerCase input)) in
  display (returned r) <> ErrorResponse /\
  (display (returned r) = HelpResponse <-> tool = "default_chat") /\
  (called r = [] <-> tool = "default_chat") /\
  (length (called r) <= 1)%nat.
Proof.
  cbv zeta. unfold submitUserMessage.
  pose proof (submit_display mocks now st input) as H.
  rewrite dispatch_detected in H.
  set (c := called _) in *. set (d := display _) in *. clearbody c d.
  set (tool := fst (detectTool (JS.toLowerCase input))) in *.
  destruct (detectTool_names (JS.toLowerCase input)) as [E|[E|[E|[E|[E|[E|[]]]]]]];
    fold tool in E; clearbody tool; subst tool;
    vm_compute in H; injection H as -> ->;
    (split; [done|]); (split; [done|]); split; (done || (simpl; lia)).
Qed.

(** X2.  What the action shows and which MCP client it calls depend on the
    chosen tool alone: two inputs that select the same tool get the same
    answer from the same data sources, whatever else they mention, whatever
    the clock reads and whatever the AI state holds.  In particular
    [toolParams.type] is written and never read. *)
Theorem response_depends_on_tool_only (mcp : MCP) (now now' : Z)
    (st st' : list ServerMessage) (a b : string) :
  fst (detectTool (JS.toLowerCase a)) = fst (detectTool (JS.toLowerCase b)) ->
  display (returned (submitUserMessageWith mcp now st a)) =
  display (returned (submitUserMessageWith mcp now' st' b)) /\
  called (submitUserMessageWith mcp now st a) =
  called (submitUserMessageWith mcp now' st' b).
Proof.
  intros H.
  pose proof (submit_display mcp now st a) as Ha.
  pose proof (submit_display mcp now' st' b) as Hb.
  rewrite (dispatch_by_tool mcp _ _ H) in Ha. rewrite <- Hb in Ha.
  by injection Ha as -> ->.
Qed.

Lemma response_depends_on_tool_only_witness :
  fst (detectTool (JS.toLowerCase "Rotterdam")) =
  fst (detectTool (JS.toLowerCase "live MUSIC in rotterdam")) /\
  snd (detectTool (JS.toLowerCase "Rotterdam")) <>
  snd (detectTool (JS.toLowerCase "live MUSIC in rotterdam")) /\
  display (returned (submitUserMessageWith mocks 1 [] "Rotterdam")) =
  display (returned (submitUserMessageWith mocks 2 [] "live MUSIC in rotterdam")).
Proof.
  split; [reflexivity|]. split; [by vm_compute|].
  apply (response_depends_on_tool_only mocks 1 2 [] [] "Rotterdam" "live MUSIC in rotterdam").
  reflexivity.
Defined.

Lemma detected_display (mcp : MCP) (now : Z) (st : list ServerMessage) (input : string) :
  (called (submitUserMessageWith mcp now st input),
   display (returned (submitUserMessageWith mcp now st input))) =
  tryCatch
    (dispatch mcp (fst (detectTool (JS.toLowerCase input)))
       (if String.eqb (fst (detectTool (JS.toLowerCase input))) "get_ticketmaster_events"
        then set_location "Amsterdam" noParams else noParams))
    ErrorResponse.
Proof. by rewrite submit_display, dispatch_detected. Qed.

(** X3.  A request that reaches the city-secrets tool names neither city,
    because an input that names one is dispatched to that city's agenda
    first.  So the filter on [toolParams.city] never applies: the walk list
    holds every walk the data source returned. *)
Theorem city_secrets_shows_every_walk (mcp : MCP) (now : Z) (st : list ServerMessage)
    (input : string) (log : list string) (walks : list CityWalkData) :
  fst (detectTool (JS.toLowerCase input)) = "get_city_secrets" ->
  citySecrets mcp = (log, Fulfilled walks) ->
  JS.includes (JS.toLowerCase input) "amsterdam" = false /\
  JS.includes (JS.toLowerCase input) "rotterdam" = false /\
  called (submitUserMessageWith mcp now st input) = log /\
  display (returned (submitUserMessageWith mcp now st input)) =
    ToolResponse "Looking for something hidden? Check these out:" (WalkListOf walks).
Proof.
  intros Htool Hsrc.
  pose proof (detected_display mcp now st input) as H.
  rewrite Htool in H. unfold dispatch in H; simpl in H. rewrite Hsrc in H. simpl in H.
  rewrite app_nil_r in H. injection H as -> ->.
  rewrite detectTool_tool in Htool.
  destruct (mentionsAny _ weatherKeywords); [done|].
  destruct (JS.includes _ "rotterdam"); [done|].
  by destruct (JS.includes _ "amsterdam").
Qed.

Lemma city_secrets_shows_every_walk_witness :
  JS.includes (JS.toLowerCase "Hidden places near the AMS office") "amsterdam" = false /\
  JS.includes (JS.toLowerCase "Hidden places near the AMS office") "rotterdam" = false /\
  called (submitUserMessageWith mocks 0 [] "Hidden places near the AMS office") =
    ["City Secrets"] /\
  display (returned (submitUserMessageWith mocks 0 [] "Hidden places near the AMS office")) =
    ToolResponse "Looking for something hidden? Check these out:"
      (WalkListOf mockCitySecrets_data).
Proof.
  apply (city_secrets_shows_every_walk mocks 0 [] "Hidden places near the AMS office");
    reflexivity.
Defined.

(** X4.  A request that reaches the Ticketmaster tool does not name
    Rotterdam, so the data source is asked for Amsterdam and the heading
    says so, for every such input. *)
Theorem ticketmaster_always_asked_for_amsterdam (mcp : MCP) (now : Z)
    (st : list ServerMessage) (input : string) (log : list string) (events : list EventData) :
  fst (detectTool (JS.toLowerCase input)) = "get_ticketmaster_events" ->
  ticketmaster mcp "Amsterdam" = (log, Fulfilled events) ->
  JS.includes (JS.toLowerCase input) "rotterdam" = false /\
  called (submitUserMessageWith mcp now st input) = log /\
  display (returned (submitUserMessageWith mcp now st input)) =
    ToolResponse "Concert tickets available in Amsterdam:" (EventCarouselOf events).
Proof.
  intros Htool Hsrc.
  pose proof (detected_display mcp now st input) as H.
  rewrite Htool in H. unfold dispatch in H; simpl in H. rewrite Hsrc in H. simpl in H.
  rewrite app_nil_r in H. injection H as -> ->.
  rewrite detectTool_tool in Htool.
  destruct (mentionsAny _ weatherKeywords); [done|].
  by destruct (JS.includes _ "rotterdam").
Qed.

Lemma ticketmaster_always_asked_for_amsterdam_witness :
  JS.includes (JS.toLowerCase "Tickets for the Maassilo") "rotterdam" = false /\
  called (submitUserMessageWith mocks 0 [] "Tickets for the Maassilo") = ["Ticketmaster"] /\
  display (returned (submitUserMessageWith mocks 0 [] "Tickets for the Maassilo")) =
    ToolResponse "Concert tickets available in Amsterdam:"
      (EventCarouselOf mockTicketmaster_data).
Proof.
  apply (ticketmaster_always_asked_for_amsterdam mocks 0 [] "Tickets for the Maassilo");
    reflexivity.
Defined.

(** X5.  With the data sources of the repository the component mounted in an
    answer is never in its empty state: [WalkList] does not show its notice,
    [WeatherEventCarousel] does not return null and maps over the events
    passed in, an event carousel holds a card; and the keys of the mapped
    cards are pairwise different. *)
Theorem answers_mount_filled_lists (now : Z) (st : list ServerMessage) (input : string) :
  match display (returned (submitUserMessage now st input)) with
  | ToolResponse _ (WalkListOf walks) =>
      WalkList walks = WalkCards walks /\ List.NoDup (List.map walk_id walks)
  | ToolResponse _ (WeatherEventCarouselOf events) =>
      WeatherEventCarousel events = Some (PassedEvents, events) /\
      List.NoDup (List.map weather_id events)
  | ToolResponse _ (EventCarouselOf events) =>
      events <> [] /\ List.NoDup (List.map ev_id events)
  | HelpResponse => fst (detectTool (JS.toLowerCase input)) = "default_chat"
  | ErrorResponse => False
  end.
Proof.
  unfold submitUserMessage.
  pose proof (detected_display mocks now st input) as H.
  set (c := called _) in *. set (d := display _) in *. clearbody c d.
  set (tool := fst (detectTool (JS.toLowerCase input))) in *.
  destruct (detectTool_names (JS.toLowerCase input)) as [E|[E|[E|[E|[E|[E|[]]]]]]];
    fold tool in E; clearbody tool; subst tool;
    vm_compute in H; injection H as -> ->; try done;
    (split; [done|]); apply NoDup_ListNoDup; by apply (bool_decide_unpack _).
Qed.

(** A run of the action, field by field. *)
Lemma submit_result (mcp : MCP) (now : Z) (st : list ServerMessage) (input : string) :
  submitUserMessageWith mcp now st input =
    resultOf now st input (fst (detectTool (JS.toLowerCase input)))
      (called (submitUserMessageWith mcp now st input))
      (display (returned (submitUserMessageWith mcp now st input))).
Proof.
  unfold resultOf. rewrite <- (submit_aiState mcp now st input).
  unfold submitUserMessageWith.
  destruct (detectTool (JS.toLowerCase input)) as [tool params].
  by destruct (tryCatch _ _) as [log ui].
Qed.

(** The answer of the repository's data sources for each tool. *)
Lemma mocks_answer (now : Z) (st : list ServerMessage) (input tool : string) :
  fst (detectTool (JS.toLowerCase input)) = tool ->
  In (tool,
      called (submitUserMessage now st input),
      display (returned (submitUserMessage now st input)))
    [ ("get_weather_events", ["Weather MCP"],
       ToolResponse "Here are some weather-appropriate activities:"
         (WeatherEventCarouselOf mockWeatherEvents_data));
      ("get_rotterdam_events", ["Uitagenda Rotterdam"],
       ToolResponse "I found some great vibes in Rotterdam for you:"
         (EventCarouselOf mockUitAgendaRotterdam_data));
      ("get_amsterdam_events", ["I Amsterdam"],
       ToolResponse "Here is what's happening in Amsterdam tonight:"
         (EventCarouselOf mockIAmsterdam_data));
      ("get_city_secrets", ["City Secrets"],
       ToolResponse "Looking for something hidden? Check these out:"
         (WalkListOf mockCitySecrets_data));
      ("get_ticketmaster_events", ["Ticketmaster"],
       ToolResponse "Concert tickets available in Amsterdam:"
         (EventCarouselOf mockTicketmaster_data));
      ("default_chat", [], HelpResponse) ].
Proof.
  intros <-. unfold submitUserMessage.
  pose proof (detected_display mocks now st input) as H.
  set (c := called _) in *. set (d := display _) in *. clearbody c d.
  set (tool := fst (detectTool (JS.toLowerCase input))) in *.
  destruct (detectTool_names (JS.toLowerCase input)) as [E|[E|[E|[E|[E|[E|[]]]]]]];
    fold tool in E; clearbody tool; subst tool;
    vm_compute in H; injection H as -> ->; simpl; tauto.
Qed.

(** What the branch taken for [tool] leaves behind, with the
    repository's data sources. *)
Lemma mocks_result (now : Z) (st : list ServerMessage) (input tool : string)
    (log : list string) (node : ReactNode) :
  fst (detectTool (JS.toLowerCase input)) = tool ->
  (forall log' node', In (tool, log', node')
     [ ("get_weather_events", ["Weather MCP"],
        ToolResponse "Here are some weather-appropriate activities:"
          (WeatherEventCarouselOf mockWeatherEvents_data));
       ("get_rotterdam_events", ["Uitagenda Rotterdam"],
        ToolResponse "I found some great vibes in Rotterdam for you:"
          (EventCarouselOf mockUitAgendaRotterdam_data));
       ("get_amsterdam_events", ["I Amsterdam"],
        ToolResponse "Here is what's happening in Amsterdam tonight:"
          (EventCarouselOf mockIAmsterdam_data));
       ("get_city_secrets", ["City Secrets"],
        ToolResponse "Looking for something hidden? Check these out:"
          (WalkListOf mockCitySecrets_data));
       ("get_ticketmaster_events", ["Ticketmaster"],
        ToolResponse "Concert tickets available in Amsterdam:"
          (EventCarouselOf mockTicketmaster_data));
       ("default_chat", [], HelpResponse) ] ->
     log' = log /\ node' = node) ->
  submitUserMessage now st input = resultOf now st input tool log node.
Proof.
  intros Htool Hrow.
  destruct (Hrow _ _ (mocks_answer now st input tool Htool)) as [Hl Hn].
  unfold submitUserMessage in *. rewrite submit_result, Htool, Hl, Hn. done.
Qed.

Ltac one_row :=
  intros log' node' Hin; simpl in Hin;
  repeat (destruct Hin as [Hin|Hin]; [try discriminate Hin; by injection Hin as <- <-|]);
  destruct Hin.




(** C8 as stated fails.  "Sunday walk in Rotterdam" contains "rotterdam"
    and "walk", and also the weather keyword "sun": it is dispatched to
    the weather tool, not to the Rotterdam events. *)
Lemma rotterdam_walk_on_a_sunday :
  let l := JS.toLowerCase "Sunday walk in Rotterdam" in
  JS.includes l "rotterdam" = true /\ JS.includes l "walk" = true /\
  JS.includes l "sun" = true /\
  submitUserMessage 0 [] "Sunday walk in Rotterdam" =
    resultOf 0 [] "Sunday walk in Rotterdam" "get_weather_events" ["Weather MCP"]
      (ToolResponse "Here are some weather-appropriate activities:"
         (WeatherEventCarouselOf mockWeatherEvents_data)).
Proof. repeat split; by vm_compute. Qed.

(** C8, amended.  [submitUserMessage] takes the first keyword group that
    occurs in the lowercased input, in the order weather, "rotterdam",
    "amsterdam", walk/secret/hidden, concert/ticketmaster/tickets, and
    for each group it calls the one data source of that group, shows its
    component under the heading of the group and notes the tool in the
    AI state.  An input with "rotterdam" and "walk" and no weather
    keyword gets the Rotterdam events, not the city secrets; an input
    outside every group gets the help text and no data source is
    called. *)
Theorem dispatch_follows_priority (now : Z) (st : list ServerMessage) (input : string) :
  let l := JS.toLowerCase input in
  let r := submitUserMessage now st input in
  let weather_events :=
    resultOf now st input "get_weather_events" ["Weather MCP"]
      (ToolResponse "Here are some weather-appropriate activities:"
         (WeatherEventCarouselOf mockWeatherEvents_data)) in
  let rotterdam_events :=
    resultOf now st input "get_rotterdam_events" ["Uitagenda Rotterdam"]
      (ToolResponse "I found some great vibes in Rotterdam for you:"
         (EventCarouselOf mockUitAgendaRotterdam_data)) in
  (mentionsAny l weatherKeywords = true -> r = weather_events) /\
  (mentionsAny l weatherKeywords = false -> JS.includes l "rotterdam" = true ->
   r = rotterdam_events) /\
  (mentionsAny l weatherKeywords = false -> JS.includes l "rotterdam" = false ->
   JS.includes l "amsterdam" = true ->
   r = resultOf now st input "get_amsterdam_events" ["I Amsterdam"]
         (ToolResponse "Here is what's happening in Amsterdam tonight:"
            (EventCarouselOf mockIAmsterdam_data))) /\
  (mentionsAny l weatherKeywords = false -> JS.includes l "rotterdam" = false ->
   JS.includes l "amsterdam" = false -> mentionsAny l secretsKeywords = true ->
   r = resultOf now st input "get_city_secrets" ["City Secrets"]
         (ToolResponse "Looking for something hidden? Check these out:"
            (WalkListOf mockCitySecrets_data))) /\
  (mentionsAny l weatherKeywords = false -> JS.includes l "rotterdam" = false ->
   JS.includes l "amsterdam" = false -> mentionsAny l secretsKeywords = false ->
   mentionsAny l ticketKeywords = true ->
   r = resultOf now st input "get_ticketmaster_events" ["Ticketmaster"]
         (ToolResponse "Concert tickets available in Amsterdam:"
            (EventCarouselOf mockTicketmaster_data))) /\
  (mentionsAny l weatherKeywords = false -> JS.includes l "rotterdam" = false ->
   JS.includes l "amsterdam" = false -> mentionsAny l secretsKeywords = false ->
   mentionsAny l ticketKeywords = false ->
   r = resultOf now st input "default_chat" [] HelpResponse) /\
  (JS.includes l "weather" = true -> r = weather_events) /\
  (JS.includes l "rotterdam" = true -> JS.includes l "walk" = true ->
   mentionsAny l weatherKeywords = false -> r = rotterdam_events).
Proof.
  intros l r weather_events rotterdam_events. subst r weather_events rotterdam_events.
  pose proof (detectTool_tool l) as Htool. fold l in Htool.
  assert (Hweather : JS.includes l "weather" = true -> mentionsAny l weatherKeywords = true).
  { intros H. apply (mentionsAny_true l weatherKeywords "weather"); [by left|done]. }
  repeat split; intros;
    try match goal with H : JS.includes l "weather" = true |- _ =>
          apply Hweather in H end;
    clear Hweather;
    repeat match goal with H : _ = true |- _ => rewrite H in Htool; clear H
                         | H : _ = false |- _ => rewrite H in Htool; clear H end;
    apply mocks_result; try exact Htool; one_row.
Qed.

Lemma dispatch_follows_priority_witness :
  submitUserMessage 7 [] "Is there a walk in Rotterdam?" =
    resultOf 7 [] "Is there a walk in Rotterdam?" "get_rotterdam_events"
      ["Uitagenda Rotterdam"]
      (ToolResponse "I found some great vibes in Rotterdam for you:"
         (EventCarouselOf mockUitAgendaRotterdam_data)) /\
  submitUserMessage 8 [] "Hello there" =
    resultOf 8 [] "Hello there" "default_chat" [] HelpResponse.
Proof.
  split.
  - apply (dispatch_follows_priority 7 [] "Is there a walk in Rotterdam?"); by vm_compute.
  - apply (dispatch_follows_priority 8 [] "Hello there"); by vm_compute.
Defined.

End ActionAsAWhole.

(* ===================================================================== *)
(** * The chat page                                                    *)
(* ===================================================================== *)

Section ChatPage.
Import Web Chat.

(** The node returned for an input does not depend on the clock or on
    the AI state. *)
Lemma display_stateless (mcp : MCP) (now now' : Z) (st st' : list ServerMessage)
    (input : string) :
  display (returned (submitUserMessageWith mcp now st input)) =
  display (returned (submitUserMessageWith mcp now' st' input)).
Proof.
  pose proof (submit_display mcp now st input) as H.
  rewrite <- (submit_display mcp now' st' input) in H. by injection H.
Qed.

Lemma submit_id (mcp : MCP) (now : Z) (st : list ServerMessage) (input : string) :
  cm_id (returned (submitUserMessageWith mcp now st input)) = now.
Proof.
  unfold submitUserMessageWith.
  destruct (detectTool _) as [tool params]. by destruct (tryCatch _ _).
Qed.

Lemma handleSendMessage_blank (mcp : MCP) (cn sn : Z) (content : string)
    (w : ChatPage * list ServerMessage) :
  JS.blank content = true -> handleSendMessage mcp cn sn content w = w.
Proof.
  intros H. unfold handleSendMessage.
  apply trim_empty_iff in H. by rewrite H.
Qed.

Lemma handleSendMessage_heard (mcp : MCP) (s : Send) (w : ChatPage * list ServerMessage) :
  JS.blank (send_content s) = false ->
  handleSendMessage mcp (send_client s) (send_server s) (send_content s) w =
  (mkChatPage EmptyString (messages (fst w) ++ uiOf mcp s) false
     (toasts (fst w)) (activeFilters (fst w)) (currentSessionId (fst w)),
   snd w ++ aiOf s).
Proof.
  intros H. unfold handleSendMessage, sendFinish, sendStart.
  destruct (JS.truthy (JS.trim (send_content s))) eqn:E.
  - simpl. rewrite submit_id, submit_aiState, <- app_assoc.
    by rewrite (display_stateless mcp _ 0 _ []).
  - apply trim_empty_iff in E. congruence.
Qed.

Lemma pageEvent_messages (p : ChatPage) (e : SendEvent) :
  messages (pageEvent p e) = messages p ++ entryOf e.
Proof.
  destruct e as [cn c|r]; simpl; [|done].
  destruct (JS.blank c) eqn:B.
  - apply trim_empty_iff in B. rewrite B. simpl. by rewrite app_nil_r.
  - destruct (JS.truthy (JS.trim c)) eqn:E; [done|].
    apply trim_empty_iff in E. congruence.
Qed.

Lemma pageEvents_messages (events : list SendEvent) (p : ChatPage) :
  messages (fold_left pageEvent events p) = messages p ++ flat_map entryOf events.
Proof.
  revert p; induction events as [|e events IH]; intros p; simpl.
  - by rewrite app_nil_r.
  - by rewrite IH, pageEvent_messages, <- app_assoc.
Qed.

(** X6.  [handleSendMessage] returns without any change to the UI state or
    the AI state exactly when the text holds white space only. *)
Theorem blank_message_is_dropped (mcp : MCP) (cn sn : Z) (content : string)
    (w : ChatPage * list ServerMessage) :
  handleSendMessage mcp cn sn content w = w <-> JS.blank content = true.
Proof.
  split; [|apply handleSendMessage_blank].
  intros H. destruct (JS.blank content) eqn:B; [done|].
  rewrite (handleSendMessage_heard mcp (mkSend cn sn content)) in H by done.
  apply (f_equal (fun w => length (snd w))) in H. simpl in H.
  rewrite length_app in H. simpl in H. lia.
Qed.

(** X7.  The messages of the page are the old ones followed by one entry
    per event, in the order in which sends were started and answers
    arrived: a user message for every send that is not blank, an
    assistant message for every answer.  A send that runs to its end
    before anything else happens is one start followed by its answer, so
    along sends run one after the other the UI state and the AI state
    grow in step, by one user message and one assistant message for
    each send that is not blank; two sends that overlap leave both user
    messages ahead of both answers. *)
Theorem histories_grow_in_step (mcp : MCP) (events : list SendEvent) (sends : list Send)
    (p : ChatPage) (ai : list ServerMessage) :
  messages (fold_left pageEvent events p) = messages p ++ flat_map entryOf events /\
  (forall s, JS.blank (send_content s) = false ->
     fst (handleSendMessage mcp (send_client s) (send_server s) (send_content s) (p, ai)) =
     fold_left pageEvent
       [ Started (send_client s) (send_content s);
         Answered (returned (submitUserMessageWith mcp (send_server s) ai (send_content s))) ]
       p) /\
  messages (fst (sendAll mcp sends (p, ai))) =
    messages p ++ flat_map (uiOf mcp) (heard sends) /\
  snd (sendAll mcp sends (p, ai)) = ai ++ flat_map aiOf (heard sends) /\
  (forall s1 s2 r1 r2,
     JS.blank (send_content s1) = false -> JS.blank (send_content s2) = false ->
     List.map ui_role
       (messages (fold_left pageEvent
                    [ Started (send_client s1) (send_content s1);
                      Started (send_client s2) (send_content s2);
                      Answered r1; Answered r2 ] p)) =
     List.map ui_role (messages p) ++ [user; user; assistant; assistant]).
Proof.
  split; [apply pageEvents_messages|]. split.
  { intros s Hs. unfold handleSendMessage. simpl.
    destruct (JS.truthy (JS.trim (send_content s))) eqn:E; [done|].
    apply trim_empty_iff in E. congruence. }
  assert (Hseq : forall sends p ai,
            messages (fst (sendAll mcp sends (p, ai))) =
              messages p ++ flat_map (uiOf mcp) (heard sends) /\
            snd (sendAll mcp sends (p, ai)) = ai ++ flat_map aiOf (heard sends)).
  { clear. intros sends.
    induction sends as [|s sends IH]; intros p ai; simpl.
    - by rewrite !app_nil_r.
    - destruct (JS.blank (send_content s)) eqn:B; simpl.
      + rewrite handleSendMessage_blank by done. apply IH.
      + rewrite handleSendMessage_heard by done.
        destruct (IH (mkChatPage EmptyString (messages (fst (p, ai)) ++ uiOf mcp s) false
                        (toasts (fst (p, ai))) (activeFilters (fst (p, ai)))
                        (currentSessionId (fst (p, ai))))
                     (snd (p, ai) ++ aiOf s)) as [-> ->].
        simpl. by rewrite <- !app_assoc. }
  split; [apply Hseq|]. split; [apply Hseq|].
  intros s1 s2 r1 r2 H1 H2. rewrite pageEvents_messages. simpl.
  rewrite H1, H2. by rewrite List.map_app.
Qed.

Lemma append_truthy (a b : string) : JS.truthy (a +:+ b) = JS.truthy a || JS.truthy b.
Proof. by destruct a. Qed.

Lemma append_empty_r (a : string) : a +:+ EmptyString = a.
Proof.
  induction a as [|c a IH]; [done|].
  change (String c a +:+ EmptyString) with (String c (a +:+ EmptyString)). by rewrite IH.
Qed.

(** The cut the page applies to a title. *)
Lemma cut_title (title : string) :
  let shown :=
    if (50 <? JS.length title)%nat then JS.substring0 50 title +:+ "..." else title in
  (JS.length shown <= 53)%nat /\
  (title <> EmptyString -> shown <> EmptyString) /\
  JS.substring0 50 shown = JS.substring0 50 title /\
  ((JS.length title <= 50)%nat -> shown = title) /\
  ((50 < JS.length title)%nat ->
   shown = JS.substring0 50 title +:+ "..." /\ JS.length shown = 53%nat).
Proof.
  cbv zeta. destruct (Nat.ltb_spec 50 (JS.length title)) as [H|H].
  - rewrite length_append, length_substring0.
    change (JS.length "...") with 3%nat.
    split; [lia|]. split.
    + intros _ E. apply (f_equal JS.truthy) in E. rewrite append_truthy in E.
      simpl in E. by rewrite orb_true_r in E.
    + split; [|split; [lia|intros _; split; [done|lia]]].
      rewrite substring0_append by (rewrite length_substring0; lia).
      rewrite length_substring0.
      replace (50 - 50 `min` JS.length title)%nat with 0%nat by lia.
      change (JS.substring0 0 "...") with EmptyString.
      apply append_empty_r.
  - split; [lia|]. split; [done|]. split; [done|]. split; [done|lia].
Qed.

(** X8.  The title of a session is not empty and has at most 53 UTF-16
    code units.  When the first user message has content, title and
    content agree on their first 50 code units; the title is the content
    when that has at most 50 code units, and otherwise its first 50 code
    units followed by three dots, 53 code units in all. *)
Theorem session_title_is_a_short_prefix (msgs : list UIMessage) :
  sessionTitle msgs <> EmptyString /\
  (JS.length (sessionTitle msgs) <= 53)%nat /\
  forall m c,
    List.find (fun m => match ui_role m with user => true | assistant => false end) msgs
      = Some m ->
    ui_content m = Some c -> c <> EmptyString ->
    JS.substring0 50 (sessionTitle msgs) = JS.substring0 50 c /\
    ((JS.length c <= 50)%nat -> sessionTitle msgs = c) /\
    ((50 < JS.length c)%nat ->
     sessionTitle msgs = JS.substring0 50 c +:+ "..." /\
     JS.length (sessionTitle msgs) = 53%nat).
Proof.
  unfold sessionTitle.
  destruct (List.find _ msgs) as [m|] eqn:F;
    [|split; [done|split; [vm_compute; lia|done]]].
  set (title := match ui_content m with
                | Some c => if JS.truthy c then c else "New Chat"
                | None => "New Chat"
                end).
  assert (Hne : title <> EmptyString).
  { unfold title. destruct (ui_content m) as [[|a c]|]; done. }
  destruct (cut_title title) as (Hlen & Hnon & Hpre & Hsame & Hcut).
  split; [by apply Hnon|]. split; [done|].
  intros m' c [= <-] Hc Hcne.
  assert (title = c) as <-; [|done].
  unfold title. rewrite Hc. by destruct c.
Qed.

(** A first message of 36 code units that takes 68 bytes is a title as
    it is. *)
Example title_counts_code_units :
  let text := "Café ééééééééééééééééééééééééééééééé" in
  JS.length text = 36%nat /\ String.length text = 68%nat /\
  sessionTitle [mkUIMessage "1" user (Some text) (UserBubble text)] = text.
Proof. repeat split; by vm_compute. Qed.

Lemma find_app_found {A} (f : A -> bool) (l more : list A) (x : A) :
  List.find f l = Some x -> List.find f (l ++ more) = Some x.
Proof.
  induction l as [|a l IH]; simpl; [done|]. destruct (f a); [done|]. apply IH.
Qed.

(** X9.  Once the chat holds a user message, appending messages does not
    change the title of the session. *)
Theorem session_title_is_stable (msgs more : list UIMessage) :
  (exists m, In m msgs /\ ui_role m = user) ->
  sessionTitle (msgs ++ more) = sessionTitle msgs.
Proof.
  intros (m & Hin & Hrole). unfold sessionTitle.
  destruct (List.find _ msgs) as [m'|] eqn:F.
  - by rewrite (find_app_found _ _ more _ F).
  - apply (List.find_none _ _ F) in Hin. by rewrite Hrole in Hin.
Qed.

Lemma session_title_is_stable_witness :
  sessionTitle
    (uiOf mocks (mkSend 1 2 "Jazz tonight?") ++ uiOf mocks (mkSend 3 4 "And tomorrow?")) =
  "Jazz tonight?".
Proof.
  rewrite (session_title_is_stable (uiOf mocks (mkSend 1 2 "Jazz tonight?"))
             (uiOf mocks (mkSend 3 4 "And tomorrow?"))).
  - reflexivity.
  - eexists. split; [left; reflexivity|reflexivity].
Defined.

Lemma numberToString_truthy (n : Z) : JS.truthy (JS.numberToString n) = true.
Proof.
  unfold JS.numberToString. destruct (Z.to_int n) as [d|d]; simpl; [|done].
  destruct d; try done.
Qed.

(** X10.  For a chat with messages and no session id the effect makes the id
    from the clock reading, and [parseInt] reads that reading back from the
    id: the stored session carries it as its timestamp.  When the effect
    runs again, at any later time, it stores the same session. *)
Theorem new_session_is_stamped_now (now : Z) (p : ChatPage) :
  messages p <> [] -> currentSessionId p = None ->
  let started := saveSessionEffect now p in
  snd started =
    [SetCurrentSession
       (Some (mkChatSession (JS.numberToString now) (sessionTitle (messages p)) (Some now)
                (messages p)))] /\
  currentSessionId (fst started) = Some (JS.numberToString now) /\
  forall later, saveSessionEffect later (fst started) = started.
Proof.
  intros Hm Hid. cbv zeta. unfold saveSessionEffect. rewrite Hid.
  destruct (messages p) as [|m ms] eqn:E; [done|]. simpl.
  rewrite parseInt_numberToString, numberToString_truthy.
  split; [done|]. split; [done|]. intros later.
  by rewrite parseInt_numberToString.
Qed.

Lemma new_session_is_stamped_now_witness :
  snd (saveSessionEffect 1717243200000
         (mkChatPage EmptyString (uiOf mocks (mkSend 1717243200000 1717243200650 "Jazz tonight?"))
            false [] [] None)) =
  [SetCurrentSession
     (Some (mkChatSession "1717243200000" "Jazz tonight?" (Some 1717243200000)
              (uiOf mocks (mkSend 1717243200000 1717243200650 "Jazz tonight?"))))].
Proof.
  apply (new_session_is_stamped_now 1717243200000
           (mkChatPage EmptyString
              (uiOf mocks (mkSend 1717243200000 1717243200650 "Jazz tonight?")) false [] [] None));
    [discriminate | reflexivity].
Defined.

(** What the effect hands to [setCurrentSession], if anything. *)
Lemma saveSessionEffect_calls (now : Z) (p : ChatPage) (s : ChatSession) :
  snd (saveSessionEffect now p) = [SetCurrentSession (Some s)] ->
  exists id,
    s = mkChatSession id (sessionTitle (messages p)) (JS.parseInt id) (messages p) /\
    JS.truthy id = true /\
    (0 <? length (messages p))%nat = true /\
    fst (saveSessionEffect now p) =
      mkChatPage (inputValue p) (messages p) (isLoading p) (toasts p) (activeFilters p)
        (Some id).
Proof.
  unfold saveSessionEffect.
  destruct (0 <? length (messages p))%nat eqn:E; [|done]. simpl.
  intros [= <-]. eexists. split; [done|]. split; [|done].
  destruct (currentSessionId p) as [id|]; [|apply numberToString_truthy].
  destruct (JS.truthy id) eqn:T; [done|apply numberToString_truthy].
Qed.

(** X11.  [handleClearChat] and [handleNewChat] save exactly the session the
    effect stored last, then drop the current session; for the page they
    leave the effect stores nothing. *)
Theorem clearing_saves_the_stored_session (now later : Z) (p : ChatPage) (s : ChatSession) :
  snd (saveSessionEffect now p) = [SetCurrentSession (Some s)] ->
  let running := fst (saveSessionEffect now p) in
  snd (handleClearChat later running) = [SaveChatSession s; SetCurrentSession None] /\
  snd (handleNewChat later running) = [SaveChatSession s; SetCurrentSession None] /\
  (forall t, saveSessionEffect t (fst (handleClearChat later running)) =
             (fst (handleClearChat later running), [])) /\
  (forall t, saveSessionEffect t (fst (handleNewChat later running)) =
             (fst (handleNewChat later running), [])).
Proof.
  intros H. cbv zeta.
  destruct (saveSessionEffect_calls now p s H) as (id & -> & Ht & Hm & ->).
  unfold handleClearChat, handleNewChat, saveRunningSession. simpl.
  by rewrite Hm, Ht.
Qed.

Lemma clearing_saves_the_stored_session_witness :
  snd (handleClearChat 9
         (fst (saveSessionEffect 5
                 (mkChatPage EmptyString (uiOf mocks (mkSend 1 2 "Jazz tonight?"))
                    false [] [] None)))) =
  [ SaveChatSession
      (mkChatSession "5" "Jazz tonight?" (Some 5) (uiOf mocks (mkSend 1 2 "Jazz tonight?")));
    SetCurrentSession None ].
Proof.
  apply (clearing_saves_the_stored_session 5 9
           (mkChatPage EmptyString (uiOf mocks (mkSend 1 2 "Jazz tonight?")) false [] [] None)).
  reflexivity.
Defined.

(** X12.  After [handleLoadSession] of a session that the effect stored, the
    effect stores that very session again: id, title, timestamp and messages
    are reproduced.  The active quick filters are kept. *)
Theorem loaded_session_is_stored_unchanged (now later t : Z) (p q : ChatPage)
    (s : ChatSession) :
  snd (saveSessionEffect now p) = [SetCurrentSession (Some s)] ->
  let loaded := fst (handleLoadSession later s q) in
  messages loaded = messages p /\
  activeFilters loaded = activeFilters q /\
  snd (saveSessionEffect t loaded) = [SetCurrentSession (Some s)].
Proof.
  intros H. cbv zeta.
  destruct (saveSessionEffect_calls now p s H) as (id & -> & Ht & Hm & _).
  unfold handleLoadSession. simpl.
  split; [done|]. split; [done|].
  unfold saveSessionEffect. simpl. by rewrite Hm, Ht.
Qed.

Lemma loaded_session_is_stored_unchanged_witness :
  snd (saveSessionEffect 30
         (fst (handleLoadSession 20
                 (mkChatSession "5" "Jazz tonight?" (Some 5)
                    (uiOf mocks (mkSend 1 2 "Jazz tonight?")))
                 (mkChatPage EmptyString [] false [] ["Music"] None)))) =
  [SetCurrentSession
     (Some (mkChatSession "5" "Jazz tonight?" (Some 5)
              (uiOf mocks (mkSend 1 2 "Jazz tonight?"))))].
Proof.
  apply (loaded_session_is_stored_unchanged 5 20 30
           (mkChatPage EmptyString (uiOf mocks (mkSend 1 2 "Jazz tonight?")) false [] [] None)
           (mkChatPage EmptyString [] false [] ["Music"] None)).
  reflexivity.
Defined.

End ChatPage.

(* ===================================================================== *)
(** * The date labels of the sidebar                                   *)
(* ===================================================================== *)

Section Sidebar.
Import Web Chat.

(** X13.  The branches of [formatDate] by the age of the timestamp in
    milliseconds: under one day it prints today, under two days yesterday,
    from two days up to seven the number of days, from seven days on the
    date.  A timestamp that lies ahead of the clock reaches the third branch
    with a negative number of days. *)
Theorem formatDate_thresholds (now date : Z) :
  let age := now - date in
  (formatDate now (Some date) = TodayAt date <-> 0 <= age < 86400000) /\
  (formatDate now (Some date) = YesterdayAt date <-> 86400000 <= age < 172800000) /\
  (forall days, formatDate now (Some date) = DaysAgo days <->
     days = age / 86400000 /\ (age < 0 \/ 172800000 <= age < 604800000)) /\
  (formatDate now (Some date) = OnDate (Some date) <-> 604800000 <= age) /\
  (-86400000 <= age < 0 -> formatDate now (Some date) = DaysAgo (-1)).
Proof.
  cbv zeta. unfold formatDate.
  change (1000 * 60 * 60 * 24) with 86400000.
  pose proof (Z.div_mod (now - date) 86400000 ltac:(lia)) as Hdm.
  pose proof (Z.mod_pos_bound (now - date) 86400000 ltac:(lia)) as Hb.
  set (days := (now - date) / 86400000) in *.
  destruct (Z.eqb_spec days 0) as [E0|E0];
    [|destruct (Z.eqb_spec days 1) as [E1|E1];
      [|destruct (Z.ltb_spec days 7) as [E7|E7]]];
    repeat split; intros; try done; try lia;
    try match goal with H : DaysAgo _ = DaysAgo _ |- _ => injection H as <- end;
    try lia; try (exfalso; lia).
  - destruct H as [-> _]. done.
  - f_equal. lia.
Qed.

End Sidebar.

(* ===================================================================== *)
(** * Toasts                                                           *)
(* ===================================================================== *)

Section Toasts.
Import Web Chat.

(** X14.  The id of a toast is the decimal text of the clock reading, and
    different readings give different texts.  So closing the first of two
    toasts also closes the second exactly when both were shown at the same
    reading. *)
Theorem toasts_of_one_instant_close_together (now1 now2 : Z) (m1 m2 : string)
    (t1 t2 : option ToastType) (prev : list Toast) :
  removeToast (JS.numberToString now1) (showToast now2 m2 t2 (showToast now1 m1 t1 prev)) =
    if Z.eqb now1 now2 then removeToast (JS.numberToString now1) prev
    else showToast now2 m2 t2 (removeToast (JS.numberToString now1) prev).
Proof.
  unfold removeToast, showToast.
  rewrite !List.filter_app. simpl. rewrite String.eqb_refl. simpl. rewrite app_nil_r.
  destruct (Z.eqb_spec now1 now2) as [->|Hne].
  - by rewrite String.eqb_refl, app_nil_r.
  - destruct (String.eqb_spec (JS.numberToString now2) (JS.numberToString now1)) as [E|E].
    + apply numberToString_inj in E. congruence.
    + done.
Qed.

End Toasts.

(* ===================================================================== *)
(** * Toggles of the page and of the preferences dialog                *)
(* ===================================================================== *)

Section Toggles.
Import Web Chat.

Lemma array_includes_iff (xs : list string) (x : string) :
  JS.array_includes xs x = true <-> In x xs.
Proof.
  unfold JS.array_includes. rewrite existsb_exists. split.
  - intros (y & Hy & E). by apply String.eqb_eq in E as ->.
  - intros H. exists x. split; [done|]. apply String.eqb_refl.
Qed.

Lemma In_without (xs : list string) (x y : string) :
  In y (List.filter (fun f => negb (String.eqb f x)) xs) <-> In y xs /\ y <> x.
Proof.
  rewrite filter_In. rewrite negb_true_iff, String.eqb_neq. done.
Qed.

Lemma NoDup_without (xs : list string) (x : string) :
  List.NoDup xs -> List.NoDup (List.filter (fun f => negb (String.eqb f x)) xs).
Proof. apply List.NoDup_filter. Qed.

Lemma without_absent (xs : list string) (x : string) :
  ~ In x xs -> List.filter (fun f => negb (String.eqb f x)) xs = xs.
Proof.
  induction xs as [|a xs IH]; simpl; [done|]. intros H.
  destruct (String.eqb_spec a x) as [->|Hne]; simpl; [tauto|].
  rewrite IH; [done|tauto].
Qed.

Lemma toggleFilter_present (x : string) (xs : list string) :
  In x xs -> toggleFilter x xs = List.filter (fun f => negb (String.eqb f x)) xs.
Proof. intros H. unfold toggleFilter. apply array_includes_iff in H. by rewrite H. Qed.

Lemma toggleFilter_absent (x : string) (xs : list string) :
  ~ In x xs -> toggleFilter x xs = xs ++ [x].
Proof.
  intros H. unfold toggleFilter.
  destruct (JS.array_includes xs x) eqn:E; [|done]. by apply array_includes_iff in E.
Qed.

(** What the toggle of the page and of the preferences dialog does to a
    list of labels. *)
Lemma toggleFilter_spec (x : string) (xs : list string) :
  (In x (toggleFilter x xs) <-> ~ In x xs) /\
  (forall y, y <> x -> (In y (toggleFilter x xs) <-> In y xs)) /\
  (List.NoDup xs -> List.NoDup (toggleFilter x xs)) /\
  (forall y, In y (toggleFilter x (toggleFilter x xs)) <-> In y xs) /\
  (~ In x xs -> toggleFilter x (toggleFilter x xs) = xs).
Proof.
  destruct (in_dec String.string_dec x xs) as [Hin|Hout].
  - assert (Hgone : ~ In x (List.filter (fun f => negb (String.eqb f x)) xs))
      by (rewrite In_without; tauto).
    rewrite (toggleFilter_present x xs Hin), (toggleFilter_absent x _ Hgone).
    split; [tauto|]. split; [intros y Hy; rewrite In_without; tauto|].
    split; [apply NoDup_without|].
    split; [|tauto]. intros y. rewrite in_app_iff, In_without. simpl.
    destruct (String.eqb_spec y x) as [->|Hne]; [tauto|].
    split; [intros [[? _]|[?|[]]]; [done|congruence] | tauto].
  - assert (Hthere : In x (xs ++ [x])) by (apply in_app_iff; simpl; tauto).
    rewrite (toggleFilter_absent x xs Hout), (toggleFilter_present x _ Hthere).
    assert (Hback : List.filter (fun f => negb (String.eqb f x)) (xs ++ [x]) = xs).
    { rewrite List.filter_app. simpl. rewrite String.eqb_refl. simpl.
      by rewrite app_nil_r, without_absent. }
    rewrite Hback.
    split; [tauto|].
    split; [intros y Hy; rewrite in_app_iff; simpl; split; [intros [?|[?|[]]]; [done|congruence]|tauto]|].
    split; [|done].
    intros Hnd. apply List.NoDup_app; [done | repeat constructor; by intros [] |].
    intros y Hy [<-|[]]. done.
Qed.

(** X15.  [toggleCategory] flips whether the category is a favourite and
    changes that of no other category; it keeps a list without duplicates
    free of duplicates; applied twice it gives back the favourites as a set;
    and it leaves the default city and the notification settings alone. *)
Theorem toggleCategory_flips_one_category (category : string) (prev : Preferences) :
  let next := toggleCategory category prev in
  (In category (favoriteCategories next) <-> ~ In category (favoriteCategories prev)) /\
  (forall c, c <> category ->
     (In c (favoriteCategories next) <-> In c (favoriteCategories prev))) /\
  (List.NoDup (favoriteCategories prev) -> List.NoDup (favoriteCategories next)) /\
  (forall c, In c (favoriteCategories (toggleCategory category next)) <->
             In c (favoriteCategories prev)) /\
  defaultCity next = defaultCity prev /\
  notifications next = notifications prev.
Proof.
  cbv zeta.
  destruct (toggleFilter_spec category (favoriteCategories prev)) as (H1 & H2 & H3 & H4 & _).
  repeat split; try apply H1; try apply H2; try apply H3; try apply H4; done.
Qed.

End Toggles.

(* ===================================================================== *)
(** * Quick filters and suggestions                                    *)
(* ===================================================================== *)

Section Shortcuts.
Import Web Chat.

(** X16.  None of the five quick-filter queries holds a keyword of the
    dispatch: whatever the data sources, a click on a quick filter appends
    its query and the help text, calls no MCP client, and flips the
    highlight of the filter. *)
Theorem quick_filters_only_get_help (mcp : MCP) (f : Shortcut) (cn sn : Z)
    (p : ChatPage) (ai : list ServerMessage) :
  In f quickFilters ->
  let w := clickQuickFilter mcp cn sn f (p, ai) in
  messages (fst w) =
    messages p ++
    [ mkUIMessage (JS.numberToString cn) user (Some (query f)) (UserBubble (query f));
      mkUIMessage (JS.numberToString sn) assistant None (ServerNode HelpResponse) ] /\
  snd w =
    ai ++ [ mkServerMessage user (query f);
            mkServerMessage assistant "Displaying UI for default_chat" ] /\
  (In (label f) (activeFilters (fst w)) <-> ~ In (label f) (activeFilters p)).
Proof.
  intros Hf. cbv zeta. unfold clickQuickFilter.
  assert (Hb : JS.blank (query f) = false).
  { simpl in Hf. by repeat destruct Hf as [<-|Hf]. }
  rewrite (handleSendMessage_heard mcp (mkSend cn sn (query f))) by done.
  cbn [fst snd messages activeFilters].
  split; [|split].
  - f_equal. unfold uiOf. cbn [send_client send_server send_content].
    do 3 f_equal.
    simpl in Hf. by repeat destruct Hf as [<-|Hf].
  - f_equal. unfold aiOf. cbn [send_content]. do 3 f_equal.
    simpl in Hf. by repeat destruct Hf as [<-|Hf].
  - apply toggleFilter_spec.
Qed.

Lemma quick_filters_only_get_help_witness :
  messages (fst (clickQuickFilter ticketmasterDown 10 20 (mkShortcut "Music" "music events")
                   (mkChatPage EmptyString [] false [] [] None, []))) =
    [ mkUIMessage "10" user (Some "music events") (UserBubble "music events");
      mkUIMessage "20" assistant None (ServerNode HelpResponse) ].
Proof.
  pose proof (quick_filters_only_get_help ticketmasterDown (mkShortcut "Music" "music events")
                10 20 (mkChatPage EmptyString [] false [] [] None) []) as H.
  destruct H as [H _]; [simpl; tauto|]. exact H.
Defined.

(** X17.  Each of the four suggestions names a city, so each is answered
    from the agenda of Rotterdam or of Amsterdam; the suggestions about
    walks and about concerts reach neither the city-secrets tool nor
    Ticketmaster. *)
Theorem suggestions_reach_city_agendas (s : Shortcut) :
  In s suggestions ->
  fst (detectTool (JS.toLowerCase (suggestionText s))) =
    if JS.includes (JS.toLowerCase (suggestionText s)) "rotterdam"
    then "get_rotterdam_events" else "get_amsterdam_events".
Proof.
  intros Hs. simpl in Hs. by repeat destruct Hs as [<-|Hs].
Qed.

Lemma suggestions_reach_city_agendas_witness :
  fst (detectTool (JS.toLowerCase "Show me walks in Amsterdam")) = "get_amsterdam_events".
Proof.
  apply (suggestions_reach_city_agendas (mkShortcut "Hidden Gems" "Show me walks in Amsterdam")).
  simpl. tauto.
Defined.

End Shortcuts.

(* ===================================================================== *)
(** * The login dialog                                                 *)
(* ===================================================================== *)

Section Login.
Import Web Chat.


End Login.

(* ===================================================================== *)
(** * Favourites on a page that shows every event once                 *)
(* ===================================================================== *)

Section Favourites.
Import Web Chat.

Lemma shown_insert (cs : list Card) (i : nat) (c : Card) (fav : bool) :
  cs !! i = Some c ->
  List.map card_event (<[i := mkCard (card_event c) fav]> cs) = List.map card_event cs.
Proof.
  intros H. change (@List.map) with (@fmap list _).
  rewrite list_fmap_insert. simpl. apply list_insert_id.
  by rewrite list_lookup_fmap, H.
Qed.

Lemma loadFavorite_In (e : string) (ls : LocalStorage) :
  loadFavorite e ls = true <-> In e (readFavorites ls).
Proof. apply array_includes_iff. Qed.

Lemma loadFavorite_ext (e : string) (ls ls' : LocalStorage) :
  (In e (readFavorites ls) <-> In e (readFavorites ls')) ->
  loadFavorite e ls = loadFavorite e ls'.
Proof.
  intros H. destruct (loadFavorite e ls) eqn:A; destruct (loadFavorite e ls') eqn:B; try done.
  - apply loadFavorite_In, H, loadFavorite_In in A. congruence.
  - apply loadFavorite_In, H, loadFavorite_In in B. congruence.
Qed.

(** One step of a page whose cards show different events. *)
Lemma pageStep_in_sync (p : Page) (a : PageAction) :
  in_sync p ->
  List.NoDup (List.map card_event (cards p)) ->
  mounts_once (List.map card_event (cards p)) [a] ->
  in_sync (pageStep p a) /\
  List.NoDup (List.map card_event (cards (pageStep p a))) /\
  (List.NoDup (readFavorites (storage p)) ->
   List.NoDup (readFavorites (storage (pageStep p a)))) /\
  List.map card_event (cards (pageStep p a)) =
    List.map card_event (cards p) ++ match a with Mount e => [e] | ClickFavorite _ => [] end.
Proof.
  intros Hsync Hshown Hm. destruct a as [e|i]; simpl in *.
  - destruct Hm as [Hnew _].
    split; [|split; [|split]].
    + unfold in_sync. simpl. apply Forall_app. split; [done|]. by repeat constructor.
    + rewrite List.map_app. simpl.
      apply List.NoDup_app; [done | repeat constructor; by intros [] |].
      intros y Hy [<-|[]]. done.
    + done.
    + by rewrite List.map_app.
  - destruct (cards p !! i) as [c|] eqn:Hc; [|by rewrite app_nil_r].
    assert (Hci : isFavorite c = loadFavorite (card_event c) (storage p)).
    { unfold in_sync in Hsync. rewrite Forall_lookup in Hsync. by apply (Hsync i). }
    assert (Hother : forall j c', cards p !! j = Some c' -> j <> i ->
                                  card_event c' <> card_event c).
    { intros j c' Hj Hne E. apply Hne.
      apply NoDup_ListNoDup in Hshown.
      eapply (NoDup_lookup _ j i (card_event c')); [done|..].
      - change (@List.map) with (@fmap list _). by rewrite list_lookup_fmap, Hj.
      - change (@List.map) with (@fmap list _). by rewrite list_lookup_fmap, Hc, E. }
    unfold handleFavorite. destruct (isFavorite c) eqn:Fc; simpl.
    + symmetry in Hci. apply loadFavorite_In in Hci.
      split; [|split; [|split]].
      * unfold in_sync. simpl. rewrite Forall_lookup. intros j c' Hj.
        destruct (decide (j = i)) as [->|Hne].
        -- rewrite list_lookup_insert_eq in Hj by (by eapply lookup_lt_Some).
           injection Hj as <-. simpl. symmetry.
           destruct (loadFavorite _ _) eqn:L; [|done].
           apply loadFavorite_In in L. simpl in L. apply In_without in L. tauto.
        -- rewrite list_lookup_insert_ne in Hj by done.
           unfold in_sync in Hsync. rewrite Forall_lookup in Hsync.
           rewrite (Hsync j c' Hj). apply loadFavorite_ext. simpl.
           rewrite In_without. specialize (Hother j c' Hj Hne). tauto.
      * by rewrite shown_insert.
      * apply NoDup_without.
      * by rewrite shown_insert, app_nil_r.
    + assert (Hout : ~ In (card_event c) (readFavorites (storage p))).
      { intros H. apply loadFavorite_In in H. congruence. }
      split; [|split; [|split]].
      * unfold in_sync. simpl. rewrite Forall_lookup. intros j c' Hj.
        destruct (decide (j = i)) as [->|Hne].
        -- rewrite list_lookup_insert_eq in Hj by (by eapply lookup_lt_Some).
           injection Hj as <-. simpl. symmetry.
           apply loadFavorite_In. simpl. apply in_app_iff. simpl. tauto.
        -- rewrite list_lookup_insert_ne in Hj by done.
           unfold in_sync in Hsync. rewrite Forall_lookup in Hsync.
           rewrite (Hsync j c' Hj). apply loadFavorite_ext. simpl.
           rewrite in_app_iff. simpl. specialize (Hother j c' Hj Hne).
           split; [tauto|]. intros [?|[?|[]]]; [done|congruence].
      * by rewrite shown_insert.
      * intros Hfav. apply List.NoDup_app; [done | repeat constructor; by intros [] |].
        intros y Hy [<-|[]]. done.
      * by rewrite shown_insert, app_nil_r.
Qed.

Lemma runPage_in_sync (actions : list PageAction) (p : Page) :
  in_sync p ->
  List.NoDup (List.map card_event (cards p)) ->
  mounts_once (List.map card_event (cards p)) actions ->
  in_sync (runPage p actions) /\
  List.NoDup (List.map card_event (cards (runPage p actions))) /\
  (List.NoDup (readFavorites (storage p)) ->
   List.NoDup (readFavorites (storage (runPage p actions)))).
Proof.
  revert p; induction actions as [|a actions IH]; intros p Hs Hc Hm; [done|].
  assert (Hone : mounts_once (List.map card_event (cards p)) [a]).
  { destruct a; simpl in *; tauto. }
  destruct (pageStep_in_sync p a Hs Hc Hone) as (Hs' & Hc' & Hf' & Hshown).
  destruct (IH (pageStep p a) Hs' Hc') as (H1 & H2 & H3).
  { rewrite Hshown. destruct a as [e|i]; simpl in Hm; [tauto|].
    rewrite List.app_nil_r. exact Hm. }
  split; [done|]. split; [done|]. intros Hf. by apply H3, Hf'.
Qed.

(** X19.  Take any page whose cards show pairwise different events, each
    heart in agreement with the stored list, whatever that list holds;
    a page that has mounted no card yet is one, over any stored list.
    After any sequence of clicks and of mounts of events not shown yet,
    every heart still shows whether the stored list holds its event and
    the cards still show pairwise different events; and a stored list
    that held no id twice at the start holds none twice at the end. *)
Theorem single_cards_stay_in_sync (p : Page) (actions : list PageAction) :
  in_sync p ->
  List.NoDup (List.map card_event (cards p)) ->
  mounts_once (List.map card_event (cards p)) actions ->
  in_sync (runPage p actions) /\
  List.NoDup (List.map card_event (cards (runPage p actions))) /\
  (List.NoDup (readFavorites (storage p)) ->
   List.NoDup (readFavorites (storage (runPage p actions)))) /\
  (forall ls, in_sync (mkPage ls [])).
Proof.
  intros Hs Hc Hm.
  destruct (runPage_in_sync actions p Hs Hc Hm) as (H1 & H2 & H3).
  repeat split; try done. constructor.
Qed.

Lemma single_cards_stay_in_sync_witness :
  let stored := Some ["rot-2"; "ams-1"; "rot-2"] in
  let actions := [Mount "rot-2"; ClickFavorite 0; Mount "rot-1"; ClickFavorite 0;
                  ClickFavorite 1] in
  in_sync (runPage (mkPage stored []) actions) /\
  readFavorites (storage (runPage (mkPage stored []) actions)) = ["ams-1"; "rot-2"; "rot-1"].
Proof.
  split; [|reflexivity].
  apply (single_cards_stay_in_sync (mkPage (Some ["rot-2"; "ams-1"; "rot-2"]) [])
           [Mount "rot-2"; ClickFavorite 0; Mount "rot-1"; ClickFavorite 0; ClickFavorite 1]).
  - constructor.
  - constructor.
  - simpl. intuition discriminate.
Defined.

End Favourites.

(* ===================================================================== *)
(** * From the first text to the label in the sidebar                  *)
(* ===================================================================== *)

Section Composed.
Import Web Chat.

Lemma find_user_entries (events : list SendEvent) :
  List.find (fun m => match ui_role m with user => true | assistant => false end)
    (flat_map entryOf events) =
  (fun c => mkUIMessage
              (default EmptyString
                 (head (omap (fun e => match e with
                                       | Started clientNow content =>
                                           if JS.blank content then None
                                           else Some (JS.numberToString clientNow)
                                       | Answered _ => None
                                       end) events)))
              user (Some c) (UserBubble c)) <$> firstText events.
Proof.
  unfold firstText. induction events as [|e events IH]; [done|].
  destruct e as [cn c|r]; simpl.
  - destruct (JS.blank c); simpl; [apply IH|done].
  - apply IH.
Qed.

Lemma not_blank_truthy (c : string) : JS.blank c = false -> JS.truthy c = true.
Proof. by destruct c. Qed.

Lemma firstText_not_blank (events : list SendEvent) (c : string) :
  firstText events = Some c -> JS.blank c = false.
Proof.
  unfold firstText. induction events as [|e events IH]; [done|].
  destruct e as [cn c'|r]; simpl; [|apply IH].
  destruct (JS.blank c') eqn:B; simpl; [apply IH|]. by intros [= <-].
Qed.

(** X20.  In a chat that starts empty, the session is named after the
    first text that was sent and is not blank, whether or not the sends
    that followed overlapped with it: its title is that text, cut after
    50 UTF-16 code units when it is longer. *)
Theorem first_text_names_the_session (events : list SendEvent) (c : string) (p : ChatPage) :
  messages p = [] ->
  firstText events = Some c ->
  sessionTitle (messages (fold_left pageEvent events p)) =
    if (50 <? JS.length c)%nat then JS.substring0 50 c +:+ "..." else c.
Proof.
  intros Hp Hc.
  rewrite pageEvents_messages, Hp. simpl.
  unfold sessionTitle. rewrite find_user_entries, Hc. simpl.
  by rewrite (not_blank_truthy _ (firstText_not_blank _ _ Hc)).
Qed.

Lemma first_text_names_the_session_witness :
  sessionTitle
    (messages
       (fold_left pageEvent
          [ Started 1 "   "; Started 3 "Jazz tonight?"; Started 5 "And tomorrow?";
            Answered (returned (submitUserMessage 4 [] "Jazz tonight?"));
            Answered (returned (submitUserMessage 6 [] "And tomorrow?")) ]
          (mkChatPage EmptyString [] false [] [] None))) =
  "Jazz tonight?".
Proof.
  apply (first_text_names_the_session
           [ Started 1 "   "; Started 3 "Jazz tonight?"; Started 5 "And tomorrow?";
             Answered (returned (submitUserMessage 4 [] "Jazz tonight?"));
             Answered (returned (submitUserMessage 6 [] "And tomorrow?")) ]
           "Jazz tonight?" (mkChatPage EmptyString [] false [] [] None));
    reflexivity.
Defined.

Lemma formatDate_today (now date : Z) :
  formatDate now (Some date) = TodayAt date <-> 0 <= now - date < 86400000.
Proof.
  unfold formatDate. change (1000 * 60 * 60 * 24) with 86400000.
  pose proof (Z.div_mod (now - date) 86400000 ltac:(lia)) as Hdm.
  pose proof (Z.mod_pos_bound (now - date) 86400000 ltac:(lia)) as Hb.
  destruct (Z.eqb_spec ((now - date) / 86400000) 0) as [E0|E0].
  - split; [lia|done].
  - split; [|lia].
    destruct (_ =? 1); [done|]. by destruct (_ <? 7).
Qed.

(** X21.  A session that the effect has just started is listed in the
    sidebar as of today during the 24 hours that follow its start, and
    not after: the label goes by elapsed time. *)
Theorem fresh_session_is_listed_today (now later : Z) (p : ChatPage) (s : ChatSession) :
  currentSessionId p = None ->
  snd (saveSessionEffect now p) = [SetCurrentSession (Some s)] ->
  session_id s = JS.numberToString now /\
  (formatDate later (session_timestamp s) = TodayAt now <-> 0 <= later - now < 86400000).
Proof.
  intros Hid H. unfold saveSessionEffect in H. rewrite Hid in H.
  destruct (0 <? length (messages p))%nat; [|done]. simpl in H.
  injection H as <-. simpl. split; [done|].
  rewrite parseInt_numberToString. apply formatDate_today.
Qed.

Lemma fresh_session_is_listed_today_witness :
  formatDate 1717329599999
    (session_timestamp
       (mkChatSession "1717243200000" "Jazz tonight?" (Some 1717243200000)
          (uiOf mocks (mkSend 1717243200000 1717243200650 "Jazz tonight?")))) =
  TodayAt 1717243200000.
Proof.
  apply (fresh_session_is_listed_today 1717243200000 1717329599999
           (mkChatPage EmptyString
              (uiOf mocks (mkSend 1717243200000 1717243200650 "Jazz tonight?"))
              false [] [] None));
    [reflexivity | reflexivity | lia].
Defined.

End Composed.
